(** * Webcam-to-ComfyUI bridge: job patching, dispatch and artifact discovery

    A shallow embedding of the two server variants of the repository,
    [src/app.js] (module [App]) and [src/unnamed/part_000] (module
    [Server], the variant whose header reads "server.js - Node.js Express
    Server with Fixed Model Loading"), and the proofs of their properties.

    JavaScript objects live in an explicit store: the workflow template is
    loaded once and every request handler receives a reference to the same
    object, so mutation and aliasing are visible in the model. *)

From stdpp Require Import base list strings pretty sorting.
From Stdlib Require Import ZArith.

Local Open Scope Z_scope.
Local Open Scope nat_scope.

(** ** JSON documents

    The result of reading a JSON text, as a tree.  Numbers are modelled by
    integers (IEEE corner values such as signed zero are outside the model).
    An object is the list of its properties in enumeration order. *)

Unset Elimination Schemes.
Inductive json : Type :=
| JNull
| JBool (b : bool)
| JNum (z : Z)
| JStr (s : string)
| JArr (elems : list json)
| JObj (props : list (string * json)).
Set Elimination Schemes.

Section json_induction.
Variable P : json → Prop.
Hypothesis Hnull : P JNull.
Hypothesis Hbool : ∀ b, P (JBool b).
Hypothesis Hnum : ∀ z, P (JNum z).
Hypothesis Hstr : ∀ s, P (JStr s).
Hypothesis Harr : ∀ js, Forall P js → P (JArr js).
Hypothesis Hobj : ∀ kvs, Forall (λ kv, P kv.2) kvs → P (JObj kvs).

Fixpoint json_ind (j : json) : P j :=
  match j with
  | JNull => Hnull
  | JBool b => Hbool b
  | JNum z => Hnum z
  | JStr s => Hstr s
  | JArr js =>
      Harr js ((fix go (l : list json) : Forall P l :=
                  match l with
                  | [] => Forall_nil_2 P
                  | x :: l' => Forall_cons_2 P x l' (json_ind x) (go l')
                  end) js)
  | JObj kvs =>
      Hobj kvs ((fix go (l : list (string * json)) : Forall (λ kv, P kv.2) l :=
                   match l with
                   | [] => Forall_nil_2 _
                   | kv :: l' => Forall_cons_2 _ kv l' (json_ind kv.2) (go l')
                   end) kvs)
  end.
End json_induction.

(** ** Property lists

    [assoc] reads the first property with a given name, [assoc_set] is the
    assignment [o[k] = a]: it overwrites the property in place, or appends
    it when the object has no such property yet. *)

Fixpoint assoc {A} (k : string) (ps : list (string * A)) : option A :=
  match ps with
  | [] => None
  | (k', a) :: ps' => if decide (k' = k) then Some a else assoc k ps'
  end.

Fixpoint assoc_set {A} (k : string) (a : A) (ps : list (string * A))
  : list (string * A) :=
  match ps with
  | [] => [(k, a)]
  | (k', a') :: ps' =>
      if decide (k' = k) then (k', a) :: ps' else (k', a') :: assoc_set k a ps'
  end.

(** The enumerable keys of an array or of a string: "0", "1", ... *)
Definition index_keys (n : nat) : list string := pretty <$> seq 0 n.

Definition indexed {A} (l : list A) : list (string * A) :=
  zip (index_keys (length l)) l.

Fixpoint chars (s : string) : list string :=
  match s with
  | EmptyString => []
  | String c s' => String c EmptyString :: chars s'
  end.

(** ** The object store *)

Abbreviation loc := nat (only parsing).

Inductive value : Type :=
| VUndef
| VNull
| VBool (b : bool)
| VNum (z : Z)
| VStr (s : string)
| VRef (l : loc).

Inductive cell : Type :=
| CObj (props : list (string * value))
| CArr (elems : list value).

Abbreviation heap := (list cell) (only parsing).

Global Instance value_eq_dec : EqDecision value.
Proof. solve_decision. Defined.

(** Own enumerable properties of a stored object, in [for ... in] order. *)
Definition entries (c : cell) : list (string * value) :=
  match c with
  | CObj ps => ps
  | CArr es => indexed es
  end.

Definition own_entries (h : heap) (v : value) : list (string * value) :=
  match v with
  | VRef l => from_option entries [] (h !! l)
  | VStr s => indexed (VStr <$> chars s)
  | _ => []
  end.

(** JavaScript truthiness. *)
Definition truthy (v : value) : bool :=
  match v with
  | VUndef | VNull => false
  | VBool b => b
  | VNum z => negb (z =? 0)%Z
  | VStr s => negb (bool_decide (s = ""))
  | VRef _ => true
  end.

(** ** Exceptions and the store-passing monad *)

Inductive exn : Type :=
| TypeError (msg : string)
| SyntaxError (msg : string)
| Error (msg : string)
| FetchError (msg : string).

Definition message (e : exn) : string :=
  match e with
  | TypeError m | SyntaxError m | Error m | FetchError m => m
  end.

Inductive outcome (S A : Type) : Type :=
| Ret (a : A) (s : S)
| Throw (e : exn) (s : S).
Arguments Ret {S A} a s.
Arguments Throw {S A} e s.

(** Computations over a state [S] that return or throw. *)
Definition ST (S A : Type) : Type := S → outcome S A.

(** Computations over the object store. *)
Abbreviation M := (ST (list cell)).

Definition ret {S A} (a : A) : ST S A := λ s, Ret a s.
Definition throw {S A} (e : exn) : ST S A := λ s, Throw e s.
Definition bind {S A B} (m : ST S A) (f : A → ST S B) : ST S B :=
  λ s, match m s with
       | Ret a s' => f a s'
       | Throw e s' => Throw e s'
       end.

(** [try { m } catch (error) { handler(error) }] *)
Definition try_catch {S A} (m : ST S A) (handler : exn → ST S A) : ST S A :=
  λ s, match m s with
       | Ret a s' => Ret a s'
       | Throw e s' => handler e s'
       end.

Notation "'do' x <- m 'in' k" := (bind m (λ x, k))
  (at level 10, x name, m at level 100, k at level 200,
   format "'[v' 'do'  x  <-  m  'in' '/' k ']'").
Notation "'run' m 'in' k" := (bind m (λ _, k))
  (at level 10, m at level 100, k at level 200,
   format "'[v' 'run'  m  'in' '/' k ']'").

Definition final_state {S A} (o : outcome S A) : S :=
  match o with Ret _ s | Throw _ s => s end.

Fixpoint for_each {S A} (xs : list A) (body : A → ST S unit) : ST S unit :=
  match xs with
  | [] => ret tt
  | x :: xs' => run body x in for_each xs' body
  end.

(** ** Primitive operations on the store *)

Definition cannot_read (k : string) : exn :=
  TypeError ("Cannot read properties of null (reading '" +:+ k +:+ "')").

(** [v[k]] and [v.k].  Only own properties are modelled: the program reads
    [class_type], [inputs], [image], [filename_prefix] and the keys that
    [for ... in] enumerates, none of which is inherited. *)
Definition get_prop (v : value) (k : string) : M value :=
  λ h, match v with
       | VUndef | VNull => Throw (cannot_read k) h
       | _ => Ret (default VUndef (assoc k (own_entries h v))) h
       end.

(** [o.k = a] for a stored object [o]. *)
Definition set_prop (v : value) (k : string) (a : value) : M unit :=
  λ h, match v with
       | VRef l =>
           match h !! l with
           | Some (CObj ps) => Ret tt (<[l := CObj (assoc_set k a ps)]> h)
           | _ => Ret tt h
           end
       | VUndef | VNull =>
           Throw (TypeError ("Cannot set properties of null (setting '" +:+ k +:+ "')")) h
       | _ => Ret tt h
       end.

(** [for (const k in obj) body(k)]: the keys are fixed when the loop starts. *)
Definition for_in (obj : value) (body : string → M unit) : M unit :=
  λ h, for_each (own_entries h obj).*1 body h.

(** ** [JSON.parse] and [JSON.stringify]

    [JSON_parse] builds a document in the store, every object and array in a
    cell of its own; [JSON_stringify] reads a value of the store back into a
    document and fails on a cyclic value. *)

Fixpoint JSON_parse (j : json) (h : heap) {struct j} : heap * value :=
  match j with
  | JNull => (h, VNull)
  | JBool b => (h, VBool b)
  | JNum z => (h, VNum z)
  | JStr s => (h, VStr s)
  | JArr js =>
      let '(h', vs) :=
        (fix go (js : list json) (h : heap) : heap * list value :=
           match js with
           | [] => (h, [])
           | j :: js' =>
               let '(h1, v) := JSON_parse j h in
               let '(h2, vs) := go js' h1 in
               (h2, v :: vs)
           end) js h in
      (h' ++ [CArr vs], VRef (length h'))
  | JObj kvs =>
      let '(h', ps) :=
        (fix go (kvs : list (string * json)) (h : heap)
           : heap * list (string * value) :=
           match kvs with
           | [] => (h, [])
           | (k, j) :: kvs' =>
               let '(h1, v) := JSON_parse j h in
               let '(h2, ps) := go kvs' h1 in
               (h2, (k, v) :: ps)
           end) kvs h in
      (h' ++ [CObj ps], VRef (length h'))
  end.

Fixpoint parse_props (kvs : list (string * json)) (h : heap)
  : heap * list (string * value) :=
  match kvs with
  | [] => (h, [])
  | (k, j) :: kvs' =>
      let '(h1, v) := JSON_parse j h in
      let '(h2, ps) := parse_props kvs' h1 in
      (h2, (k, v) :: ps)
  end.

Fixpoint parse_elems (js : list json) (h : heap) : heap * list value :=
  match js with
  | [] => (h, [])
  | j :: js' =>
      let '(h1, v) := JSON_parse j h in
      let '(h2, vs) := parse_elems js' h1 in
      (h2, v :: vs)
  end.

Fixpoint stringify (fuel : nat) (h : heap) (v : value) {struct fuel}
  : option json :=
  match v with
  | VUndef => None
  | VNull => Some JNull
  | VBool b => Some (JBool b)
  | VNum z => Some (JNum z)
  | VStr s => Some (JStr s)
  | VRef l =>
      match fuel with
      | 0 => None
      | S fuel' =>
          match h !! l with
          | None => None
          | Some (CArr es) =>
              JArr <$> mapM (λ v, match v with
                                  | VUndef => Some JNull
                                  | _ => stringify fuel' h v
                                  end) es
          | Some (CObj ps) =>
              JObj <$> mapM (λ kv, pair kv.1 <$> stringify fuel' h kv.2)
                            (filter (λ kv, kv.2 ≠ VUndef) ps)
          end
      end
  end.

Definition JSON_stringify (h : heap) (v : value) : option json :=
  stringify (S (length h)) h v.

(** [JSON.parse(JSON.stringify(v))] *)
Definition JSON_clone (v : value) : M value :=
  λ h, match JSON_stringify h v with
       | None => Throw (TypeError "Converting circular structure to JSON") h
       | Some j => let '(h', v') := JSON_parse j h in Ret v' h'
       end.

(** ** Reading documents

    The same property access and truthiness on a document held as a value. *)

Definition jentries (j : json) : list (string * json) :=
  match j with
  | JObj kvs => kvs
  | JArr js => indexed js
  | JStr s => indexed (JStr <$> chars s)
  | _ => []
  end.

Definition with_entries (j : json) (es : list (string * json)) : json :=
  match j with
  | JObj _ => JObj es
  | JArr _ => JArr es.*2
  | _ => j
  end.

(** [j[k]], with [None] for [undefined]. *)
Definition jget (j : json) (k : string) : option json := assoc k (jentries j).

Definition jset (j : json) (k : string) (x : json) : json :=
  with_entries j (assoc_set k x (jentries j)).

Definition jtruthy (o : option json) : bool :=
  match o with
  | None | Some JNull => false
  | Some (JBool b) => b
  | Some (JNum z) => negb (z =? 0)%Z
  | Some (JStr s) => negb (bool_decide (s = ""))
  | Some (JArr _) | Some (JObj _) => true
  end.

(** ** The template patcher

    Both variants are a sequence of blocks of one shape,
    [if (node.class_type === c1 || ...) { if (node.inputs && node.inputs.k)
    { node.inputs.k = a; } }], run on every node of a deep clone. *)

(** [node.class_type === c] *)
Definition class_is (node : value) (c : string) : M bool :=
  do ct <- get_prop node "class_type" in
  ret (bool_decide (ct = VStr c)).

(** [node.class_type === c1 || node.class_type === c2 || ...] *)
Fixpoint class_in (node : value) (cs : list string) : M bool :=
  match cs with
  | [] => ret false
  | c :: cs' =>
      do b <- class_is node c in
      if b then ret true else class_in node cs'
  end.

(** [if (node.inputs && node.inputs.k) { node.inputs.k = a; }] *)
Definition set_input (node : value) (k a : string) : M unit :=
  do inputs <- get_prop node "inputs" in
  if truthy inputs then
    do cur <- get_prop inputs k in
    if truthy cur then
      do inputs <- get_prop node "inputs" in
      set_prop inputs k (VStr a)
    else ret tt
  else ret tt.

Definition update_block (cs : list string) (k a : string) (node : value)
  : M unit :=
  do b <- class_in node cs in
  if b then set_input node k a else ret tt.

(** A block as data: the class types it tests, the input it rewrites and
    the new content. *)
Record rule : Type := Rule {
  rule_classes : list string;
  rule_input : string;
  rule_content : string
}.

Definition run_rule (node : value) (r : rule) : M unit :=
  update_block (rule_classes r) (rule_input r) (rule_content r) node.

Definition run_rules (rs : list rule) (node : value) : M unit :=
  for_each rs (run_rule node).

(** The function with the loop body left open. *)
Definition update_workflow (rewrite_node : value → M unit) (workflow : value)
  : M value :=
  do updatedWorkflow <- JSON_clone workflow in
  run for_in updatedWorkflow (λ nodeId,
        do node <- get_prop updatedWorkflow nodeId in
        rewrite_node node) in
  ret updatedWorkflow.

(** [{ prompt: updatedWorkflow, client_id }] as the document that
    [JSON.stringify] makes of it for the request body. *)
Definition prompt_data (updatedWorkflow : value) (client_id : string) : M json :=
  λ h, match JSON_stringify h updatedWorkflow with
       | Some J => Ret (JObj [("prompt", J); ("client_id", JStr client_id)]) h
       | None => Throw (TypeError "Converting circular structure to JSON") h
       end.

(** [patch(T, A)] as a caller sees it: the template document [T] is loaded
    into a fresh store, [f] is called on it and the returned object is read
    back; [None] when the call throws. *)
Definition observe (f : value → M value) (T : json) : option json :=
  let '(h, workflow) := JSON_parse T [] in
  match f workflow h with
  | Ret v h' => JSON_stringify h' v
  | Throw _ _ => None
  end.

(** The store after calling [f] once for each of [names], in turn. *)
Fixpoint after_calls (f : string → M value) (names : list string)
    (h : list cell) : list cell :=
  match names with
  | [] => h
  | A :: names' => after_calls f names' (final_state (f A h))
  end.

(** ** The compute service, the process state and library functions *)

Record request : Type := Request {
  req_method : string;
  req_url : string;
  req_body : option json
}.

Record response : Type := Response {
  status : Z;
  statusText : string;
  text : string;            (* what [response.text()] resolves to *)
  json_body : option json   (* what [response.json()] resolves to, if it does *)
}.

(** [response.ok] *)
Definition ok (r : response) : bool := bool_decide (200 ≤ status r < 300)%Z.

Inductive fetch_result : Type :=
| Resolved (r : response)
| Rejected (e : exn).

(** A stubbed compute service: what [fetch] settles to for a request, given
    the requests made before it.  Only a [fetch] that settles is described:
    [src/app.js] passes no timeout, so against a service that never answers
    its promise stays pending, and the options that [src/unnamed/part_000]
    passes ([timeout], [User-Agent]) are part of how its [fetch] settles,
    not of the request recorded here. *)
Definition transport : Type := list request → request → fetch_result.

(** The state a dispatch runs in: the object store and the log of the
    requests sent so far. *)
Record net : Type := Net {
  store : list cell;
  calls : list request
}.

Definition on_store {A} (m : M A) : ST net A :=
  λ w, match m (store w) with
       | Ret a h => Ret a (Net h (calls w))
       | Throw e h => Throw e (Net h (calls w))
       end.

(** [await fetch(url, options)] *)
Definition fetch (service : transport) (req : request) : ST net response :=
  λ w, let w' := Net (store w) (calls w ++ [req]) in
       match service (calls w) req with
       | Resolved r => Ret r w'
       | Rejected e => Throw e w'
       end.

(** [await response.json()] *)
Definition response_json {S} (r : response) : ST S json :=
  match json_body r with
  | Some j => ret j
  | None => throw (SyntaxError "Unexpected token in JSON")
  end.

(** [j.k] for a document [j] received from outside. *)
Definition jprop {S} (j : json) (k : string) : ST S (option json) :=
  match j with
  | JNull => throw (cannot_read k)
  | _ => ret (jget j k)
  end.

(** What [queueComfyUIPrompt] returns: [{ success: true, prompt_id, number }]
    or [{ success: false, error }]. *)
Inductive queue_result : Type :=
| Queued (prompt_id number : option json)
| Failed (error : string).

Definition success (r : queue_result) : bool :=
  match r with Queued _ _ => true | Failed _ => false end.

(** A pending [setTimeout] callback: the dispatch of [timer_filename] on
    [timer_workflow] after [timer_ms] milliseconds. *)
Record timer : Type := Timer {
  timer_ms : Z;
  timer_workflow : value;
  timer_filename : string
}.

(** [res.status(n).json(body)] *)
Record reply : Type := Reply {
  reply_status : Z;
  reply_body : json
}.

(** The state a request handler runs in. *)
Record process (fs : Type) : Type := Process {
  heap_of : list cell;
  disk : fs;
  timers : list timer;
  sent : option reply
}.
Arguments Process {fs} _ _ _ _.
Arguments heap_of {fs} _.
Arguments disk {fs} _.
Arguments timers {fs} _.
Arguments sent {fs} _.

Definition in_store {fs A} (m : M A) : ST (process fs) A :=
  λ p, match m (heap_of p) with
       | Ret a h => Ret a (Process h (disk p) (timers p) (sent p))
       | Throw e h => Throw e (Process h (disk p) (timers p) (sent p))
       end.

Definition send {fs} (r : reply) : ST (process fs) unit :=
  λ p, Ret tt (Process (heap_of p) (disk p) (timers p) (Some r)).

Definition setTimeout {fs} (t : timer) : ST (process fs) unit :=
  λ p, Ret tt (Process (heap_of p) (disk p) (timers p ++ [t]) (sent p)).

Definition write_file {fs} (writeFileSync : string → string → fs → exn + fs)
    (path data : string) : ST (process fs) unit :=
  λ p, match writeFileSync path data (disk p) with
       | inr d => Ret tt (Process (heap_of p) d (timers p) (sent p))
       | inl e => Throw e p
       end.

(** [Object.keys(v)] *)
Definition Object_keys (v : value) : M (list string) :=
  λ h, match v with
       | VUndef | VNull =>
           Throw (TypeError "Cannot convert undefined or null to object") h
       | _ => Ret (own_entries h v).*1 h
       end.

(** [s.replace(/^data:image\/jpeg;base64,/, '')] *)
Fixpoint drop_prefix (p s : string) : option string :=
  match p, s with
  | EmptyString, _ => Some s
  | String a p', String b s' => if decide (a = b) then drop_prefix p' s' else None
  | String _ _, EmptyString => None
  end.

Definition strip_data_url (s : string) : string :=
  default s (drop_prefix "data:image/jpeg;base64," s).

(** [imageData.replace(...)]: only strings have the method. *)
Definition replace_data_url {S} (imageData : option json) : ST S string :=
  match imageData with
  | Some (JStr s) => ret (strip_data_url s)
  | _ => throw (TypeError "imageData.replace is not a function")
  end.

(** [s.toLowerCase()] and [s.endsWith(suffix)] on byte strings. *)
Definition lower (c : Ascii.ascii) : Ascii.ascii :=
  let n := Ascii.nat_of_ascii c in
  if bool_decide (65 ≤ n ≤ 90) then Ascii.ascii_of_nat (n + 32) else c.

Fixpoint toLowerCase (s : string) : string :=
  match s with
  | EmptyString => EmptyString
  | String c s' => String (lower c) (toLowerCase s')
  end.

Fixpoint endsWith (s suffix : string) : bool :=
  bool_decide (s = suffix)
  || match s with
     | EmptyString => false
     | String _ s' => endsWith s' suffix
     end.

(** [l.sort(cmp)], a stable sort: [a] stays before [b] unless [cmp a b] is
    positive. *)
Fixpoint sort_insert {A} (cmp : A → A → Z) (x : A) (l : list A) : list A :=
  match l with
  | [] => [x]
  | y :: l' =>
      if bool_decide (cmp x y ≤ 0)%Z then x :: y :: l'
      else y :: sort_insert cmp x l'
  end.

Fixpoint Array_sort {A} (cmp : A → A → Z) (l : list A) : list A :=
  match l with
  | [] => []
  | x :: l' => sort_insert cmp x (Array_sort cmp l')
  end.

(** What the file system answers about one path: [fs.existsSync],
    [fs.readdirSync] and, for an entry of a directory, [fs.statSync] (which
    throws when the entry cannot be read). *)
Record stats : Type := Stats {
  size : Z;
  mtime : Z   (* milliseconds since the epoch *)
}.

Inductive fs_node : Type :=
| Missing
| File
| Directory (listing : list (string * option stats)).

Definition existsSync (n : fs_node) : bool :=
  match n with Missing => false | _ => true end.

Definition readdirSync (n : fs_node) : option (list string) :=
  match n with Directory es => Some es.*1 | _ => None end.

Definition statSync (n : fs_node) (file : string) : option stats :=
  match n with Directory es => mjoin (assoc file es) | _ => None end.

(** An entry of the model list served to the client. *)
Record artifact : Type := Artifact {
  name : string;
  path : string;
  url : string;
  a_size : Z;
  created : Z;
  modified : Z
}.

(** ** Start-up and the other routes: shared vocabulary *)

(** The module-level state of the server: the object store and the variable
    [workflowTemplate]. *)
Record globals : Type := Globals {
  g_store : list cell;
  g_workflowTemplate : value
}.

Definition in_globals {A} (m : M A) : ST globals A :=
  λ g, match m (g_store g) with
       | Ret a h => Ret a (Globals h (g_workflowTemplate g))
       | Throw e h => Throw e (Globals h (g_workflowTemplate g))
       end.

(** [workflowTemplate = v] *)
Definition assign_template (v : value) : ST globals unit :=
  λ g, Ret tt (Globals (g_store g) v).

(** The object literal [{}]. *)
Definition new_object : M value :=
  λ h, Ret (VRef (length h)) (h ++ [CObj []]).

(** [JSON.parse(text)] for a text that reads as the document [T]. *)
Definition parse_document (T : json) : M value :=
  λ h, let '(h', v) := JSON_parse T h in Ret v h'.

(** What the file system holds at [COMFYUI_WORKFLOW_FILE] when the server
    starts: nothing, a file that [fs.readFileSync] or [JSON.parse] rejects
    with [e], or a JSON text that reads as the document [T]. *)
Inductive workflow_file : Type :=
| NoFile
| BadFile (e : exn)
| JsonFile (T : json).

(** [Object.keys(j)] for a document. *)
Definition jkeys (j : json) : list string := (jentries j).*1.

(** [xs.forEach(x => results.push(f(x)))]: the results in order, up to the
    first exception. *)
Fixpoint collect {S A B} (xs : list A) (f : A → ST S B) : ST S (list B) :=
  match xs with
  | [] => ret []
  | x :: xs' =>
      do y <- f x in
      do ys <- collect xs' f in
      ret (y :: ys)
  end.

(** ** [src/app.js] *)
Module App.
Definition COMFYUI_INPUT_FOLDER : string :=
  "C:/Users/Ideas/Documents/ComfyUI_windows_portable_nvidia/ComfyUI_windows_portable/ComfyUI/input".
Definition COMFYUI_API_URL : string := "http://127.0.0.1:8188".
Definition PROMPT_DELAY_SECONDS : Z := 5.
Definition INPUT_FILENAME : string := "webcam_input.jpg".
Definition OUTPUT_PREFIX : string := "webcam_3d_mesh".
Definition MESH_FOLDER : string := "mesh".

(** The body of the loop of [updateWorkflowWithImage]. *)
Definition rewrite_node (imageName : string) (node : value) : M unit :=
  run update_block ["LoadImage"] "image" imageName node in
  run update_block ["SaveImage"] "filename_prefix" OUTPUT_PREFIX node in
  run update_block ["SaveGLB"] "filename_prefix"
        (MESH_FOLDER +:+ "/" +:+ OUTPUT_PREFIX) node in
  update_block ["LoadImageMask"; "ImageInput"] "image" imageName node.

Definition updateWorkflowWithImage (workflow : value) (imageName : string)
  : M value :=
  update_workflow (rewrite_node imageName) workflow.

Definition patch (T : json) (A : string) : option json :=
  observe (λ workflow, updateWorkflowWithImage workflow A) T.

(** The blocks of [rewrite_node] as data. *)
Definition rules (imageName : string) : list rule :=
  [ Rule ["LoadImage"] "image" imageName;
    Rule ["SaveImage"] "filename_prefix" OUTPUT_PREFIX;
    Rule ["SaveGLB"] "filename_prefix" (MESH_FOLDER +:+ "/" +:+ OUTPUT_PREFIX);
    Rule ["LoadImageMask"; "ImageInput"] "image" imageName ].

Section Dispatch.
Variable service : transport.
Variable now : Z.   (* [Date.now()] *)

Definition queueComfyUIPrompt (workflow : value) (filename : string)
  : ST net queue_result :=
  try_catch
    (do healthCheck <-
        fetch service (Request "GET" (COMFYUI_API_URL +:+ "/system_stats") None) in
     run (if negb (ok healthCheck)
          then throw (Error "ComfyUI server not responding")
          else ret tt) in
     do updatedWorkflow <- on_store (updateWorkflowWithImage workflow filename) in
     do promptData <- on_store (prompt_data updatedWorkflow
                                  ("webcam_app_" +:+ pretty now)) in
     do response <-
        fetch service (Request "POST" (COMFYUI_API_URL +:+ "/prompt")
                               (Some promptData)) in
     run (if negb (ok response)
          then throw (Error ("ComfyUI API error: " +:+ pretty (status response)
                             +:+ " " +:+ statusText response))
          else ret tt) in
     do result <- response_json response in
     do prompt_id <- jprop result "prompt_id" in
     do number <- jprop result "number" in
     ret (Queued prompt_id number))
    (λ error, ret (Failed (message error))).
End Dispatch.

Section Capture.
Context {fs : Type}.
Variable writeFileSync : string → string → fs → exn + fs.
Variable path_join : string → string → string.
Variable Buffer_from_base64 : string → string.

(** [app.post('/save-frame', ...)] with [req.body] the document [body]. *)
Definition save_frame (workflowTemplate : value) (body : json)
  : ST (process fs) unit :=
  try_catch
    (do imageData <- jprop body "imageData" in
     if negb (jtruthy imageData)
     then send (Reply 400 (JObj [("error", JStr "Missing imageData")]))
     else
       let filename := INPUT_FILENAME in
       do base64Data <- replace_data_url imageData in
       let buffer := Buffer_from_base64 base64Data in
       let filePath := path_join COMFYUI_INPUT_FOLDER filename in
       run write_file writeFileSync filePath buffer in
       do keys <- in_store (Object_keys workflowTemplate) in
       run send (Reply 200 (JObj [
             ("success", JBool true);
             ("message", JStr ("Frame saved to " +:+ filePath));
             ("filename", JStr filename);
             ("path", JStr filePath);
             ("comfyui_enabled", JBool (bool_decide (0 < length keys)));
             ("delay_seconds", JNum PROMPT_DELAY_SECONDS);
             ("overwrite_mode", JBool true) ])) in
       do keys <- in_store (Object_keys workflowTemplate) in
       if bool_decide (0 < length keys)
       then setTimeout (Timer (PROMPT_DELAY_SECONDS * 1000)
                              workflowTemplate filename)
       else ret tt)
    (λ error, send (Reply 500 (JObj [("error", JStr "Failed to save frame")]))).
End Capture.

(** The block that loads the template when the server starts. *)
Definition load_template (file : workflow_file) : ST globals unit :=
  run (do empty <- in_globals new_object in assign_template empty) in
  try_catch
    (match file with
     | NoFile => ret tt
     | BadFile e => throw e
     | JsonFile T =>
         do parsed <- in_globals (parse_document T) in
         assign_template parsed
     end)
    (λ error, ret tt).

(** The callback that [/save-frame] gives to [setTimeout], up to what it
    logs. *)
Definition on_timer (service : transport) (now : Z) (t : timer)
  : ST net queue_result :=
  queueComfyUIPrompt service now (timer_workflow t) (timer_filename t).

(** [app.get('/config', ...)], with [fs_exists] what [fs.existsSync]
    answers.  The reply is the last action of the handler: the computation
    returns it. *)
Definition config (fs_exists : string → bool) (workflowTemplate : value)
  : M reply :=
  do keys <- Object_keys workflowTemplate in
  ret (Reply 200 (JObj [
         ("saveLocation", JStr COMFYUI_INPUT_FOLDER);
         ("comfyuiApiUrl", JStr COMFYUI_API_URL);
         ("workflowLoaded", JBool (bool_decide (0 < length keys)));
         ("delaySeconds", JNum PROMPT_DELAY_SECONDS);
         ("inputFilename", JStr INPUT_FILENAME);
         ("outputPrefix", JStr OUTPUT_PREFIX);
         ("meshFolder", JStr MESH_FOLDER);
         ("workflowType", JStr "3D Mesh Generation (Hunyuan3D)");
         ("overwriteMode", JBool true);
         ("exists", JBool (fs_exists COMFYUI_INPUT_FOLDER)) ])).

(** [app.get('/test-comfyui', ...)]; every path ends by sending a reply,
    which the computation returns. *)
Definition test_comfyui (service : transport) : ST net reply :=
  try_catch
    (do response <-
        fetch service (Request "GET" (COMFYUI_API_URL +:+ "/system_stats") None) in
     if ok response then
       do stats <- response_json response in
       ret (Reply 200 (JObj [
              ("success", JBool true);
              ("message", JStr "ComfyUI is running");
              ("stats", stats) ]))
     else
       ret (Reply 200 (JObj [
              ("success", JBool false);
              ("message", JStr ("ComfyUI returned status: "
                                +:+ pretty (status response))) ])))
    (λ error,
       ret (Reply 200 (JObj [
              ("success", JBool false);
              ("message", JStr ("Cannot connect to ComfyUI: "
                                +:+ message error)) ]))).
End App.

(** ** [src/unnamed/part_000] *)
Module Server.
Definition COMFYUI_INPUT_FOLDER : string :=
  "D:/ComfyUI_windows_portable_nvidia/ComfyUI_windows_portable/ComfyUI/input".
Definition COMFYUI_OUTPUT_FOLDER : string :=
  "D:/ComfyUI_windows_portable_nvidia/webcam-comfyui-3D-app-main/public/models".
Definition MODEL_MESH_FOLDER : string :=
  "D:/ComfyUI_windows_portable_nvidia/webcam-comfyui-3D-app-main/public/models/mesh".
Definition COMFYUI_API_URL : string := "http://127.0.0.1:8188".
Definition PROMPT_DELAY_SECONDS : Z := 5.
Definition INPUT_FILENAME : string := "webcam_input.jpg".
Definition OUTPUT_PREFIX : string := "webcam_3d_mesh".
Definition MESH_FOLDER : string := "mesh".

(** [file.toLowerCase().endsWith('.glb')] *)
Definition isGLB (file : string) : bool := endsWith (toLowerCase file) ".glb".

Section ArtifactIndex.
Variable path_join : string → string → string.

(** The object built for a file and its [stats]. *)
Definition model (file : string) (stats : stats) : artifact :=
  {| name := file;
     path := path_join MODEL_MESH_FOLDER file;
     url := "/mesh/" +:+ file;
     a_size := size stats;
     created := mtime stats;
     modified := mtime stats |}.

(** [findGLBFiles()], with [mesh] what the file system holds at
    [MODEL_MESH_FOLDER]; an exception anywhere yields the empty list. *)
Definition findGLBFiles (mesh : fs_node) : list artifact :=
  default []
    (if negb (existsSync mesh) then Some []
     else
       names ← readdirSync mesh;
       files ← mapM (λ file, stats ← statSync mesh file;
                             Some (model file stats))
                    (filter (λ file, isGLB file = true) names);
       Some (Array_sort (λ a b, (created b - created a)%Z) files)).

(** [findLatestGLBFile()], with [None] for [null]. *)
Definition findLatestGLBFile (mesh : fs_node) : option artifact :=
  let files := findGLBFiles mesh in
  if bool_decide (0 < length files) then files !! 0 else None.
End ArtifactIndex.

(** The body of the loop of [updateWorkflowWithImage]. *)
Definition rewrite_node (imageName : string) (node : value) : M unit :=
  run update_block ["LoadImage"] "image" imageName node in
  run update_block ["SaveGLB"] "filename_prefix" OUTPUT_PREFIX node in
  update_block ["LoadImageMask"; "ImageInput"] "image" imageName node.

Definition updateWorkflowWithImage (workflow : value) (imageName : string)
  : M value :=
  update_workflow (rewrite_node imageName) workflow.

Definition patch (T : json) (A : string) : option json :=
  observe (λ workflow, updateWorkflowWithImage workflow A) T.

(** The blocks of [rewrite_node] as data. *)
Definition rules (imageName : string) : list rule :=
  [ Rule ["LoadImage"] "image" imageName;
    Rule ["SaveGLB"] "filename_prefix" OUTPUT_PREFIX;
    Rule ["LoadImageMask"; "ImageInput"] "image" imageName ].

Section Dispatch.
Variable service : transport.
Variable now : Z.   (* [Date.now()] *)

Definition queueComfyUIPrompt (workflow : value) (filename : string)
  : ST net queue_result :=
  try_catch
    (do healthCheck <-
        fetch service (Request "GET" (COMFYUI_API_URL +:+ "/system_stats") None) in
     run (if negb (ok healthCheck)
          then throw (Error ("ComfyUI server returned status: "
                             +:+ pretty (status healthCheck)))
          else ret tt) in
     do updatedWorkflow <- on_store (updateWorkflowWithImage workflow filename) in
     do promptData <- on_store (prompt_data updatedWorkflow
                                  ("webcam_app_" +:+ pretty now)) in
     do response <-
        fetch service (Request "POST" (COMFYUI_API_URL +:+ "/prompt")
                               (Some promptData)) in
     run (if negb (ok response)
          then
            let errorText := text response in
            throw (Error ("ComfyUI API error: " +:+ pretty (status response)
                          +:+ " " +:+ statusText response
                          +:+ " - " +:+ errorText))
          else ret tt) in
     do result <- response_json response in
     do prompt_id <- jprop result "prompt_id" in
     do number <- jprop result "number" in
     ret (Queued prompt_id number))
    (λ error, ret (Failed (message error))).
End Dispatch.

Section Capture.
Context {fs : Type}.
Variable writeFileSync : string → string → fs → exn + fs.
Variable path_join : string → string → string.
Variable Buffer_from_base64 : string → string.

(** [app.post('/save-frame', ...)] with [req.body] the document [body]. *)
Definition save_frame (workflowTemplate : value) (body : json)
  : ST (process fs) unit :=
  try_catch
    (do imageData <- jprop body "imageData" in
     if negb (jtruthy imageData)
     then send (Reply 400 (JObj [("error", JStr "Missing imageData")]))
     else
       let filename := INPUT_FILENAME in
       do base64Data <- replace_data_url imageData in
       let buffer := Buffer_from_base64 base64Data in
       let filePath := path_join COMFYUI_INPUT_FOLDER filename in
       run write_file writeFileSync filePath buffer in
       do keys <- in_store (Object_keys workflowTemplate) in
       run send (Reply 200 (JObj [
             ("success", JBool true);
             ("message", JStr ("Frame saved to " +:+ filePath));
             ("filename", JStr filename);
             ("path", JStr filePath);
             ("comfyui_enabled", JBool (bool_decide (0 < length keys)));
             ("delay_seconds", JNum PROMPT_DELAY_SECONDS);
             ("mesh_folder", JStr MODEL_MESH_FOLDER) ])) in
       do keys <- in_store (Object_keys workflowTemplate) in
       if bool_decide (0 < length keys)
       then setTimeout (Timer (PROMPT_DELAY_SECONDS * 1000)
                              workflowTemplate filename)
       else ret tt)
    (λ error, send (Reply 500 (JObj [("error", JStr "Failed to save frame")]))).
End Capture.

(** The block that loads the template when the server starts; this variant
    also logs the number of nodes once the template is assigned. *)
Definition load_template (file : workflow_file) : ST globals unit :=
  run (do empty <- in_globals new_object in assign_template empty) in
  try_catch
    (match file with
     | NoFile => ret tt
     | BadFile e => throw e
     | JsonFile T =>
         do parsed <- in_globals (parse_document T) in
         run assign_template parsed in
         do keys <- in_globals (Object_keys parsed) in
         ret tt
     end)
    (λ error, ret tt).

(** The callback that [/save-frame] gives to [setTimeout], up to what it
    logs. *)
Definition on_timer (service : transport) (now : Z) (t : timer)
  : ST net queue_result :=
  queueComfyUIPrompt service now (timer_workflow t) (timer_filename t).

(** [app.get('/config', ...)], with [fs_exists] what [fs.existsSync]
    answers.  The reply is the last action of the handler: the computation
    returns it. *)
Definition config (fs_exists : string → bool) (workflowTemplate : value)
  : M reply :=
  do keys <- Object_keys workflowTemplate in
  ret (Reply 200 (JObj [
         ("saveLocation", JStr COMFYUI_INPUT_FOLDER);
         ("outputLocation", JStr COMFYUI_OUTPUT_FOLDER);
         ("meshFolder", JStr MODEL_MESH_FOLDER);
         ("comfyuiApiUrl", JStr COMFYUI_API_URL);
         ("workflowLoaded", JBool (bool_decide (0 < length keys)));
         ("delaySeconds", JNum PROMPT_DELAY_SECONDS);
         ("inputFilename", JStr INPUT_FILENAME);
         ("outputPrefix", JStr OUTPUT_PREFIX);
         ("workflowType", JStr "3D Mesh Generation (Hunyuan3D)");
         ("inputExists", JBool (fs_exists COMFYUI_INPUT_FOLDER));
         ("outputExists", JBool (fs_exists COMFYUI_OUTPUT_FOLDER));
         ("meshFolderExists", JBool (fs_exists MODEL_MESH_FOLDER)) ])).

(** [app.get('/test-comfyui', ...)]; every path ends by sending a reply,
    which the computation returns. *)
Definition test_comfyui (service : transport) : ST net reply :=
  try_catch
    (do response <-
        fetch service (Request "GET" (COMFYUI_API_URL +:+ "/system_stats") None) in
     if ok response then
       do stats <- response_json response in
       ret (Reply 200 (JObj [
              ("success", JBool true);
              ("message", JStr "ComfyUI is running");
              ("stats", stats) ]))
     else
       ret (Reply 200 (JObj [
              ("success", JBool false);
              ("message", JStr ("ComfyUI returned status: "
                                +:+ pretty (status response))) ])))
    (λ error,
       ret (Reply 200 (JObj [
              ("success", JBool false);
              ("message", JStr ("Cannot connect to ComfyUI: "
                                +:+ message error)) ]))).


Section DebugRoute.
Variable path_join : string → string → string.
Variable toISOString : Z → string.          (* [Date.prototype.toISOString] *)
Variable fs_error : string → string → exn.  (* what [fs] throws for a call on a path *)
Variable stack : exn → string.              (* [error.stack] *)

(** An entry of [debugInfo.foundFiles] as [res.json] writes it. *)
Definition found_file (file : string) (stats : stats) : json :=
  JObj [("name", JStr file);
        ("fullPath", JStr (path_join MODEL_MESH_FOLDER file));
        ("url", JStr ("/mesh/" +:+ file));
        ("size", JNum (size stats));
        ("created", JStr (toISOString (mtime stats)));
        ("isGLB", JBool (isGLB file))].

(** [app.get('/debug-models', ...)], with [output] and [mesh] what the file
    system holds at [COMFYUI_OUTPUT_FOLDER] and at [MODEL_MESH_FOLDER]. *)
Definition debug_models {S} (output mesh : fs_node) : ST S reply :=
  try_catch
    (let configuredPaths :=
       JObj [("comfyuiOutput", JStr COMFYUI_OUTPUT_FOLDER);
             ("meshFolder", JStr MODEL_MESH_FOLDER);
             ("outputPrefix", JStr OUTPUT_PREFIX)] in
     let pathStatus :=
       JObj [("outputExists", JBool (existsSync output));
             ("meshExists", JBool (existsSync mesh))] in
     if existsSync mesh then
       do allFiles <- match readdirSync mesh with
                      | Some allFiles => ret allFiles
                      | None => throw (fs_error "scandir" MODEL_MESH_FOLDER)
                      end in
       do foundFiles <-
          collect allFiles (λ file,
            let fullPath := path_join MODEL_MESH_FOLDER file in
            match statSync mesh file with
            | Some stats => ret (found_file file stats)
            | None => throw (fs_error "stat" fullPath)
            end) in
       ret (Reply 200 (JObj [("configuredPaths", configuredPaths);
                             ("pathStatus", pathStatus);
                             ("foundFiles", JArr foundFiles);
                             ("allFiles", JArr (JStr <$> allFiles))]))
     else
       ret (Reply 200 (JObj [("configuredPaths", configuredPaths);
                             ("pathStatus", pathStatus);
                             ("foundFiles", JArr [])])))
    (λ error,
       ret (Reply 500 (JObj [("error", JStr (message error));
                             ("stack", JStr (stack error))]))).
End DebugRoute.
End Server.

(** ** The patcher as a function on documents

    What the patcher computes, read off the store: the same loop over a
    document held as a value.  [None] stands for the [TypeError] of reading a
    property of [null]. *)

Definition jclass_is (node : json) (c : string) : bool :=
  match jget node "class_type" with
  | Some (JStr s) => bool_decide (s = c)
  | _ => false
  end.

Definition jclass_in (node : json) (cs : list string) : bool :=
  existsb (jclass_is node) cs.

Definition jset_input (node : json) (k a : string) : json :=
  match jget node "inputs" with
  | Some (JObj ikvs) =>
      if jtruthy (assoc k ikvs)
      then jset node "inputs" (JObj (assoc_set k (JStr a) ikvs))
      else node
  | _ => node
  end.

Definition apply_rule (node : json) (r : rule) : option json :=
  match node, rule_classes r with
  | JNull, _ :: _ => None
  | _, _ => Some (if jclass_in node (rule_classes r)
                  then jset_input node (rule_input r) (rule_content r)
                  else node)
  end.

Definition patch_node (rs : list rule) (node : json) : option json :=
  foldl (λ o r, o ≫= λ n, apply_rule n r) (Some node) rs.

Definition patch_step (rs : list rule) (cur : option json) (k : string)
  : option json :=
  T ← cur; node ← jget T k; node' ← patch_node rs node; Some (jset T k node').

Definition patched (rs : list rule) (T : json) : option json :=
  foldl (patch_step rs) (Some T) (jentries T).*1.


(** The input a block tests, [node.inputs.k], with [None] for [undefined]
    (also when [node.inputs] is). *)
Definition jinput (node : json) (k : string) : option json :=
  match jget node "inputs" with
  | Some i => jget i k
  | None => None
  end.

(** The class types either variant tests. *)
Definition recognized : list string :=
  ["LoadImage"; "LoadImageMask"; "ImageInput"; "SaveImage"; "SaveGLB"].

(** The input that is rewritten in a node of class type [c]. *)
Definition target_input (c : string) : option string :=
  if bool_decide (c ∈ ["LoadImage"; "LoadImageMask"; "ImageInput"])
  then Some "image"
  else if bool_decide (c ∈ ["SaveImage"; "SaveGLB"])
       then Some "filename_prefix"
       else None.

(** A template with one image input node and one mesh save node. *)
Definition scenario_template : json :=
  JObj [("1", JObj [("class_type", JStr "LoadImage");
                    ("inputs", JObj [("image", JStr "example.png")])]);
        ("2", JObj [("class_type", JStr "SaveGLB");
                    ("inputs", JObj [("filename_prefix", JStr "3D/Hy3D");
                                     ("mesh", JArr [JStr "7"; JNum 0])])])].

(** A template with a node the patcher does not know, next to an image
    input. *)
Definition mixed_template : json :=
  JObj [("3", JObj [("class_type", JStr "LoadImage");
                    ("inputs", JObj [("image", JStr "old.png")])]);
        ("4", JObj [("class_type", JStr "KSampler");
                    ("inputs", JObj [("image", JStr "keep.png"); ("seed", JNum 7)])])].

(** A template whose image input holds the empty string. *)
Definition empty_input_template : json :=
  JObj [("5", JObj [("class_type", JStr "LoadImage");
                    ("inputs", JObj [("image", JStr "")])]);
        ("6", JObj [("class_type", JStr "SaveGLB");
                    ("inputs", JObj [("filename_prefix", JStr "old")])])].


(** ** Dispatch and capture: vocabulary of the properties *)

(** The request of the health probe. *)
Definition health_request : request :=
  Request "GET" "http://127.0.0.1:8188/system_stats" None.

(** The request that submits the job document [J] at time [now]. *)
Definition prompt_request (J : json) (now : Z) : request :=
  Request "POST" "http://127.0.0.1:8188/prompt"
          (Some (JObj [("prompt", J);
                       ("client_id", JStr ("webcam_app_" +:+ pretty now))])).

(** Whether the health probe, sent after the requests of [log], settles to
    a success status: [fetch] resolves and [healthCheck.ok] holds. *)
Definition healthCheck (service : transport) (log : list request) : bool :=
  match service log health_request with
  | Resolved r => ok r
  | Rejected _ => false
  end.

(** How many submissions a log of requests holds. *)
Definition posts (log : list request) : nat :=
  length (filter (λ r, req_method r = "POST") log).

(** A stubbed compute service that is healthy and answers 500 with body
    ["boom"] to a submission. *)
Definition rejecting_service : transport :=
  λ _ req,
    if bool_decide (req_method req = "GET")
    then Resolved (Response 200 "OK" "{}" (Some (JObj [])))
    else Resolved (Response 500 "Internal Server Error" "boom" None).

(** A stubbed compute service that cannot be reached. *)
Definition unreachable_service : transport :=
  λ _ _, Rejected (FetchError "connect ECONNREFUSED 127.0.0.1:8188").

(** A stubbed compute service that answers the health probe and refuses
    the connection of a submission. *)
Definition post_refusing_service : transport :=
  λ _ req,
    if bool_decide (req_method req = "GET")
    then Resolved (Response 200 "OK" "{}" (Some (JObj [])))
    else Rejected (FetchError "connect ECONNREFUSED 127.0.0.1:8188").

(** A disk as the list of its files, on which every write succeeds. *)
Definition write_always (path data : string) (d : list (string * string))
  : exn + list (string * string) :=
  inr (assoc_set path data d).

Definition join_slash (dir file : string) : string := dir +:+ "/" +:+ file.

(** A mesh folder with three models and a file of another kind. *)
Definition three_models : fs_node :=
  Directory [("b.glb", Some (Stats 20 2000)); ("notes.txt", Some (Stats 1 9000));
             ("C.GLB", Some (Stats 30 3000)); ("a.glb", Some (Stats 10 1000))].

(** What is asked of a capture handled with no job template, where [p'] is
    the state the handler leaves, [ts] the timers pending before it, [d] the
    disk before it and [write] the write of the frame: no timer is added; a
    success reply reports [comfyui_enabled] as false; and when the request
    carries a frame and the write succeeds, the frame is on the disk and the
    reply is the success reply. *)
Definition capture_without_template {fs : Type} (write : string → fs → exn + fs)
    (ts : list timer) (d : fs) (body : json) (p' : process fs) : Prop :=
  timers p' = ts
  ∧ (∀ r, sent p' = Some r → reply_status r = 200%Z →
          jget (reply_body r) "comfyui_enabled" = Some (JBool false))
  ∧ (∀ s d', jget body "imageData" = Some (JStr s) → s ≠ "" →
             write (strip_data_url s) d = inr d' →
             disk p' = d' ∧
             ∃ r, sent p' = Some r ∧ reply_status r = 200%Z ∧
                  jget (reply_body r) "success" = Some (JBool true) ∧
                  jget (reply_body r) "comfyui_enabled" = Some (JBool false)).

(** A capture request that carries a frame. *)
Definition frame_request : json :=
  JObj [("imageData", JStr "data:image/jpeg;base64,AAAA")].

(** ** A document represented in the store

    [repr h v j lo hi]: in store [h] the value [v] is a tree that reads as
    the document [j] and whose cells all lie in the range from [lo] up to
    and excluding [hi]; distinct properties occupy disjoint sub-ranges, laid
    out in order ([chain]). *)

Inductive chain (R : value → json → nat → nat → Prop)
  : list (string * value) → list (string * json) → nat → nat → Prop :=
| chain_nil lo hi : lo ≤ hi → chain R [] [] lo hi
| chain_cons k v j ps kvs lo mid hi :
    lo ≤ mid → R v j lo mid → chain R ps kvs mid hi →
    chain R ((k, v) :: ps) ((k, j) :: kvs) lo hi.

Definition same_kind (c : cell) (j : json) : Prop :=
  match c, j with
  | CObj _, JObj _ | CArr _, JArr _ => True
  | _, _ => False
  end.

#[warnings="-register-all"]
Inductive repr (h : heap) : value → json → nat → nat → Prop :=
| repr_null lo hi : lo ≤ hi → repr h VNull JNull lo hi
| repr_bool b lo hi : lo ≤ hi → repr h (VBool b) (JBool b) lo hi
| repr_num z lo hi : lo ≤ hi → repr h (VNum z) (JNum z) lo hi
| repr_str s lo hi : lo ≤ hi → repr h (VStr s) (JStr s) lo hi
| repr_ref l c j lo hi :
    h !! l = Some c → same_kind c j → l < hi →
    chain (repr h) (entries c) (jentries j) lo l →
    repr h (VRef l) j lo hi.

Definition is_container (j : json) : bool :=
  match j with JObj _ | JArr _ => true | _ => false end.

(** *** Effects of the loop body on a represented value *)

Definition unchanged_outside (lo hi : nat) (h h' : heap) : Prop :=
  length h' = length h ∧ ∀ l, ¬ (lo ≤ l < hi) → h' !! l = h !! l.

(** The computation ends normally, has written only inside the range of
    [v], and [v] now represents [j']. *)
Definition mutates (h : heap) (lo hi : nat) (v : value) (j' : json)
    (o : outcome (list cell) unit) : Prop :=
  ∃ h', o = Ret tt h' ∧ unchanged_outside lo hi h h' ∧ repr h' v j' lo hi.

Definition throws (h : heap) (lo hi : nat) (o : outcome (list cell) unit) : Prop :=
  ∃ h', o = Throw (cannot_read "class_type") h' ∧ unchanged_outside lo hi h h'.

Definition agrees (h : heap) (lo hi : nat) (v : value) (r : option json)
    (o : outcome (list cell) unit) : Prop :=
  match r with
  | Some j' => mutates h lo hi v j' o
  | None => throws h lo hi o
  end.

(** The body of the loop on the clone [root]. *)
Definition loop_body (rs : list rule) (root : value) : string → M unit :=
  λ nodeId, do node <- get_prop root nodeId in run_rules rs node.

(** [JSON.parse] of [j] extends the store by a representation of [j]. *)
Definition parses (j : json) : Prop :=
  ∀ h, ∃ ext v, JSON_parse j h = (h ++ ext, v) ∧
                repr (h ++ ext) v j (length h) (length (h ++ ext)).

(** [JSON.stringify] reads every representation of [j] as [j]. *)
Definition reads (h : heap) (j : json) : Prop :=
  ∀ v a b fuel, repr h v j a b → (∀ l, v = VRef l → l < a + fuel) →
                stringify fuel h v = Some j.

(** The order of a list sorted with the comparator [by_descending key]. *)
Definition descending {A} (key : A → Z) : relation A :=
  λ a b, (key b ≤ key a)%Z.

(** [(a, b) => key(b) - key(a)] *)
Definition by_descending {A} (key : A → Z) (a b : A) : Z := (key b - key a)%Z.

(** ** Vocabulary of the further properties *)

(** [n'] is the node [n] up to what the inputs [image] and
    [filename_prefix] hold: the same properties, the same inputs, every
    other property and input with the same content, and an input that
    differs was truthy and holds a string now. *)
Definition rewritten (n n' : json) : Prop :=
  jkeys n' = jkeys n
  ∧ (∀ p, p ≠ "inputs" → jget n' p = jget n p)
  ∧ jkeys <$> jget n' "inputs" = jkeys <$> jget n "inputs"
  ∧ (∀ i, i ≠ "image" → i ≠ "filename_prefix" → jinput n' i = jinput n i)
  ∧ (∀ i, jinput n' i = jinput n i
          ∨ (∃ s, jinput n' i = Some (JStr s)) ∧ jtruthy (jinput n i) = true).

(** A template with a [null] node after an image input. *)
Definition null_node_template : json :=
  JObj [("1", JObj [("class_type", JStr "LoadImage");
                    ("inputs", JObj [("image", JStr "example.png")])]);
        ("2", JNull)].

(** A template with an image output node. *)
Definition save_image_template : json :=
  JObj [("9", JObj [("class_type", JStr "SaveImage");
                    ("inputs", JObj [("filename_prefix", JStr "ComfyUI");
                                     ("images", JArr [JStr "8"; JNum 0])])])].

(** The compute service, after the requests of [log], is healthy and
    accepts the job [J] submitted at time [now], answering the JSON
    document [result]. *)
Definition accepts (service : transport) (log : list request) (now : Z)
    (J result : json) : Prop :=
  ∃ rh rp,
    service log health_request = Resolved rh ∧ ok rh = true
    ∧ service (log ++ [health_request]) (prompt_request J now) = Resolved rp
    ∧ ok rp = true ∧ json_body rp = Some result ∧ result ≠ JNull.

(** A stubbed compute service that accepts every job. *)
Definition accepting_service : transport :=
  λ _ req,
    if bool_decide (req_method req = "GET")
    then Resolved (Response 200 "OK" "{}" (Some (JObj [])))
    else Resolved (Response 200 "OK" "{}"
                     (Some (JObj [("prompt_id", JStr "p-1"); ("number", JNum 3)]))).

(** A stubbed compute service that accepts a job with an answer that is no
    JSON text. *)
Definition garbled_service : transport :=
  λ _ req,
    if bool_decide (req_method req = "GET")
    then Resolved (Response 200 "OK" "{}" (Some (JObj [])))
    else Resolved (Response 200 "OK" "<html>" None).

(** The reply of [/save-frame] when [imageData] is missing, and when an
    exception is caught. *)
Definition missing_frame : reply :=
  Reply 400 (JObj [("error", JStr "Missing imageData")]).

Definition save_failed : reply :=
  Reply 500 (JObj [("error", JStr "Failed to save frame")]).

(** A mesh folder in which one model cannot be read. *)
Definition unreadable_model : fs_node :=
  Directory [("a.glb", Some (Stats 10 1000)); ("b.glb", None)].

(** * Proofs *)

(** *** Property lists *)

Lemma assoc_set_same {A} k (a : A) ps :
  assoc k ps = Some a → assoc_set k a ps = ps.
Proof.
  induction ps as [|[k' a'] ps IH]; simpl; [done|].
  case_decide; [by intros [= ->]|]. intros ?. by rewrite IH.
Qed.

Lemma assoc_set_keys {A} k (a : A) ps :
  is_Some (assoc k ps) → (assoc_set k a ps).*1 = ps.*1.
Proof.
  induction ps as [|[k' a'] ps IH]; simpl; [by intros [? [=]]|].
  case_decide; [done|]. intros ?. simpl. f_equal. by apply IH.
Qed.

Lemma assoc_set_get {A} k (a : A) ps : assoc k (assoc_set k a ps) = Some a.
Proof.
  induction ps as [|[k' a'] ps IH]; simpl.
  - by rewrite decide_True.
  - case_decide; simpl; [by rewrite decide_True|by rewrite decide_False].
Qed.

Lemma assoc_set_get_ne {A} k k' (a : A) ps :
  k ≠ k' → assoc k' (assoc_set k a ps) = assoc k' ps.
Proof.
  intros ?. induction ps as [|[k0 a0] ps IH]; simpl.
  - by rewrite decide_False.
  - case_decide; simpl; [subst; by rewrite !decide_False|].
    case_decide; [done|apply IH].
Qed.

Lemma assoc_in_keys {A} k (ps : list (string * A)) :
  k ∈ ps.*1 → is_Some (assoc k ps).
Proof.
  induction ps as [|[k' a'] ps IH]; simpl; [by intros ?%elem_of_nil|].
  intros [->|?]%elem_of_cons; case_decide; naive_solver.
Qed.

Lemma assoc_Some_in {A} k (a : A) ps : assoc k ps = Some a → (k, a) ∈ ps.
Proof.
  induction ps as [|[k' a'] ps IH]; simpl; [done|].
  case_decide; [intros [= ->]; subst; left|right; auto].
Qed.

Lemma index_keys_length n : length (index_keys n) = n.
Proof. unfold index_keys. by rewrite length_fmap, length_seq. Qed.

Lemma indexed_snd {A} (l : list A) : (indexed l).*2 = l.
Proof. unfold indexed. apply snd_zip. by rewrite index_keys_length. Qed.

Lemma indexed_fst {A} (l : list A) : (indexed l).*1 = index_keys (length l).
Proof. unfold indexed. apply fst_zip. by rewrite index_keys_length. Qed.

Lemma indexed_of_keys {A} (l : list A) (es : list (string * A)) :
  es.*1 = (indexed l).*1 → indexed es.*2 = es.
Proof.
  intros Hk. unfold indexed. rewrite length_fmap.
  assert (length es = length l) as ->.
  { rewrite <-(length_fmap fst es), Hk, indexed_fst. apply index_keys_length. }
  rewrite <-indexed_fst, <-Hk. apply zip_fst_snd.
Qed.

(** *** Chains *)

Section chain_facts.
Context (R : value → json → nat → nat → Prop).

Lemma chain_le ps kvs lo hi : chain R ps kvs lo hi → lo ≤ hi.
Proof. induction 1; lia. Qed.

Lemma chain_keys ps kvs lo hi : chain R ps kvs lo hi → ps.*1 = kvs.*1.
Proof. induction 1; [done|]. rewrite !fmap_cons. by f_equal. Qed.

Lemma chain_weaken ps kvs lo hi hi' :
  chain R ps kvs lo hi → hi ≤ hi' → chain R ps kvs lo hi'.
Proof.
  induction 1; intros ?.
  - constructor. lia.
  - econstructor; eauto.
Qed.

Lemma chain_impl (R' : value → json → nat → nat → Prop) ps kvs lo hi :
  chain R ps kvs lo hi →
  Forall (λ kv, ∀ v a b, lo ≤ a → b ≤ hi → R v kv.2 a b → R' v kv.2 a b) kvs →
  chain R' ps kvs lo hi.
Proof.
  induction 1 as [|k v j ps kvs lo mid hi ? ? Hc IH]; intros HF.
  - by constructor.
  - apply Forall_cons in HF as [Hj HF]. simpl in Hj.
    pose proof (chain_le _ _ _ _ Hc).
    econstructor; [done|apply Hj; [lia|lia|done]|].
    apply IH. eapply Forall_impl; [exact HF|].
    intros kv Hkv v' a b ? ?. apply Hkv; lia.
Qed.

Lemma chain_mono (R' : value → json → nat → nat → Prop) ps kvs lo hi :
  chain R ps kvs lo hi →
  (∀ v j a b, lo ≤ a → b ≤ hi → R v j a b → R' v j a b) →
  chain R' ps kvs lo hi.
Proof.
  intros Hc HR. eapply chain_impl; [done|].
  apply Forall_forall. intros kv _ v a b. apply HR.
Qed.

Lemma chain_values ps kvs lo hi :
  chain R ps kvs lo hi →
  Forall2 (λ v j, ∃ a b, lo ≤ a ∧ a ≤ b ∧ b ≤ hi ∧ R v j a b) ps.*2 kvs.*2.
Proof.
  induction 1 as [|k v j ps kvs lo mid hi ? ? Hc IH]; simpl; constructor.
  - pose proof (chain_le _ _ _ _ Hc). exists lo, mid. eauto with lia.
  - eapply Forall2_impl; [exact IH|]. simpl.
    intros v' j' (a & b & ? & ? & ? & ?). exists a, b. eauto with lia.
Qed.

(** Reading property [k] on both sides, and replacing what it holds. *)
Lemma chain_focus ps kvs lo hi k v :
  chain R ps kvs lo hi → assoc k ps = Some v →
  ∃ j a b, assoc k kvs = Some j ∧ lo ≤ a ∧ a ≤ b ∧ b ≤ hi ∧ R v j a b ∧
    ∀ (R' : value → json → nat → nat → Prop) v' j',
      (∀ v0 j0 a0 b0, lo ≤ a0 → b0 ≤ hi → b0 ≤ a ∨ b ≤ a0 →
                      R v0 j0 a0 b0 → R' v0 j0 a0 b0) →
      R' v' j' a b →
      chain R' (assoc_set k v' ps) (assoc_set k j' kvs) lo hi.
Proof.
  induction 1 as [|k0 v0 j0 ps kvs lo mid hi ? ? Hc IH]; simpl; [done|].
  pose proof (chain_le _ _ _ _ Hc).
  case_decide as Hk.
  - intros [= ->]. exists j0, lo, mid. repeat split; auto.
    intros R' v' j' Hframe HR'. econstructor; [done|exact HR'|].
    eapply chain_mono; [exact Hc|]. intros. apply Hframe; auto with lia.
  - intros Hv. destruct (IH Hv) as (j & a & b & Hj & ? & ? & ? & ? & Hupd).
    exists j, a, b. repeat split; auto with lia.
    intros R' v' j' Hframe HR'. econstructor; [done| |].
    + apply Hframe; auto with lia.
    + apply Hupd; [|done]. intros. apply Hframe; auto with lia.
Qed.

Lemma chain_assoc_None ps kvs lo hi k :
  chain R ps kvs lo hi → assoc k ps = None → assoc k kvs = None.
Proof.
  induction 1; simpl; [done|]. case_decide; [done|]. auto.
Qed.

Lemma chain_zip_prims (f : string → value) (g : string → json) ks cs lo :
  (∀ c, R (f c) (g c) lo lo) →
  length ks = length cs →
  chain R (zip ks (f <$> cs)) (zip ks (g <$> cs)) lo lo.
Proof.
  intros Hprim. revert cs. induction ks as [|k ks IH]; intros [|c cs] [=];
    simpl; [by constructor|].
  econstructor; [done|apply Hprim|]. by apply IH.
Qed.
End chain_facts.

(** *** Representation facts *)

Lemma json_entries_ind (P : json → Prop) :
  (∀ j, (is_container j → Forall (λ kv, P kv.2) (jentries j)) → P j) →
  ∀ j, P j.
Proof.
  intros H j. induction j as [| | | |js IH|kvs IH] using json_ind;
    apply H; try done.
  intros _. simpl. apply (Forall_fmap snd P). by rewrite indexed_snd.
Qed.

Lemma repr_le h v j lo hi : repr h v j lo hi → lo ≤ hi.
Proof.
  destruct 1 as [| | | |l c j lo hi _ _ ? Hc]; try done.
  apply chain_le in Hc. lia.
Qed.

Lemma repr_container h l c j lo hi :
  h !! l = Some c → repr h (VRef l) j lo hi →
  same_kind c j ∧ is_container j ∧ lo ≤ l ∧ l < hi ∧
  chain (repr h) (entries c) (jentries j) lo l.
Proof.
  intros Hl Hr. inversion Hr as [| | | |l' c' j' lo' hi' Hl' Hk ? Hc]; subst.
  rewrite Hl in Hl'. injection Hl' as <-.
  pose proof (chain_le _ _ _ _ _ Hc). repeat split; try done.
  by destruct c, j.
Qed.

Lemma repr_frame h h' j : ∀ v lo hi,
  repr h v j lo hi → (∀ l, lo ≤ l < hi → h' !! l = h !! l) →
  repr h' v j lo hi.
Proof.
  induction j as [j IH] using json_entries_ind. intros v lo hi Hr Hsame.
  destruct Hr as [| | | |l c j lo hi Hl Hk ? Hc]; try by constructor.
  pose proof (chain_le _ _ _ _ _ Hc).
  econstructor; [rewrite Hsame; [done|lia]|done|done|].
  eapply chain_impl; [done|].
  eapply Forall_impl; [apply IH; by destruct c, j|].
  intros kv Hkv v' a b ? ? Hr'. apply Hkv; [done|].
  intros; apply Hsame; lia.
Qed.

Lemma repr_truthy h v j lo hi : repr h v j lo hi → truthy v = jtruthy (Some j).
Proof. destruct 1 as [| | | |l c j]; try done. by destruct c, j. Qed.

Lemma repr_is_str h v j lo hi c :
  repr h v j lo hi →
  bool_decide (v = VStr c)
  = match j with JStr s => bool_decide (s = c) | _ => false end.
Proof.
  destruct 1 as [| | | s |l c' j ? ? ? Hk]; try done.
  - apply bool_decide_ext. naive_solver.
  - by destruct c', j.
Qed.

Lemma repr_entries h v j lo hi :
  repr h v j lo hi →
  ∃ mid, lo ≤ mid ∧ mid ≤ hi ∧
         chain (repr h) (own_entries h v) (jentries j) lo mid.
Proof.
  destruct 1 as [| | |s|l c j lo hi Hl Hk ? Hc]; simpl.
  1-3: exists lo; repeat split; try done; by constructor.
  - exists lo. repeat split; try done. unfold indexed.
    rewrite !length_fmap. apply chain_zip_prims.
    + intros c. by constructor.
    + apply index_keys_length.
  - rewrite Hl. simpl. exists l. pose proof (chain_le _ _ _ _ _ Hc).
    repeat split; try done; lia.
Qed.

Lemma jentries_jset j k x :
  is_container j → is_Some (assoc k (jentries j)) →
  jentries (jset j k x) = assoc_set k x (jentries j).
Proof.
  intros Hc Hk. destruct j as [| | | |js|kvs]; try done.
  simpl. apply (indexed_of_keys js). by apply assoc_set_keys.
Qed.

(** Reading property [k] of a represented value, and what the value
    represents once the part under [k] has been mutated in place. *)
Lemma repr_update h v j lo hi k vk :
  repr h v j lo hi → assoc k (own_entries h v) = Some vk →
  ∃ jk a b, jget j k = Some jk ∧ lo ≤ a ∧ a ≤ b ∧ b ≤ hi ∧ repr h vk jk a b ∧
    ∀ h' jk', (∀ l, ¬ (a ≤ l < b) → h' !! l = h !! l) →
              repr h' vk jk' a b → repr h' v (jset j k jk') lo hi.
Proof.
  intros Hr Hk.
  destruct Hr as [| | |s lo hi ?|l c j lo hi Hl Hkind ? Hc]; try done.
  - pose proof (repr_entries h _ _ lo hi (repr_str h s lo hi ltac:(done)))
      as (mid & ? & ? & Hc).
    destruct (chain_focus _ _ _ _ _ _ _ Hc Hk)
      as (jk & a & b & Hjk & ? & ? & ? & Hrk & _).
    exists jk, a, b. repeat split; try done; try lia.
    intros h' jk' _ _. by constructor.
  - simpl in Hk. rewrite Hl in Hk. simpl in Hk.
    pose proof (chain_le _ _ _ _ _ Hc).
    destruct (chain_focus _ _ _ _ _ _ _ Hc Hk)
      as (jk & a & b & Hjk & ? & ? & ? & Hrk & Hupd).
    exists jk, a, b. repeat split; try done; try lia.
    intros h' jk' Hsame Hrk'.
    econstructor; [rewrite Hsame; [done|lia]| |done|].
    + by destruct c, j.
    + rewrite jentries_jset; [|by destruct c, j|by rewrite Hjk].
      rewrite <-(assoc_set_same k vk (entries c)) by done.
      apply Hupd; [|done].
      intros v0 j0 a0 b0 ? ? ? Hr0. eapply repr_frame; [done|].
      intros l' ?. apply Hsame. lia.
Qed.

(** *** The blocks of the loop body on a represented node *)

Lemma unchanged_refl lo hi h : unchanged_outside lo hi h h.
Proof. by split. Qed.

Lemma unchanged_trans lo hi h1 h2 h3 :
  unchanged_outside lo hi h1 h2 → unchanged_outside lo hi h2 h3 →
  unchanged_outside lo hi h1 h3.
Proof.
  intros [? H12] [? H23]. split; [congruence|].
  intros l ?. by rewrite H23, H12.
Qed.

Lemma unchanged_weaken lo hi lo' hi' h h' :
  unchanged_outside lo hi h h' → lo' ≤ lo → hi ≤ hi' →
  unchanged_outside lo' hi' h h'.
Proof. intros [? H] ??. split; [done|]. intros l ?. apply H. lia. Qed.

Lemma mutates_same h lo hi v j : repr h v j lo hi → mutates h lo hi v j (Ret tt h).
Proof. intros. exists h. eauto using unchanged_refl. Qed.

Lemma get_prop_repr h v j lo hi k :
  repr h v j lo hi → j ≠ JNull →
  get_prop v k h = Ret (default VUndef (assoc k (own_entries h v))) h.
Proof. by destruct 1. Qed.

Lemma get_prop_null h v lo hi k :
  repr h v JNull lo hi → get_prop v k h = Throw (cannot_read k) h.
Proof.
  inversion 1 as [| | | |l c j' lo' hi' ? Hk]; subst; [done|]. by destruct c.
Qed.

Lemma class_is_repr h v j lo hi c :
  repr h v j lo hi → j ≠ JNull → class_is v c h = Ret (jclass_is j c) h.
Proof.
  intros Hr Hj. unfold class_is, bind. erewrite get_prop_repr by done.
  unfold ret. f_equal. unfold jclass_is, jget.
  destruct (repr_entries _ _ _ _ _ Hr) as (mid & ? & ? & Hc).
  destruct (assoc "class_type" (own_entries h v)) as [ct|] eqn:Hct.
  - destruct (chain_focus _ _ _ _ _ _ _ Hc Hct)
      as (jk & a & b & -> & ? & ? & ? & Hrk & _).
    simpl. by erewrite repr_is_str.
  - by erewrite chain_assoc_None.
Qed.

Lemma class_in_repr h v j lo hi cs :
  repr h v j lo hi → j ≠ JNull → class_in v cs h = Ret (jclass_in j cs) h.
Proof.
  intros Hr Hj. induction cs as [|c cs IH]; [done|].
  simpl. unfold bind. erewrite class_is_repr by done.
  by destruct (jclass_is j c).
Qed.

Lemma set_prop_prim v k a h :
  (∀ l ps, v = VRef l → h !! l ≠ Some (CObj ps)) → truthy v = true →
  set_prop v k a h = Ret tt h.
Proof.
  intros Hv ?. destruct v as [| | | | |l]; try done. simpl.
  destruct (h !! l) as [[ps|]|] eqn:Hl; try done. by destruct (Hv l ps).
Qed.

Lemma set_input_repr h v j lo hi k a :
  repr h v j lo hi → j ≠ JNull →
  mutates h lo hi v (jset_input j k a) (set_input v k a h).
Proof.
  intros Hr Hj. unfold set_input, jset_input, bind.
  erewrite get_prop_repr by done.
  destruct (assoc "inputs" (own_entries h v)) as [vi|] eqn:Hvi; simpl.
  2:{ destruct (repr_entries _ _ _ _ _ Hr) as (mid & ? & ? & Hc).
      unfold jget. erewrite chain_assoc_None by done. by apply mutates_same. }
  destruct (repr_update _ _ _ _ _ _ _ Hr Hvi)
    as (ji & a' & b' & -> & ? & ? & ? & Hri & Hupd).
  rewrite (repr_truthy _ _ _ _ _ Hri).
  destruct (jtruthy (Some ji)) eqn:Htr.
  2:{ destruct ji; try done; by apply mutates_same. }
  assert (ji ≠ JNull) as Hji by (by intros ->).
  erewrite get_prop_repr by done.
  destruct (repr_entries _ _ _ _ _ Hri) as (mid & ? & ? & Hci).
  destruct (assoc k (own_entries h vi)) as [cur|] eqn:Hcur; simpl.
  2:{ assert (jtruthy (assoc k (jentries ji)) = false) as Hno
        by (by erewrite chain_assoc_None).
      destruct ji; simpl in Hno; try rewrite Hno; by apply mutates_same. }
  destruct (chain_focus _ _ _ _ _ _ _ Hci Hcur)
    as (jc & a2 & b2 & Hjc & ? & ? & ? & Hrc & _).
  rewrite (repr_truthy _ _ _ _ _ Hrc).
  destruct (jtruthy (Some jc)) eqn:Htc.
  2:{ destruct ji; simpl in Hjc; try rewrite Hjc, Htc; by apply mutates_same. }
  erewrite get_prop_repr by done. rewrite Hvi. simpl.
  destruct Hri as [| | | |li c ji a' b' Hli Hkind ? Hc].
  1-4: first [by destruct Hji|by apply mutates_same].
  destruct c as [ips|es], ji as [| | | |js|ikvs]; try done; simpl.
  2:{ rewrite Hli. by apply mutates_same. }
  rewrite Hli. simpl in Hcur, Hjc, Hc. rewrite Hli in Hcur. simpl in Hcur.
  rewrite Hjc, Htc.
  pose proof (chain_le _ _ _ _ _ Hc).
  set (h' := <[li := CObj (assoc_set k (VStr a) ips)]> h).
  assert (∀ l, l ≠ li → h' !! l = h !! l) as Hne.
  { intros l ?. by apply list_lookup_insert_ne. }
  exists h'. split; [done|]. split.
  { split; [apply length_insert|]. intros l ?. apply Hne. lia. }
  apply Hupd.
  { intros l ?. apply Hne. lia. }
  destruct (chain_focus _ _ _ _ _ _ _ Hc Hcur)
    as (jc' & a3 & b3 & Hjc' & ? & ? & ? & Hrc' & Hupd').
  apply (repr_ref _ _ (CObj (assoc_set k (VStr a) ips))); [|done|done|].
  { apply list_lookup_insert_eq. by eapply lookup_lt_Some. }
  simpl. apply Hupd'; [|by constructor].
  intros v0 j0 a0 b0 ? ? _ Hr0. eapply repr_frame; [done|].
  intros l ?. apply Hne. lia.
Qed.

Lemma apply_rule_not_null j r :
  j ≠ JNull →
  apply_rule j r = Some (if jclass_in j (rule_classes r)
                         then jset_input j (rule_input r) (rule_content r)
                         else j).
Proof. unfold apply_rule. by destruct j, (rule_classes r). Qed.

Lemma run_rule_repr h v j lo hi r :
  repr h v j lo hi → agrees h lo hi v (apply_rule j r) (run_rule v r h).
Proof.
  intros Hr. unfold run_rule, update_block, bind.
  assert (j = JNull ∨ j ≠ JNull) as [->|Hj] by (destruct j; auto).
  - unfold apply_rule. destruct (rule_classes r) as [|c cs]; simpl.
    + by apply mutates_same.
    + unfold bind, class_is, bind. erewrite get_prop_null by done.
      exists h. eauto using unchanged_refl.
  - rewrite apply_rule_not_null by done. erewrite class_in_repr by done.
    destruct (jclass_in j (rule_classes r));
      [by apply set_input_repr|by apply mutates_same].
Qed.

Lemma patch_node_None rs : foldl (λ o r, o ≫= λ n, apply_rule n r) None rs = None.
Proof. by induction rs. Qed.

Lemma agrees_after h h1 lo hi v r o :
  unchanged_outside lo hi h h1 → agrees h1 lo hi v r o → agrees h lo hi v r o.
Proof.
  intros Hu. destruct r; simpl.
  - intros (h2 & -> & Hu2 & Hr2). exists h2. eauto using unchanged_trans.
  - intros (h2 & -> & Hu2). exists h2. eauto using unchanged_trans.
Qed.

Lemma run_rules_repr rs : ∀ h v j lo hi,
  repr h v j lo hi → agrees h lo hi v (patch_node rs j) (run_rules rs v h).
Proof.
  unfold patch_node, run_rules.
  induction rs as [|r rs IH]; intros h v j lo hi Hr; simpl.
  { by apply mutates_same. }
  pose proof (run_rule_repr _ _ _ _ _ r Hr) as H1. unfold bind.
  destruct (apply_rule j r) as [j1|]; simpl in H1.
  - destruct H1 as (h1 & -> & Hu1 & Hr1).
    eapply agrees_after; [done|]. by apply IH.
  - rewrite patch_node_None. destruct H1 as (h1 & -> & Hu1).
    by exists h1.
Qed.

(** *** The loop over the nodes *)

Lemma patch_step_None rs ks : foldl (patch_step rs) None ks = None.
Proof. by induction ks. Qed.

Lemma jset_keys T k x :
  is_Some (jget T k) → (jentries (jset T k x)).*1 = (jentries T).*1.
Proof.
  intros Hk. destruct T as [| | |s|js|kvs]; try done.
  - rewrite jentries_jset by done. by apply assoc_set_keys.
  - simpl. by apply assoc_set_keys.
Qed.

Lemma loop_repr rs root : ∀ ks h T lo hi,
  repr h root T lo hi → ks ⊆ (jentries T).*1 →
  agrees h lo hi root (foldl (patch_step rs) (Some T) ks)
         (for_each ks (loop_body rs root) h).
Proof.
  induction ks as [|k ks IH]; intros h T lo hi Hr Hks; simpl.
  { by apply mutates_same. }
  assert (k ∈ (jentries T).*1) as Hk by (apply Hks; left).
  assert (T ≠ JNull) as HT by (intros ->; by apply elem_of_nil in Hk).
  destruct (repr_entries _ _ _ _ _ Hr) as (mid & ? & ? & Hc).
  rewrite <-(chain_keys _ _ _ _ _ Hc) in Hk.
  apply assoc_in_keys in Hk as [vn Hvn].
  destruct (repr_update _ _ _ _ _ _ _ Hr Hvn)
    as (jn & a & b & Hjn & ? & ? & ? & Hrn & Hupd).
  unfold bind at 1. unfold loop_body at 1. unfold bind at 1.
  erewrite get_prop_repr by done. rewrite Hvn. simpl. rewrite Hjn. simpl.
  pose proof (run_rules_repr rs _ _ _ _ _ Hrn) as Hn.
  destruct (patch_node rs jn) as [jn'|]; simpl in *.
  - destruct Hn as (h1 & -> & Hu1 & Hr1).
    assert (repr h1 root (jset T k jn') lo hi) as HrT.
    { apply Hupd; [|done]. apply Hu1. }
    assert (ks ⊆ (jentries (jset T k jn')).*1) as Hks'.
    { rewrite jset_keys by (by rewrite Hjn). intros k' ?. apply Hks. by right. }
    apply (unchanged_weaken _ _ lo hi) in Hu1; [|done..].
    eapply agrees_after; [done|]. by apply IH.
  - rewrite patch_step_None. destruct Hn as (h1 & -> & Hu1).
    exists h1. split; [done|]. by apply (unchanged_weaken a b).
Qed.

(** *** [JSON.parse] builds a representation, [JSON.stringify] reads it *)

Lemma JSON_parse_arr js h :
  JSON_parse (JArr js) h
  = let '(h', vs) := parse_elems js h in (h' ++ [CArr vs], VRef (length h')).
Proof. reflexivity. Qed.

Lemma JSON_parse_obj kvs h :
  JSON_parse (JObj kvs) h
  = let '(h', ps) := parse_props kvs h in (h' ++ [CObj ps], VRef (length h')).
Proof. reflexivity. Qed.

Lemma repr_extend h ext v j lo hi :
  repr h v j lo hi → hi ≤ length h → repr (h ++ ext) v j lo hi.
Proof.
  intros Hr ?. eapply repr_frame; [done|].
  intros l ?. apply lookup_app_l. lia.
Qed.

Lemma parse_props_chain kvs :
  Forall (λ kv, parses kv.2) kvs →
  ∀ h, ∃ ext ps, parse_props kvs h = (h ++ ext, ps) ∧
         chain (repr (h ++ ext)) ps kvs (length h) (length (h ++ ext)).
Proof.
  induction 1 as [|[k j] kvs Hj _ IH]; intros h; simpl.
  { exists [], []. rewrite app_nil_r. split; [done|]. by constructor. }
  simpl in Hj. destruct (Hj h) as (ext1 & v & -> & Hr).
  destruct (IH (h ++ ext1)) as (ext2 & ps & -> & Hc).
  exists (ext1 ++ ext2), ((k, v) :: ps). rewrite app_assoc. split; [done|].
  econstructor; [|by apply repr_extend|done]. rewrite length_app. lia.
Qed.

Lemma parse_elems_chain js :
  Forall parses js →
  ∀ h ks, length ks = length js →
    ∃ ext vs, parse_elems js h = (h ++ ext, vs) ∧ length vs = length js ∧
      chain (repr (h ++ ext)) (zip ks vs) (zip ks js)
            (length h) (length (h ++ ext)).
Proof.
  induction 1 as [|j js Hj _ IH]; intros h ks Hlen; simpl.
  { exists [], []. rewrite app_nil_r. destruct ks; [|done].
    repeat split. by constructor. }
  destruct ks as [|k ks]; [done|]. injection Hlen as Hlen.
  destruct (Hj h) as (ext1 & v & -> & Hr).
  destruct (IH (h ++ ext1) ks Hlen) as (ext2 & vs & -> & Hvs & Hc).
  exists (ext1 ++ ext2), (v :: vs). rewrite app_assoc. simpl.
  repeat split; [by f_equal|].
  econstructor; [|by apply repr_extend|done]. rewrite length_app. lia.
Qed.

Lemma JSON_parse_repr j : parses j.
Proof.
  induction j as [| | | |js IH|kvs IH] using json_ind; intros h.
  1-4: eexists [], _; rewrite app_nil_r; split; [done|by constructor].
  - rewrite JSON_parse_arr.
    destruct (parse_elems_chain js IH h (index_keys (length js)))
      as (ext & vs & -> & Hlen & Hc); [apply index_keys_length|].
    exists (ext ++ [CArr vs]), (VRef (length (h ++ ext))).
    rewrite app_assoc. split; [done|].
    apply (repr_ref _ _ (CArr vs)); [|done| |].
    + by apply list_lookup_middle.
    + rewrite (length_app (h ++ ext)). simpl. lia.
    + simpl. unfold indexed. rewrite Hlen.
      eapply chain_mono; [done|]. intros. by apply repr_extend.
  - rewrite JSON_parse_obj.
    destruct (parse_props_chain kvs IH h) as (ext & ps & -> & Hc).
    exists (ext ++ [CObj ps]), (VRef (length (h ++ ext))).
    rewrite app_assoc. split; [done|].
    apply (repr_ref _ _ (CObj ps)); [|done| |].
    + by apply list_lookup_middle.
    + rewrite (length_app (h ++ ext)). simpl. lia.
    + simpl. eapply chain_mono; [done|]. intros. by apply repr_extend.
Qed.

Lemma repr_not_undef h v j lo hi : repr h v j lo hi → v ≠ VUndef.
Proof. by destruct 1. Qed.

Lemma chain_stringify h ps kvs lo hi :
  chain (repr h) ps kvs lo hi → Forall (λ kv, reads h kv.2) kvs →
  ∀ f, hi ≤ lo + f →
    mapM (λ kv, pair kv.1 <$> stringify f h kv.2)
         (filter (λ kv, kv.2 ≠ VUndef) ps) = Some kvs
    ∧ mapM (λ v, match v with
                 | VUndef => Some JNull
                 | _ => stringify f h v
                 end) ps.*2 = Some kvs.*2.
Proof.
  induction 1 as [|k v j ps kvs lo mid hi ? Hr Hc IH]; intros HF f Hf; [done|].
  apply Forall_cons in HF as [Hj HF]. simpl in Hj.
  pose proof (chain_le _ _ _ _ _ Hc).
  destruct (IH HF f) as [IH1 IH2]; [lia|].
  assert (stringify f h v = Some j) as Hv.
  { apply (Hj v lo mid); [done|]. intros l ->.
    inversion Hr; subst. lia. }
  pose proof (repr_not_undef _ _ _ _ _ Hr).
  rewrite filter_cons_True by done. rewrite !fmap_cons. simpl.
  rewrite Hv, IH1. simpl. split; [done|].
  destruct v; try done; simpl in *; by rewrite ?Hv, IH2.
Qed.

Lemma repr_reads h j : reads h j.
Proof.
  induction j as [j IH] using json_entries_ind. intros v lo hi fuel Hr Hfuel.
  destruct Hr as [| | | |l c j lo hi Hl Hk ? Hc]; try by destruct fuel.
  pose proof (chain_le _ _ _ _ _ Hc).
  specialize (Hfuel l eq_refl).
  destruct fuel as [|f]; [lia|]. simpl. rewrite Hl.
  destruct (chain_stringify _ _ _ _ _ Hc) with (f := f) as [H1 H2];
    [apply IH; by destruct c, j|lia|].
  destruct c as [ps|es], j as [| | | |js|kvs]; try done; simpl in *.
  - by rewrite H1.
  - rewrite !indexed_snd in H2. by rewrite H2.
Qed.

Lemma repr_JSON_stringify h v j lo hi :
  repr h v j lo hi → JSON_stringify h v = Some j.
Proof.
  intros Hr. eapply repr_reads; [done|]. intros l ->.
  inversion Hr; subst. apply lookup_lt_Some in H0. lia.
Qed.

(** *** The whole function *)

Lemma for_each_ext {A} (f g : A → M unit) xs :
  (∀ x h, f x h = g x h) → ∀ h, for_each xs f h = for_each xs g h.
Proof.
  intros Hfg. induction xs as [|x xs IH]; intros h; simpl; [done|].
  unfold bind. rewrite Hfg. destruct (g x h); auto.
Qed.

Lemma update_workflow_ext f g workflow h :
  (∀ node h, f node h = g node h) →
  update_workflow f workflow h = update_workflow g workflow h.
Proof.
  intros Hfg. unfold update_workflow, bind.
  destruct (JSON_clone workflow h) as [v h1|]; [|done].
  unfold for_in. erewrite for_each_ext; [done|].
  intros k h2. simpl. destruct (get_prop v k h2); auto.
Qed.

Lemma bind_ret_tt (m : M unit) h : (run m in ret tt) h = m h.
Proof. unfold bind. by destruct (m h) as [[] ?|]. Qed.

Lemma App_rewrite_node_rules imageName node h :
  App.rewrite_node imageName node h = run_rules (App.rules imageName) node h.
Proof.
  unfold App.rewrite_node, run_rules, App.rules, for_each, run_rule, bind.
  simpl. repeat (destruct (update_block _ _ _ _ _) as [[] ?|]; try done).
Qed.

Lemma Server_rewrite_node_rules imageName node h :
  Server.rewrite_node imageName node h
  = run_rules (Server.rules imageName) node h.
Proof.
  unfold Server.rewrite_node, run_rules, Server.rules, for_each, run_rule, bind.
  simpl. repeat (destruct (update_block _ _ _ _ _) as [[] ?|]; try done).
Qed.

Lemma prefix_of_lookup (h h' : heap) :
  (∀ l, l < length h → h' !! l = h !! l) → h `prefix_of` h'.
Proof.
  intros Hl. exists (drop (length h) h'). apply list_eq. intros i.
  destruct (decide (i < length h)).
  - rewrite lookup_app_l by done. auto.
  - rewrite lookup_app_r, lookup_drop by lia. f_equal. lia.
Qed.

(** One call on a template that [JSON.stringify] reads as [T]: the store is
    extended by the clone, no existing object is written, and the returned
    value represents [patched rs T]; or [TypeError] is thrown where [patch]
    is undefined. *)
Lemma update_workflow_repr rs workflow h T :
  JSON_stringify h workflow = Some T →
  ∃ h', h `prefix_of` h' ∧
    match patched rs T with
    | Some J => ∃ v, update_workflow (run_rules rs) workflow h = Ret v h' ∧
                     repr h' v J (length h) (length h')
    | None => update_workflow (run_rules rs) workflow h
              = Throw (cannot_read "class_type") h'
    end.
Proof.
  intros HT. unfold update_workflow, bind, JSON_clone. rewrite HT.
  destruct (JSON_parse_repr T h) as (ext & v & -> & Hr).
  destruct (repr_entries _ _ _ _ _ Hr) as (mid & ? & ? & Hc).
  pose proof (loop_repr rs v (own_entries (h ++ ext) v).*1 _ _ _ _ Hr) as Hloop.
  rewrite (chain_keys _ _ _ _ _ Hc) in Hloop. specialize (Hloop ltac:(done)).
  unfold for_in. rewrite (chain_keys _ _ _ _ _ Hc).
  fold (patched rs T) in Hloop.
  change (for_each ?ks _ ?h0) with (for_each ks (loop_body rs v) h0).
  assert (∀ h', unchanged_outside (length h) (length (h ++ ext)) (h ++ ext) h' →
                h `prefix_of` h' ∧ length h' = length (h ++ ext)) as Hpre.
  { intros h' [Hlen Hsame]. split; [|done]. apply prefix_of_lookup.
    intros l ?. rewrite Hsame by lia. by apply lookup_app_l. }
  destruct (patched rs T) as [J|]; simpl in Hloop.
  - destruct Hloop as (h' & -> & Hu & Hr'). destruct (Hpre _ Hu) as [? Hlen].
    exists h'. split; [done|]. exists v. split; [done|]. by rewrite Hlen.
  - destruct Hloop as (h' & -> & Hu). destruct (Hpre _ Hu) as [? Hlen].
    by exists h'.
Qed.

Lemma update_workflow_cyclic f workflow h :
  JSON_stringify h workflow = None →
  ∃ e, update_workflow f workflow h = Throw e h.
Proof.
  intros HT. unfold update_workflow, bind, JSON_clone. rewrite HT. eauto.
Qed.

Lemma observe_patched rs T : observe (update_workflow (run_rules rs)) T = patched rs T.
Proof.
  unfold observe. destruct (JSON_parse_repr T []) as (ext & v & Hp & Hr).
  rewrite Hp. simpl in *.
  destruct (update_workflow_repr rs v ext T) as (h' & _ & Hrun).
  { by eapply repr_JSON_stringify. }
  destruct (patched rs T) as [J|].
  - destruct Hrun as (v' & -> & Hr'). by eapply repr_JSON_stringify.
  - by rewrite Hrun.
Qed.

(** *** What [patch] does to one node *)

Lemma assoc_indexed_fmap {A B} (f : A → B) (l : list A) k x :
  assoc k (indexed (f <$> l)) = Some x → ∃ a, x = f a.
Proof.
  intros Hx%assoc_Some_in. unfold indexed in Hx.
  apply elem_of_zip_r in Hx. simpl in Hx.
  apply list_elem_of_fmap in Hx as (a & -> & _). eauto.
Qed.

Lemma jget_str s k x : jget (JStr s) k = Some x → ∃ c, x = JStr c.
Proof. apply assoc_indexed_fmap. Qed.

Lemma jget_not_null j k x : jget j k = Some x → j ≠ JNull.
Proof. by intros ? ->. Qed.

Lemma jget_jset_ne T k k' x :
  is_Some (jget T k) → k ≠ k' → jget (jset T k x) k' = jget T k'.
Proof.
  intros Hk ?. destruct T as [| | |s|js|kvs]; try done; unfold jget.
  - rewrite jentries_jset by done. by apply assoc_set_get_ne.
  - simpl. by apply assoc_set_get_ne.
Qed.

Lemma jget_jset_eq T k x :
  is_container T → is_Some (jget T k) → jget (jset T k x) k = Some x.
Proof.
  intros. unfold jget. rewrite jentries_jset by done. apply assoc_set_get.
Qed.

Lemma jset_input_str s k a : jset_input (JStr s) k a = JStr s.
Proof.
  unfold jset_input. destruct (jget (JStr s) "inputs") as [i|] eqn:Hi; [|done].
  by apply jget_str in Hi as [c ->].
Qed.

Lemma apply_rule_str s r : apply_rule (JStr s) r = Some (JStr s).
Proof.
  unfold apply_rule. rewrite jset_input_str.
  by destruct (jclass_in _ _), (rule_classes r).
Qed.

Lemma patch_node_cons rs r node :
  patch_node (r :: rs) node = apply_rule node r ≫= patch_node rs.
Proof.
  unfold patch_node. simpl.
  destruct (apply_rule node r); [done|apply patch_node_None].
Qed.

Lemma patch_node_str rs s : patch_node rs (JStr s) = Some (JStr s).
Proof.
  induction rs as [|r rs IH]; [done|].
  by rewrite patch_node_cons, apply_rule_str.
Qed.

Lemma jset_input_falsy node k a :
  jtruthy (jinput node k) = false → jset_input node k a = node.
Proof.
  unfold jinput, jset_input.
  destruct (jget node "inputs") as [[| | | | |ikvs]|]; try done.
  unfold jget. simpl. by intros ->.
Qed.

Lemma jset_input_class node k a :
  jget (jset_input node k a) "class_type" = jget node "class_type".
Proof.
  unfold jset_input.
  destruct (jget node "inputs") as [[| | | | |ikvs]|] eqn:Hi; try done.
  destruct (jtruthy _); [|done]. apply jget_jset_ne; [by rewrite Hi|done].
Qed.

Lemma jset_input_truthy node k a ikvs :
  jget node "inputs" = Some (JObj ikvs) → jtruthy (assoc k ikvs) = true →
  jinput (jset_input node k a) k = Some (JStr a).
Proof.
  intros Hi Hk. unfold jset_input, jinput. rewrite Hi, Hk.
  rewrite jget_jset_eq; [apply assoc_set_get| |by rewrite Hi].
  destruct node as [| | |s| |]; try done. by apply jget_str in Hi as [c ?].
Qed.

(** No block matches the class of the node: nothing is rewritten. *)
Lemma patch_node_unmatched rs node node' :
  (∀ r, r ∈ rs → jclass_in node (rule_classes r) = false) →
  patch_node rs node = Some node' → node' = node.
Proof.
  induction rs as [|r rs IH]; intros Hrs; [by intros [= <-]|].
  rewrite patch_node_cons. unfold apply_rule.
  rewrite (Hrs r) by left.
  assert (∀ r', r' ∈ rs → jclass_in node (rule_classes r') = false)
    by (intros; apply Hrs; by right).
  destruct node, (rule_classes r); simpl; auto; done.
Qed.

(** The input of every matching block is falsy: nothing is rewritten. *)
Lemma patch_node_falsy rs node :
  node ≠ JNull →
  (∀ r, r ∈ rs → jclass_in node (rule_classes r) = true →
        jtruthy (jinput node (rule_input r)) = false) →
  patch_node rs node = Some node.
Proof.
  intros Hnode. induction rs as [|r rs IH]; intros Hrs; [done|].
  rewrite patch_node_cons, apply_rule_not_null by done.
  assert ((if jclass_in node (rule_classes r)
           then jset_input node (rule_input r) (rule_content r) else node)
          = node) as ->.
  { destruct (jclass_in _ _) eqn:Hc; [|done].
    apply jset_input_falsy, Hrs; [left|done]. }
  simpl. apply IH. intros; apply Hrs; [by right|done].
Qed.

Lemma jclass_in_class node c cs :
  jget node "class_type" = Some (JStr c) →
  jclass_in node cs = bool_decide (c ∈ cs).
Proof.
  intros Hc. unfold jclass_in, jclass_is. rewrite Hc.
  induction cs as [|c' cs IH]; simpl; [done|]. rewrite IH.
  apply eq_true_iff_eq. rewrite orb_true_iff, !bool_decide_eq_true.
  rewrite elem_of_cons. naive_solver.
Qed.

(** A node of class [c] goes through the blocks that list [c]. *)
Lemma patch_node_class rs : ∀ node c,
  jget node "class_type" = Some (JStr c) →
  patch_node rs node
  = Some (foldl (λ n r, if bool_decide (c ∈ rule_classes r)
                        then jset_input n (rule_input r) (rule_content r)
                        else n) node rs).
Proof.
  induction rs as [|r rs IH]; intros node c Hc; [done|].
  rewrite patch_node_cons, apply_rule_not_null by (by eapply jget_not_null).
  rewrite (jclass_in_class _ c) by done. simpl.
  apply IH. destruct (bool_decide _); [|done]. by rewrite jset_input_class.
Qed.

(** *** What [patch] does to a template *)

Local Arguments patch_step : simpl never.

Lemma patch_step_Some rs T k T' :
  patch_step rs (Some T) k = Some T' →
  ∃ node node', jget T k = Some node ∧ patch_node rs node = Some node' ∧
    jget T' k = Some node' ∧ (∀ k', k ≠ k' → jget T' k' = jget T k') ∧
    (jentries T').*1 = (jentries T).*1.
Proof.
  unfold patch_step. simpl.
  destruct (jget T k) as [node|] eqn:Hk; [|done]. simpl.
  destruct (patch_node rs node) as [node'|] eqn:Hn; [|done]. simpl.
  intros [= <-]. exists node, node'. repeat split; try done.
  - destruct T as [| | |s|js|kvs]; try done.
    + apply jget_str in Hk as Hs. destruct Hs as [c ->].
      rewrite patch_node_str in Hn. by injection Hn as <-.
    + apply jget_jset_eq; [done|by rewrite Hk].
    + apply jget_jset_eq; [done|by rewrite Hk].
  - intros k' ?. apply jget_jset_ne; [by rewrite Hk|done].
  - apply jset_keys. by rewrite Hk.
Qed.

Lemma patch_fold_keys rs ks : ∀ T J,
  foldl (patch_step rs) (Some T) ks = Some J →
  (jentries J).*1 = (jentries T).*1.
Proof.
  induction ks as [|k ks IH]; intros T J; simpl; [by intros [= ->]|].
  destruct (patch_step rs (Some T) k) as [T1|] eqn:Hstep.
  - intros HJ. apply patch_step_Some in Hstep as (? & ? & _ & _ & _ & _ & <-).
    by apply IH.
  - by rewrite patch_step_None.
Qed.

(** A property [Q] of a node that each visit keeps, and a property [P] that
    each visit establishes, hold of the node in the patched template. *)
Lemma patch_fold rs (Q P : json → Prop) :
  (∀ n n', Q n → patch_node rs n = Some n' → Q n' ∧ P n') →
  ∀ ks T J k node,
    foldl (patch_step rs) (Some T) ks = Some J →
    jget T k = Some node → Q node → k ∈ ks ∨ P node →
    ∃ node', jget J k = Some node' ∧ Q node' ∧ P node'.
Proof.
  intros Hvisit. induction ks as [|k0 ks IH]; intros T J k node; simpl.
  { intros [= <-] ? ? [?%elem_of_nil|?]; [done|]. eauto. }
  destruct (patch_step rs (Some T) k0) as [T1|] eqn:Hstep;
    [|by rewrite patch_step_None].
  intros HJ Hk HQ HP.
  apply patch_step_Some in Hstep
    as (node0 & node0' & Hk0 & Hn0 & Hk0' & Hother & _).
  destruct (decide (k0 = k)) as [->|Hne].
  - rewrite Hk in Hk0. injection Hk0 as <-.
    destruct (Hvisit _ _ HQ Hn0). eapply IH; eauto.
  - eapply IH; eauto.
    + by rewrite Hother.
    + destruct HP as [[?|?]%elem_of_cons|?]; [congruence|auto..].
Qed.

Lemma patch_node_at rs (Q P : json → Prop) T J k node :
  (∀ n n', Q n → patch_node rs n = Some n' → Q n' ∧ P n') →
  patched rs T = Some J → jget T k = Some node → Q node →
  ∃ node', jget J k = Some node' ∧ Q node' ∧ P node'.
Proof.
  intros Hvisit HJ Hk HQ. eapply patch_fold; eauto. left.
  apply assoc_Some_in in Hk. apply list_elem_of_fmap. by exists (k, node).
Qed.

Lemma patch_keys rs T J : patched rs T = Some J → (jentries J).*1 = (jentries T).*1.
Proof. apply patch_fold_keys. Qed.

(** [patch] is defined on a template whose nodes all satisfy a property
    [Q] that makes a visit succeed and that a visit keeps. *)
Lemma patch_fold_total rs (Q : json → Prop) :
  (∀ n, Q n → ∃ n', patch_node rs n = Some n' ∧ Q n') →
  ∀ ks T,
    ks ⊆ (jentries T).*1 → (∀ k node, jget T k = Some node → Q node) →
    is_Some (foldl (patch_step rs) (Some T) ks).
Proof.
  intros Hvisit. induction ks as [|k ks IH]; intros T Hks Hall; simpl; [done|].
  destruct (assoc_in_keys k (jentries T)) as [node Hk]; [apply Hks; left|].
  change (jget T k = Some node) in Hk.
  destruct (Hvisit node) as (node' & Hn & HQ'); [by eapply Hall|].
  assert (patch_step rs (Some T) k = Some (jset T k node')) as Hstep.
  { unfold patch_step. simpl. rewrite Hk. simpl. by rewrite Hn. }
  rewrite Hstep. apply patch_step_Some in Hstep
    as (n0 & n0' & Hk0 & Hn0 & Hk0' & Hother & Hkeys).
  apply IH.
  - rewrite Hkeys. intros ??. apply Hks. by right.
  - intros k' n1 Hk1. destruct (decide (k = k')) as [<-|?].
    + rewrite Hk0' in Hk1. injection Hk1 as <-.
      rewrite Hk0 in Hk. injection Hk as ->. congruence.
    + rewrite Hother in Hk1 by done. eauto.
Qed.

(** *** The two variants *)

Lemma App_updateWorkflowWithImage_rules workflow A h :
  App.updateWorkflowWithImage workflow A h
  = update_workflow (run_rules (App.rules A)) workflow h.
Proof. apply update_workflow_ext, App_rewrite_node_rules. Qed.

Lemma Server_updateWorkflowWithImage_rules workflow A h :
  Server.updateWorkflowWithImage workflow A h
  = update_workflow (run_rules (Server.rules A)) workflow h.
Proof. apply update_workflow_ext, Server_rewrite_node_rules. Qed.

Lemma App_patch_patched T A : App.patch T A = patched (App.rules A) T.
Proof.
  rewrite <-observe_patched. unfold App.patch, observe.
  destruct (JSON_parse T []). by rewrite App_updateWorkflowWithImage_rules.
Qed.

Lemma Server_patch_patched T A : Server.patch T A = patched (Server.rules A) T.
Proof.
  rewrite <-observe_patched. unfold Server.patch, observe.
  destruct (JSON_parse T []). by rewrite Server_updateWorkflowWithImage_rules.
Qed.

Lemma jclass_in_subseteq node cs cs' :
  cs ⊆ cs' → jclass_in node cs' = false → jclass_in node cs = false.
Proof.
  intros Hsub Hcs'. apply not_true_is_false. intros Hcs. unfold jclass_in in *.
  apply existsb_exists in Hcs as (c & Hc%list_elem_of_In & ?).
  assert (existsb (jclass_is node) cs' = true); [|congruence].
  apply existsb_exists. exists c. split; [|done]. by apply list_elem_of_In, Hsub.
Qed.

Lemma unrecognized_unchanged rs node node' :
  (∀ r, r ∈ rs → rule_classes r ⊆ recognized) →
  jclass_in node recognized = false →
  patch_node rs node = Some node' → node' = node.
Proof.
  intros Hrs Hnode. apply patch_node_unmatched.
  intros r ?. eapply jclass_in_subseteq; [by apply Hrs|done].
Qed.

Lemma App_rules_recognized A r : r ∈ App.rules A → rule_classes r ⊆ recognized.
Proof.
  unfold App.rules, recognized. intros Hr.
  repeat (apply elem_of_cons in Hr as [->|Hr]);
    try (by apply elem_of_nil in Hr); simpl; intros c Hc;
    repeat (apply elem_of_cons in Hc as [->|Hc]);
    try (by apply elem_of_nil in Hc); apply list_elem_of_In; simpl; tauto.
Qed.

Lemma Server_rules_recognized A r :
  r ∈ Server.rules A → rule_classes r ⊆ recognized.
Proof.
  unfold Server.rules, recognized. intros Hr.
  repeat (apply elem_of_cons in Hr as [->|Hr]);
    try (by apply elem_of_nil in Hr); simpl; intros c Hc;
    repeat (apply elem_of_cons in Hc as [->|Hc]);
    try (by apply elem_of_nil in Hc); apply list_elem_of_In; simpl; tauto.
Qed.

Lemma patched_frame rs T J :
  (∀ r, r ∈ rs → rule_classes r ⊆ recognized) →
  patched rs T = Some J →
  (jentries J).*1 = (jentries T).*1 ∧
  ∀ k node, jget T k = Some node → jclass_in node recognized = false →
            jget J k = Some node.
Proof.
  intros Hrs HJ. split; [by eapply patch_keys|]. intros k node Hk Hnode.
  destruct (patch_node_at rs (λ n, n = node) (λ _, True) T J k node)
    as (node' & Hk' & -> & _); try done.
  intros n n' -> Hn. split; [|done]. by eapply unrecognized_unchanged.
Qed.

Lemma patched_falsy rs T J k node c key :
  (∀ r, r ∈ rs → c ∈ rule_classes r → rule_input r = key) →
  patched rs T = Some J → jget T k = Some node →
  jget node "class_type" = Some (JStr c) →
  jtruthy (jinput node key) = false →
  jget J k = Some node.
Proof.
  intros Hrs HJ Hk Hc Hfalsy.
  destruct (patch_node_at rs (λ n, n = node) (λ _, True) T J k node)
    as (node' & Hk' & -> & _); try done.
  intros n n' -> Hn. split; [|done].
  rewrite patch_node_falsy in Hn; [congruence|by eapply jget_not_null|].
  intros r Hr Hin. rewrite (jclass_in_class _ c) in Hin by done.
  apply bool_decide_eq_true in Hin. by rewrite (Hrs r).
Qed.

Lemma jset_input_again node key content ikvs :
  jget node "inputs" = Some (JObj ikvs) →
  jtruthy (assoc key ikvs) = true ∨ assoc key ikvs = Some (JStr content) →
  ∃ ikvs', jget (jset_input node key content) "inputs" = Some (JObj ikvs') ∧
           assoc key ikvs' = Some (JStr content).
Proof.
  intros Hi Hk. unfold jset_input. rewrite Hi.
  destruct (jtruthy (assoc key ikvs)) eqn:Htr.
  - eexists. split; [|apply assoc_set_get].
    apply jget_jset_eq; [|by rewrite Hi].
    destruct node as [| | |s| |]; try done. by apply jget_str in Hi as [? ?].
  - destruct Hk; [done|]. eauto.
Qed.

(** A node of class [c] on which the blocks for [c] amount to rewriting
    [key], and whose input [key] is truthy, holds [content] there in the
    patched template. *)
Lemma patched_rewrites rs T J k node c key content ikvs :
  (∀ n, foldl (λ n r, if bool_decide (c ∈ rule_classes r)
                      then jset_input n (rule_input r) (rule_content r)
                      else n) n rs = jset_input n key content) →
  patched rs T = Some J → jget T k = Some node →
  jget node "class_type" = Some (JStr c) →
  jget node "inputs" = Some (JObj ikvs) → jtruthy (assoc key ikvs) = true →
  ∃ node', jget J k = Some node' ∧ jinput node' key = Some (JStr content).
Proof.
  intros Hrs HJ Hk Hc Hi Htr.
  set (Q := λ n, jget n "class_type" = Some (JStr c) ∧
                 ∃ ikvs', jget n "inputs" = Some (JObj ikvs') ∧
                   (jtruthy (assoc key ikvs') = true
                    ∨ assoc key ikvs' = Some (JStr content))).
  set (P := λ n, jinput n key = Some (JStr content)).
  destruct (patch_node_at rs Q P T J k node) as (node' & ? & _ & ?); eauto.
  2:{ split; eauto. }
  intros n n' [Hcn (ik & Hin & Hkn)] Hn.
  rewrite (patch_node_class rs n c), Hrs in Hn by done. injection Hn as <-.
  destruct (jset_input_again n key content ik Hin Hkn) as (ik' & Hi' & Hk').
  split; [split|].
  - by rewrite jset_input_class.
  - eauto.
  - unfold P, jinput. by rewrite Hi'.
Qed.

(** *** Calls on the shared store *)

Lemma update_workflow_prefix rs workflow h :
  h `prefix_of` final_state (update_workflow (run_rules rs) workflow h).
Proof.
  destruct (JSON_stringify h workflow) as [T|] eqn:HT.
  - destruct (update_workflow_repr rs _ _ _ HT) as (h' & ? & Hrun).
    destruct (patched rs T); [destruct Hrun as (v & -> & _)|rewrite Hrun]; done.
  - destruct (update_workflow_cyclic (run_rules rs) _ _ HT) as [e ->]. done.
Qed.

Lemma after_calls_prefix (f : string → M value) names :
  (∀ A h, h `prefix_of` final_state (f A h)) →
  ∀ h, h `prefix_of` after_calls f names h.
Proof.
  intros Hf. induction names as [|A names IH]; intros h; simpl; [done|].
  etrans; [apply Hf|apply IH].
Qed.

Lemma repr_prefix h h' v j lo hi :
  repr h v j lo hi → hi ≤ length h → h `prefix_of` h' → repr h' v j lo hi.
Proof. intros Hr ? [ext ->]. by apply repr_extend. Qed.

Lemma loaded_template_kept T h0 h' :
  (JSON_parse T h0).1 `prefix_of` h' →
  JSON_stringify h' (JSON_parse T h0).2 = Some T.
Proof.
  destruct (JSON_parse_repr T h0) as (ext & v & -> & Hr). simpl. intros Hpre.
  eapply repr_JSON_stringify, repr_prefix; eauto.
Qed.

Lemma calls_keep_template (rs : string → list rule) T h0
    (f : value → string → M value) names :
  (∀ workflow A h, f workflow A h
                   = update_workflow (run_rules (rs A)) workflow h) →
  let h := (JSON_parse T h0).1 in
  let workflowTemplate := (JSON_parse T h0).2 in
  let h' := after_calls (f workflowTemplate) names h in
  h `prefix_of` h' ∧ JSON_stringify h' workflowTemplate = Some T.
Proof.
  intros Hf h wf h'.
  assert (h `prefix_of` h') as Hpre.
  { apply after_calls_prefix. intros A h1. rewrite Hf.
    apply update_workflow_prefix. }
  split; [done|]. by apply loaded_template_kept.
Qed.

Lemma calls_deterministic rs T h0 :
  let h := (JSON_parse T h0).1 in
  let workflow := (JSON_parse T h0).2 in
  match update_workflow (run_rules rs) workflow h with
  | Ret v1 h1 =>
      ∃ v2 h2 J, update_workflow (run_rules rs) workflow h1 = Ret v2 h2 ∧
                 JSON_stringify h2 v1 = Some J ∧ JSON_stringify h2 v2 = Some J
  | Throw e h1 =>
      ∃ h2, update_workflow (run_rules rs) workflow h1 = Throw e h2
  end.
Proof.
  intros h wf.
  destruct (update_workflow_repr rs wf h T) as (h1 & Hpre1 & Hrun1).
  { by apply loaded_template_kept. }
  destruct (update_workflow_repr rs wf h1 T) as (h2 & Hpre2 & Hrun2).
  { by apply loaded_template_kept. }
  destruct (patched rs T) as [J|].
  - destruct Hrun1 as (v1 & -> & Hr1). destruct Hrun2 as (v2 & -> & Hr2).
    exists v2, h2, J. repeat split; eapply repr_JSON_stringify; [|done].
    by eapply repr_prefix.
  - rewrite Hrun1. eauto.
Qed.

(** ** The template patcher: properties *)



(** C4. For every template [T] and asset name [A], the patched job has the
    node identifiers of [T], and every node whose class type is none of
    [LoadImage], [LoadImageMask], [ImageInput], [SaveImage], [SaveGLB] is
    equal in it to the node of [T]; in both variants. *)
Theorem patch_only_recognized T A :
  (∀ J, App.patch T A = Some J →
        (jentries J).*1 = (jentries T).*1 ∧
        ∀ k node, jget T k = Some node → jclass_in node recognized = false →
                  jget J k = Some node)
  ∧ (∀ J, Server.patch T A = Some J →
        (jentries J).*1 = (jentries T).*1 ∧
        ∀ k node, jget T k = Some node → jclass_in node recognized = false →
                  jget J k = Some node).
Proof.
  split; intros J HJ.
  - rewrite App_patch_patched in HJ.
    eapply patched_frame; [apply App_rules_recognized|done].
  - rewrite Server_patch_patched in HJ.
    eapply patched_frame; [apply Server_rules_recognized|done].
Qed.

Lemma patch_only_recognized_witness :
  jget (JObj [("3", JObj [("class_type", JStr "LoadImage");
                          ("inputs", JObj [("image", JStr "new.jpg")])]);
              ("4", JObj [("class_type", JStr "KSampler");
                          ("inputs", JObj [("image", JStr "keep.png");
                                           ("seed", JNum 7)])])]) "4"
  = Some (JObj [("class_type", JStr "KSampler");
                ("inputs", JObj [("image", JStr "keep.png"); ("seed", JNum 7)])]).
Proof.
  apply (proj2 (proj1 (patch_only_recognized mixed_template "new.jpg") _
                  ltac:(by vm_compute)) "4"); by vm_compute.
Defined.

(** C10. A node of a recognized class type whose target input is falsy,
    the empty string in particular (also [0], [false], [null], an absent
    key or absent [inputs]), is the same node in the patched job; in both
    variants. *)
Theorem falsy_input_kept T A k node c key :
  jget T k = Some node →
  jget node "class_type" = Some (JStr c) → target_input c = Some key →
  jtruthy (jinput node key) = false →
  (∀ J, App.patch T A = Some J → jget J k = Some node)
  ∧ (∀ J, Server.patch T A = Some J → jget J k = Some node).
Proof.
  intros Hk Hc Hkey Hfalsy. split; intros J HJ.
  - rewrite App_patch_patched in HJ.
    eapply (patched_falsy (App.rules A)); eauto.
    intros r Hr Hin. unfold App.rules in Hr.
    repeat (apply elem_of_cons in Hr as [->|Hr]);
      try (by apply elem_of_nil in Hr); simpl in *;
      repeat (apply elem_of_cons in Hin as [->|Hin]);
      try (by apply elem_of_nil in Hin); by injection Hkey.
  - rewrite Server_patch_patched in HJ.
    eapply (patched_falsy (Server.rules A)); eauto.
    intros r Hr Hin. unfold Server.rules in Hr.
    repeat (apply elem_of_cons in Hr as [->|Hr]);
      try (by apply elem_of_nil in Hr); simpl in *;
      repeat (apply elem_of_cons in Hin as [->|Hin]);
      try (by apply elem_of_nil in Hin); by injection Hkey.
Qed.

Lemma falsy_input_kept_witness :
  jget (JObj [("5", JObj [("class_type", JStr "LoadImage");
                          ("inputs", JObj [("image", JStr "")])]);
              ("6", JObj [("class_type", JStr "SaveGLB");
                          ("inputs", JObj [("filename_prefix", JStr "mesh/webcam_3d_mesh")])])])
       "5"
  = Some (JObj [("class_type", JStr "LoadImage");
                ("inputs", JObj [("image", JStr "")])]).
Proof.
  apply (proj1 (falsy_input_kept empty_input_template "webcam_input.jpg" "5"
                  (JObj [("class_type", JStr "LoadImage");
                         ("inputs", JObj [("image", JStr "")])])
                  "LoadImage" "image"
                  ltac:(by vm_compute) ltac:(by vm_compute)
                  ltac:(by vm_compute) ltac:(by vm_compute))).
  by vm_compute.
Defined.

(** C5. After any number of calls, with any asset names, on a loaded
    template, the store is the store before the calls extended by new
    objects, and the template still reads as the document it was loaded
    from; in both variants.  No call on any store, whatever it is given,
    writes to an object that existed before it. *)
Theorem template_never_mutated :
  (∀ T h0 names,
     let h := (JSON_parse T h0).1 in
     let workflowTemplate := (JSON_parse T h0).2 in
     let h' := after_calls (App.updateWorkflowWithImage workflowTemplate) names h in
     h `prefix_of` h' ∧ JSON_stringify h' workflowTemplate = Some T)
  ∧ (∀ T h0 names,
     let h := (JSON_parse T h0).1 in
     let workflowTemplate := (JSON_parse T h0).2 in
     let h' := after_calls (Server.updateWorkflowWithImage workflowTemplate) names h in
     h `prefix_of` h' ∧ JSON_stringify h' workflowTemplate = Some T)
  ∧ (∀ workflow A h,
     h `prefix_of` final_state (App.updateWorkflowWithImage workflow A h)
     ∧ h `prefix_of` final_state (Server.updateWorkflowWithImage workflow A h)).
Proof.
  split; [|split].
  - intros T h0 names.
    apply (calls_keep_template App.rules T h0 App.updateWorkflowWithImage).
    apply App_updateWorkflowWithImage_rules.
  - intros T h0 names.
    apply (calls_keep_template Server.rules T h0 Server.updateWorkflowWithImage).
    apply Server_updateWorkflowWithImage_rules.
  - intros workflow A h.
    rewrite App_updateWorkflowWithImage_rules,
      Server_updateWorkflowWithImage_rules.
    split; apply update_workflow_prefix.
Qed.

(** C9. Two calls with the same template and asset name, one after the
    other on the same store, end the same way: both return, and the two
    returned objects read as the same document, or both throw the same
    exception; in both variants. *)
Theorem patch_deterministic T A h0 :
  let h := (JSON_parse T h0).1 in
  let workflow := (JSON_parse T h0).2 in
  match App.updateWorkflowWithImage workflow A h with
  | Ret v1 h1 =>
      ∃ v2 h2 J, App.updateWorkflowWithImage workflow A h1 = Ret v2 h2 ∧
                 JSON_stringify h2 v1 = Some J ∧ JSON_stringify h2 v2 = Some J
  | Throw e h1 =>
      ∃ h2, App.updateWorkflowWithImage workflow A h1 = Throw e h2
  end
  ∧
  match Server.updateWorkflowWithImage workflow A h with
  | Ret v1 h1 =>
      ∃ v2 h2 J, Server.updateWorkflowWithImage workflow A h1 = Ret v2 h2 ∧
                 JSON_stringify h2 v1 = Some J ∧ JSON_stringify h2 v2 = Some J
  | Throw e h1 =>
      ∃ h2, Server.updateWorkflowWithImage workflow A h1 = Throw e h2
  end.
Proof.
  intros h workflow. split.
  - pose proof (calls_deterministic (App.rules A) T h0) as H. simpl in H.
    rewrite App_updateWorkflowWithImage_rules.
    destruct (update_workflow _ _ _) as [v1 h1|e h1].
    + destruct H as (v2 & h2 & J & ? & ? & ?). exists v2, h2, J.
      by rewrite App_updateWorkflowWithImage_rules.
    + destruct H as [h2 ?]. exists h2.
      by rewrite App_updateWorkflowWithImage_rules.
  - pose proof (calls_deterministic (Server.rules A) T h0) as H. simpl in H.
    rewrite Server_updateWorkflowWithImage_rules.
    destruct (update_workflow _ _ _) as [v1 h1|e h1].
    + destruct H as (v2 & h2 & J & ? & ? & ?). exists v2, h2, J.
      by rewrite Server_updateWorkflowWithImage_rules.
    + destruct H as [h2 ?]. exists h2.
      by rewrite Server_updateWorkflowWithImage_rules.
Qed.

(** Every template whose nodes are all different from [null] is patched:
    the call returns. *)
Lemma patch_node_not_null rs node :
  node ≠ JNull → ∃ node', patch_node rs node = Some node' ∧ node' ≠ JNull.
Proof.
  revert node. induction rs as [|r rs IH]; intros node Hnode; [eauto|].
  rewrite patch_node_cons, apply_rule_not_null by done. simpl. apply IH.
  destruct (jclass_in _ _); [|done]. unfold jset_input.
  destruct (jget node "inputs") as [[| | | | |ikvs]|]; try done.
  destruct (jtruthy _); [|done]. by destruct node.
Qed.

Lemma patched_returns rs T :
  (∀ k node, jget T k = Some node → node ≠ JNull) → is_Some (patched rs T).
Proof.
  intros HT. apply (patch_fold_total rs (λ n, n ≠ JNull)); [|done|done].
  apply patch_node_not_null.
Qed.

(** ** The compute client: properties *)

Lemma posts_app log log' : posts (log ++ log') = posts log + posts log'.
Proof. unfold posts. by rewrite filter_app, length_app. Qed.

(** C2. When the health probe does not settle to a success status, because
    the status is not a success or because the transport fails, the dispatch
    returns a failure whose detail is that of the probe, the only request
    made is the probe (no submission is sent), and the store is as it was;
    in both variants. *)
Theorem health_gate service now workflow filename w :
  healthCheck service (calls w) = false →
  ∃ detailA detailS,
    App.queueComfyUIPrompt service now workflow filename w
    = Ret (Failed detailA) (Net (store w) (calls w ++ [health_request]))
    ∧ Server.queueComfyUIPrompt service now workflow filename w
      = Ret (Failed detailS) (Net (store w) (calls w ++ [health_request]))
    ∧ posts (calls w ++ [health_request]) = posts (calls w)
    ∧ (∀ r, service (calls w) health_request = Resolved r →
            detailA = "ComfyUI server not responding"
            ∧ detailS = "ComfyUI server returned status: " +:+ pretty (status r))
    ∧ (∀ e, service (calls w) health_request = Rejected e →
            detailA = message e ∧ detailS = message e).
Proof.
  unfold healthCheck. intros Hprobe.
  unfold App.queueComfyUIPrompt, Server.queueComfyUIPrompt, try_catch, bind, fetch.
  change (Request "GET" (App.COMFYUI_API_URL +:+ "/system_stats") None)
    with health_request.
  change (Request "GET" (Server.COMFYUI_API_URL +:+ "/system_stats") None)
    with health_request.
  assert (posts (calls w ++ [health_request]) = posts (calls w)) as Hposts.
  { rewrite posts_app. unfold posts. simpl. lia. }
  destruct (service (calls w) health_request) as [r|e] eqn:Hs.
  - rewrite Hprobe. simpl. eexists _, _.
    split; [reflexivity|]. split; [reflexivity|]. split; [done|].
    split; [by intros r' [= <-]|done].
  - simpl. eexists _, _.
    split; [reflexivity|]. split; [reflexivity|]. split; [done|].
    split; [done|by intros e' [= <-]].
Qed.

(** C2, the error kind.  The result of a dispatch carries no error kind: a
    dispatch whose health probe is refused and a dispatch whose probe
    succeeds and whose submission is refused with the same message return the
    same result, [{success: false, error}]; only the requests sent tell them
    apart.  In both variants. *)
Lemma error_kind_not_reported :
  healthCheck unreachable_service [] = false
  ∧ healthCheck post_refusing_service [] = true
  ∧ (∃ r wU wP,
       App.queueComfyUIPrompt unreachable_service 0
         (JSON_parse scenario_template []).2 "webcam_input.jpg"
         (Net (JSON_parse scenario_template []).1 []) = Ret r wU
       ∧ App.queueComfyUIPrompt post_refusing_service 0
           (JSON_parse scenario_template []).2 "webcam_input.jpg"
           (Net (JSON_parse scenario_template []).1 []) = Ret r wP
       ∧ r = Failed "connect ECONNREFUSED 127.0.0.1:8188"
       ∧ posts (calls wU) = 0 ∧ posts (calls wP) = 1)
  ∧ (∃ r wU wP,
       Server.queueComfyUIPrompt unreachable_service 0
         (JSON_parse scenario_template []).2 "webcam_input.jpg"
         (Net (JSON_parse scenario_template []).1 []) = Ret r wU
       ∧ Server.queueComfyUIPrompt post_refusing_service 0
           (JSON_parse scenario_template []).2 "webcam_input.jpg"
           (Net (JSON_parse scenario_template []).1 []) = Ret r wP
       ∧ r = Failed "connect ECONNREFUSED 127.0.0.1:8188"
       ∧ posts (calls wU) = 0 ∧ posts (calls wP) = 1).
Proof.
  split; [reflexivity|]. split; [reflexivity|].
  split; eexists _, _, _; repeat split; vm_compute; reflexivity.
Qed.

Lemma health_gate_witness :
  ∃ detailA detailS,
    App.queueComfyUIPrompt unreachable_service 0 VNull "webcam_input.jpg" (Net [] [])
    = Ret (Failed detailA) (Net [] [health_request])
    ∧ Server.queueComfyUIPrompt unreachable_service 0 VNull "webcam_input.jpg" (Net [] [])
      = Ret (Failed detailS) (Net [] [health_request])
    ∧ posts [health_request] = posts []
    ∧ (∀ r, unreachable_service [] health_request = Resolved r →
            detailA = "ComfyUI server not responding"
            ∧ detailS = "ComfyUI server returned status: " +:+ pretty (status r))
    ∧ (∀ e, unreachable_service [] health_request = Rejected e →
            detailA = message e ∧ detailS = message e).
Proof.
  apply (health_gate unreachable_service 0 VNull "webcam_input.jpg" (Net [] [])).
  reflexivity.
Defined.

(** What a rejected submission returns in each variant: [src/app.js]
    reports the status code and the status text, [src/unnamed/part_000] also
    the response body. *)
Lemma App_rejected_submission service now workflow filename w rh v h' J r :
  service (calls w) health_request = Resolved rh → ok rh = true →
  App.updateWorkflowWithImage workflow filename (store w) = Ret v h' →
  JSON_stringify h' v = Some J →
  service (calls w ++ [health_request]) (prompt_request J now) = Resolved r →
  ok r = false →
  App.queueComfyUIPrompt service now workflow filename w
  = Ret (Failed ("ComfyUI API error: " +:+ pretty (status r) +:+ " "
                 +:+ statusText r))
        (Net h' (calls w ++ [health_request; prompt_request J now])).
Proof.
  intros Hh Hok Hp HJ Hs Hr.
  unfold App.queueComfyUIPrompt, try_catch, bind, fetch, on_store, prompt_data.
  change (Request "GET" (App.COMFYUI_API_URL +:+ "/system_stats") None)
    with health_request.
  rewrite Hh, Hok. simpl. rewrite Hp. simpl. rewrite HJ. simpl.
  change (Request "POST" _ _) with (prompt_request J now).
  rewrite Hs, Hr. simpl. by rewrite <-app_assoc.
Qed.

Lemma Server_rejected_submission service now workflow filename w rh v h' J r :
  service (calls w) health_request = Resolved rh → ok rh = true →
  Server.updateWorkflowWithImage workflow filename (store w) = Ret v h' →
  JSON_stringify h' v = Some J →
  service (calls w ++ [health_request]) (prompt_request J now) = Resolved r →
  ok r = false →
  Server.queueComfyUIPrompt service now workflow filename w
  = Ret (Failed ("ComfyUI API error: " +:+ pretty (status r) +:+ " "
                 +:+ statusText r +:+ " - " +:+ text r))
        (Net h' (calls w ++ [health_request; prompt_request J now])).
Proof.
  intros Hh Hok Hp HJ Hs Hr.
  unfold Server.queueComfyUIPrompt, try_catch, bind, fetch, on_store, prompt_data.
  change (Request "GET" (Server.COMFYUI_API_URL +:+ "/system_stats") None)
    with health_request.
  rewrite Hh, Hok. simpl. rewrite Hp. simpl. rewrite HJ. simpl.
  change (Request "POST" _ _) with (prompt_request J now).
  rewrite Hs, Hr. simpl. by rewrite <-app_assoc.
Qed.

(** C3. With a compute service that answers 500 and body ["boom"] to the
    submission, [src/app.js] returns a failure whose detail names the status
    and the status text and not the response body; [src/unnamed/part_000]
    returns the same detail followed by the body. *)
Theorem rejected_submission_detail :
  let h := (JSON_parse scenario_template []).1 in
  let workflow := (JSON_parse scenario_template []).2 in
  (∃ w', App.queueComfyUIPrompt rejecting_service 0 workflow "webcam_input.jpg"
           (Net h [])
         = Ret (Failed "ComfyUI API error: 500 Internal Server Error") w')
  ∧ (∃ w', Server.queueComfyUIPrompt rejecting_service 0 workflow "webcam_input.jpg"
             (Net h [])
           = Ret (Failed "ComfyUI API error: 500 Internal Server Error - boom") w').
Proof. split; eexists; vm_compute; reflexivity. Qed.

(** ** The artifact index: properties *)

Section sort_facts.
Context {A : Type} (key : A → Z).

Lemma sort_insert_perm (c : A → A → Z) x l : sort_insert c x l ≡ₚ x :: l.
Proof.
  induction l as [|y l IH]; simpl; [done|].
  case_bool_decide; [done|]. by rewrite IH, Permutation_swap.
Qed.

Lemma Array_sort_perm (c : A → A → Z) l : Array_sort c l ≡ₚ l.
Proof.
  induction l as [|x l IH]; simpl; [done|].
  by rewrite sort_insert_perm, IH.
Qed.

Lemma sort_insert_sorted x l :
  StronglySorted (descending key) l →
  StronglySorted (descending key) (sort_insert (by_descending key) x l).
Proof.
  induction 1 as [|y l Hl IH Hy]; simpl.
  { repeat constructor. }
  unfold by_descending at 1. case_bool_decide.
  - constructor; [by constructor|]. constructor; [unfold descending; lia|].
    eapply Forall_impl; [exact Hy|]. unfold descending. intros; lia.
  - constructor; [done|]. rewrite sort_insert_perm.
    constructor; [unfold descending; lia|done].
Qed.

Lemma Array_sort_sorted l :
  StronglySorted (descending key) (Array_sort (by_descending key) l).
Proof.
  induction l as [|x l IH]; simpl; [constructor|].
  by apply sort_insert_sorted.
Qed.
End sort_facts.

Lemma StronglySorted_impl_in {A} (R R' : relation A) l :
  StronglySorted R l → (∀ a b, a ∈ l → b ∈ l → R a b → R' a b) →
  StronglySorted R' l.
Proof.
  induction 1 as [|x l Hl IH Hx]; intros HR; constructor.
  - apply IH. intros a b ??. apply HR; by right.
  - apply Forall_forall. intros b Hb. apply HR; [left|by right|].
    by eapply Forall_forall in Hx.
Qed.

Lemma permutation_of_three {A} (a b c : A) l :
  l ≡ₚ [a; b; c] →
  l = [a; b; c] ∨ l = [a; c; b] ∨ l = [b; a; c] ∨
  l = [b; c; a] ∨ l = [c; a; b] ∨ l = [c; b; a].
Proof.
  intros (k1 & k2 & -> & H)%Permutation_cons_inv_r.
  apply Permutation_length_2_inv in H as [H|H];
    destruct k1 as [|? [|? [|? ?]]]; simplify_eq/=; auto 10.
Qed.

Section index_facts.
Variable path_join : string → string → string.

Lemma models_of_files mesh names files :
  mapM (λ file, stats ← statSync mesh file;
                Some (Server.model path_join file stats)) names
  = Some files →
  Forall (λ a, created a = modified a) files.
Proof.
  intros H%mapM_Some. induction H as [|file a names files Ha _ IH];
    constructor; [|done].
  destruct (statSync mesh file); simplify_eq/=. done.
Qed.

Lemma findGLBFiles_sorted mesh :
  StronglySorted (descending modified)
                 (Server.findGLBFiles path_join mesh).
Proof.
  unfold Server.findGLBFiles.
  destruct (existsSync mesh); simpl; [|constructor].
  destruct (readdirSync mesh) as [names|]; simpl; [|constructor].
  destruct (mapM _ _) as [files|] eqn:Hfiles; simpl; [|constructor].
  apply models_of_files in Hfiles.
  eapply StronglySorted_impl_in; [apply (Array_sort_sorted created)|].
  intros a b Ha Hb. rewrite Array_sort_perm in Ha, Hb.
  rewrite Forall_forall in Hfiles. unfold descending.
  by rewrite <-(Hfiles a), <-(Hfiles b).
Qed.

(** C6. The list of models is ordered by modification time, newest
    first; a folder whose entries with extension [.glb], in any letter
    case, are three files with modification times [t1 < t2 < t3], in
    whatever order the folder lists them and among whatever other entries,
    yields exactly three models, in the order [t3], [t2], [t1]: each with
    the name, the path, the URL, the size and the modification time of its
    file. *)
Theorem newest_first :
  (∀ mesh, StronglySorted (descending modified)
                          (Server.findGLBFiles path_join mesh))
  ∧ (∀ es n1 n2 n3 s1 s2 s3,
       filter (λ file, Server.isGLB file = true) es.*1 ≡ₚ [n1; n2; n3] →
       statSync (Directory es) n1 = Some s1 →
       statSync (Directory es) n2 = Some s2 →
       statSync (Directory es) n3 = Some s3 →
       (mtime s1 < mtime s2 < mtime s3)%Z →
       Server.findGLBFiles path_join (Directory es)
       = [ {| name := n3;
              path := path_join Server.MODEL_MESH_FOLDER n3;
              url := "/mesh/" +:+ n3;
              a_size := size s3;
              created := mtime s3;
              modified := mtime s3 |};
           {| name := n2;
              path := path_join Server.MODEL_MESH_FOLDER n2;
              url := "/mesh/" +:+ n2;
              a_size := size s2;
              created := mtime s2;
              modified := mtime s2 |};
           {| name := n1;
              path := path_join Server.MODEL_MESH_FOLDER n1;
              url := "/mesh/" +:+ n1;
              a_size := size s1;
              created := mtime s1;
              modified := mtime s1 |} ]
       ∧ modified <$> Server.findGLBFiles path_join (Directory es)
         = [mtime s3; mtime s2; mtime s1]).
Proof.
  split; [apply findGLBFiles_sorted|].
  intros es n1 n2 n3 s1 s2 s3 Hperm H1 H2 H3 Ht.
  assert (Server.findGLBFiles path_join (Directory es)
          = [Server.model path_join n3 s3; Server.model path_join n2 s2;
             Server.model path_join n1 s1]) as ->; [|done].
  unfold Server.findGLBFiles.
  change (readdirSync (Directory es)) with (Some es.*1).
  change (existsSync (Directory es)) with true.
  simpl negb. cbv iota. simpl mbind at 1. simpl in H1, H2, H3.
  apply permutation_of_three in Hperm
    as [-> | [-> | [-> | [-> | [-> | ->]]]]];
    simpl; rewrite ?H1, ?H2, ?H3; simpl;
    repeat (case_bool_decide; simpl in *; try lia); done.
Qed.

(** C7. The list of models is empty, and no error is signalled, when the
    folder does not exist, when the path is not a folder and when no entry
    has the extension; the latest model is the first of the list, and is
    absent exactly when the list is empty. *)
Theorem empty_index :
  Server.findGLBFiles path_join Missing = []
  ∧ Server.findGLBFiles path_join File = []
  ∧ (∀ es, filter (λ file, Server.isGLB file = true) es.*1 = [] →
           Server.findGLBFiles path_join (Directory es) = [])
  ∧ (∀ mesh, Server.findLatestGLBFile path_join mesh
             = head (Server.findGLBFiles path_join mesh))
  ∧ (∀ mesh, Server.findLatestGLBFile path_join mesh = None
             ↔ Server.findGLBFiles path_join mesh = []).
Proof.
  assert (∀ mesh, Server.findLatestGLBFile path_join mesh
                  = head (Server.findGLBFiles path_join mesh)) as Hhead.
  { intros mesh. unfold Server.findLatestGLBFile.
    destruct (Server.findGLBFiles path_join mesh); [done|].
    by rewrite bool_decide_eq_true_2 by (simpl; lia). }
  repeat split; try done.
  - intros es Hes. unfold Server.findGLBFiles. simpl. by rewrite Hes.
  - rewrite Hhead. by destruct (Server.findGLBFiles path_join mesh).
  - rewrite Hhead. by intros ->.
Qed.
End index_facts.

Lemma newest_first_witness :
  Server.findGLBFiles join_slash three_models
  = [ {| name := "C.GLB";
         path := Server.MODEL_MESH_FOLDER +:+ "/" +:+ "C.GLB";
         url := "/mesh/C.GLB";
         a_size := 30; created := 3000; modified := 3000 |};
      {| name := "b.glb";
         path := Server.MODEL_MESH_FOLDER +:+ "/" +:+ "b.glb";
         url := "/mesh/b.glb";
         a_size := 20; created := 2000; modified := 2000 |};
      {| name := "a.glb";
         path := Server.MODEL_MESH_FOLDER +:+ "/" +:+ "a.glb";
         url := "/mesh/a.glb";
         a_size := 10; created := 1000; modified := 1000 |} ]
  ∧ modified <$> Server.findGLBFiles join_slash three_models
    = [3000; 2000; 1000]%Z.
Proof.
  apply (proj2 (newest_first join_slash)
           [("b.glb", Some (Stats 20 2000)); ("notes.txt", Some (Stats 1 9000));
            ("C.GLB", Some (Stats 30 3000)); ("a.glb", Some (Stats 10 1000))]
           "a.glb" "b.glb" "C.GLB" (Stats 10 1000) (Stats 20 2000) (Stats 30 3000));
    try reflexivity.
  - symmetry. exact (Permutation_cons_append ["b.glb"; "C.GLB"] "a.glb").
  - simpl. lia.
Defined.

Lemma empty_index_witness :
  Server.findGLBFiles join_slash (Directory [("notes.txt", Some (Stats 1 9000))])
  = [].
Proof.
  apply (proj1 (proj2 (proj2 (empty_index join_slash)))). reflexivity.
Defined.

(** ** The capture handler: properties *)

Lemma Object_keys_empty h0 :
  Object_keys (VRef (length h0)) (h0 ++ [CObj []]) = Ret [] (h0 ++ [CObj []]).
Proof. unfold Object_keys. simpl. by rewrite list_lookup_middle. Qed.

Lemma jprop_not_null {S} (j : json) k (s : S) :
  j ≠ JNull → jprop j k s = Ret (jget j k) s.
Proof. by destruct j. Qed.

Lemma truthy_frame s : s ≠ "" → negb (jtruthy (Some (JStr s))) = false.
Proof. intros. simpl. by rewrite bool_decide_eq_false_2. Qed.

(** A reply that is not the success reply, with no frame claimed. *)
Lemma capture_refused {fs} (write : string → fs → exn + fs) ts d body h r :
  reply_status r ≠ 200%Z →
  (∀ s d', jget body "imageData" = Some (JStr s) → s ≠ "" →
           write (strip_data_url s) d = inr d' → False) →
  capture_without_template write ts d body (Process h d ts (Some r)).
Proof.
  intros Hr Hno. split; [done|]. split.
  - by intros ? [= <-].
  - intros s d' ???. by destruct (Hno s d').
Qed.

(** The success reply, with the frame on the disk. *)
Lemma capture_done {fs} (write : string → fs → exn + fs) ts d body h s d1 r :
  jget body "imageData" = Some (JStr s) →
  write (strip_data_url s) d = inr d1 →
  reply_status r = 200%Z →
  jget (reply_body r) "success" = Some (JBool true) →
  jget (reply_body r) "comfyui_enabled" = Some (JBool false) →
  capture_without_template write ts d body (Process h d1 ts (Some r)).
Proof.
  intros Hd Hw ???. split; [done|]. split.
  - by intros ? [= <-].
  - intros s' d' Hs' _ Hw'. rewrite Hd in Hs'. injection Hs' as <-.
    rewrite Hw in Hw'. injection Hw' as <-. split; [done|]. by exists r.
Qed.

Section capture_facts.
Context {fs : Type}.
Variable writeFileSync : string → string → fs → exn + fs.
Variable path_join : string → string → string.
Variable Buffer_from_base64 : string → string.

(** C8. With the empty template [{}], whatever the request: the handler
    schedules no dispatch; a success reply reports [comfyui_enabled] as
    false; and a request that carries a frame gets the success reply, with
    the frame written, whenever the write itself succeeds; in both
    variants. *)
Theorem empty_template_capture body h0 d ts :
  let h := (JSON_parse (JObj []) h0).1 in
  let workflowTemplate := (JSON_parse (JObj []) h0).2 in
  capture_without_template
    (λ data, writeFileSync (path_join App.COMFYUI_INPUT_FOLDER "webcam_input.jpg")
                           (Buffer_from_base64 data))
    ts d body
    (final_state (App.save_frame writeFileSync path_join Buffer_from_base64
                    workflowTemplate body (Process h d ts None)))
  ∧ capture_without_template
    (λ data, writeFileSync (path_join Server.COMFYUI_INPUT_FOLDER "webcam_input.jpg")
                           (Buffer_from_base64 data))
    ts d body
    (final_state (Server.save_frame writeFileSync path_join Buffer_from_base64
                    workflowTemplate body (Process h d ts None))).
Proof.
  simpl. pose proof (Object_keys_empty h0) as Hkeys.
  assert (body = JNull ∨ body ≠ JNull) as [->|Hb] by (destruct body; auto).
  { simpl. split; (apply capture_refused; [done|by intros ? ? ?]). }
  unfold App.save_frame, Server.save_frame, try_catch, bind.
  rewrite !(jprop_not_null body) by done.
  destruct (jget body "imageData") as [[|[]|z|s| |]|] eqn:Hd; simpl.
  1-3,6-8: split; (apply capture_refused; [done|intros ? ? ?; congruence]).
  - destruct (z =? 0)%Z; simpl;
      split; (apply capture_refused; [done|intros ? ? ?; congruence]).
  - case_bool_decide as Hs; simpl;
      [split; (apply capture_refused; [done|intros ? ? ?; congruence])|].
    unfold write_file, ret. simpl.
    destruct (writeFileSync (path_join App.COMFYUI_INPUT_FOLDER _) _ d)
      as [e|d1] eqn:HwA;
    destruct (writeFileSync (path_join Server.COMFYUI_INPUT_FOLDER _) _ d)
      as [e'|d2] eqn:HwS; simpl;
      rewrite ?list_lookup_middle by done; simpl.
    all: split;
      first [ by eapply capture_done
            | apply capture_refused; [done|];
              intros s' d' Hs' _ Hw'; rewrite Hd in Hs'; injection Hs' as <-;
              unfold App.INPUT_FILENAME, Server.INPUT_FILENAME in *;
              congruence ].
Qed.
End capture_facts.

Lemma empty_template_capture_witness :
  ∃ r, sent (final_state
               (App.save_frame write_always join_slash (λ data, data) (VRef 0)
                  frame_request (Process [CObj []] [] [] None)))
       = Some r
       ∧ reply_status r = 200%Z
       ∧ jget (reply_body r) "success" = Some (JBool true)
       ∧ jget (reply_body r) "comfyui_enabled" = Some (JBool false).
Proof.
  destruct (empty_template_capture write_always join_slash (λ data, data)
              frame_request [] [] []) as [(_ & _ & Hframe) _].
  destruct (Hframe "data:image/jpeg;base64,AAAA" _ eq_refl ltac:(done) eq_refl)
    as [_ Hreply].
  exact Hreply.
Defined.

(** * Further properties *)

(** ** The template patcher, further *)

Lemma assoc_set_twice {A} k (a b : A) ps :
  assoc_set k b (assoc_set k a ps) = assoc_set k b ps.
Proof.
  induction ps as [|[k' a'] ps IH]; simpl.
  - by rewrite decide_True.
  - case_decide; simpl; [by rewrite decide_True|].
    rewrite decide_False by done. by rewrite IH.
Qed.

Lemma assoc_set_comm {A} k k' (a b : A) ps :
  k ≠ k' → is_Some (assoc k ps) → is_Some (assoc k' ps) →
  assoc_set k' b (assoc_set k a ps) = assoc_set k a (assoc_set k' b ps).
Proof.
  intros Hne. induction ps as [|[k0 a0] ps IH]; simpl; [by intros [? [=]]|].
  destruct (decide (k0 = k)) as [->|Hk]; simpl.
  - rewrite !decide_False by done. simpl. rewrite decide_True by done.
    intros _ _. done.
  - destruct (decide (k0 = k')) as [->|Hk']; simpl.
    + rewrite decide_False by done. done.
    + rewrite !decide_False by done. intros ??. f_equal. by apply IH.
Qed.

Lemma jset_not_container X k a : is_container X = false → jset X k a = X.
Proof. by destruct X. Qed.

Lemma jset_jset_eq X k a b :
  is_Some (jget X k) → jset (jset X k a) k b = jset X k b.
Proof.
  intros Hk. destruct X as [| | |s|js|kvs]; try done.
  - unfold jset at 1. rewrite jentries_jset by done.
    simpl. by rewrite assoc_set_twice.
  - simpl. unfold jset. simpl. by rewrite assoc_set_twice.
Qed.

Lemma jset_jset_ne X k k' a b :
  k ≠ k' → is_Some (jget X k) → is_Some (jget X k') →
  jset (jset X k a) k' b = jset (jset X k' b) k a.
Proof.
  intros Hne Hk Hk'. destruct X as [| | |s|js|kvs]; try done.
  - unfold jset at 1 3. rewrite !jentries_jset by done.
    simpl. by rewrite assoc_set_comm.
  - unfold jset. simpl. by rewrite assoc_set_comm.
Qed.

Lemma jset_same X k x : jget X k = Some x → jset X k x = X.
Proof.
  intros Hk. destruct X as [| | |s|js|kvs]; try done; unfold jset, jget in *.
  - rewrite assoc_set_same by done. simpl. by rewrite indexed_snd.
  - by rewrite assoc_set_same.
Qed.

Lemma patch_step_unfold rs T k :
  patch_step rs (Some T) k
  = node ← jget T k; node' ← patch_node rs node; Some (jset T k node').
Proof. reflexivity. Qed.

Lemma patch_step_at_None rs k : patch_step rs None k = None.
Proof. reflexivity. Qed.

(** *** Visiting a node twice *)

(** When the blocks [rs2] give the same node after the blocks [rs1] as on
    their own, so do the two loops on a template. *)
Lemma patch_step_absorb rs1 rs2 :
  (∀ n n1, patch_node rs1 n = Some n1 → patch_node rs2 n1 = patch_node rs2 n) →
  ∀ ks k X0 X,
    k ∈ ks → patch_step rs1 (Some X0) k = Some X →
    foldl (patch_step rs2) (Some X) ks = foldl (patch_step rs2) (Some X0) ks.
Proof.
  intros H. induction ks as [|k0 ks IH]; intros k X0 X Hin Hstep.
  { by apply elem_of_nil in Hin. }
  rewrite patch_step_unfold in Hstep.
  destruct (jget X0 k) as [node|] eqn:Hk; [|done]. simpl in Hstep.
  destruct (patch_node rs1 node) as [node1|] eqn:Hn; [|done].
  injection Hstep as <-.
  destruct (is_container X0) eqn:Hc; [|by rewrite jset_not_container].
  apply Is_true_true in Hc.
  simpl. destruct (decide (k0 = k)) as [->|Hne].
  - rewrite !patch_step_unfold, Hk.
    rewrite jget_jset_eq by (done || by rewrite Hk). simpl.
    rewrite (H _ _ Hn). destruct (patch_node rs2 node) as [n2|]; [|done].
    simpl. by rewrite jset_jset_eq by (by rewrite Hk).
  - apply elem_of_cons in Hin as [?|Hin]; [done|].
    rewrite !patch_step_unfold.
    rewrite jget_jset_ne by (by rewrite ?Hk).
    destruct (jget X0 k0) as [m|] eqn:Hk0; [|done]. simpl.
    destruct (patch_node rs2 m) as [m2|]; [|done]. simpl.
    rewrite jset_jset_ne by (by rewrite ?Hk, ?Hk0).
    apply (IH k); [done|]. rewrite patch_step_unfold.
    rewrite jget_jset_ne by (by rewrite ?Hk0). rewrite Hk. simpl.
    by rewrite Hn.
Qed.

Lemma patched_absorb rs1 rs2 T J :
  (∀ n n1, patch_node rs1 n = Some n1 → patch_node rs2 n1 = patch_node rs2 n) →
  patched rs1 T = Some J → patched rs2 J = patched rs2 T.
Proof.
  intros H HJ. unfold patched at 1. rewrite (patch_keys _ _ _ HJ).
  unfold patched in HJ. revert HJ.
  assert ((jentries T).*1 ⊆ (jentries T).*1) as Hsub by done. revert Hsub J.
  generalize (jentries T).*1 at 1 3 as ks1.
  induction ks1 as [|k ks1 IH] using rev_ind; intros Hsub J; simpl.
  { by intros [= ->]. }
  rewrite foldl_app. simpl.
  destruct (foldl (patch_step rs1) (Some T) ks1) as [X0|] eqn:HX0; [|done].
  intros Hstep.
  assert (ks1 ⊆ (jentries T).*1) as Hsub1.
  { intros x ?. apply Hsub, elem_of_app. by left. }
  rewrite <-(IH Hsub1 X0 eq_refl).
  eapply patch_step_absorb; [done| |done].
  apply Hsub, elem_of_app. right. by left.
Qed.

Lemma jset_input_twice n k a b :
  a ≠ "" ∨ a = b →
  jset_input (jset_input n k a) k b = jset_input n k b.
Proof.
  intros Hab. unfold jset_input at 2.
  destruct (jget n "inputs") as [[| | | | |ikvs]|] eqn:Hi; try done.
  destruct (jtruthy (assoc k ikvs)) eqn:Htr; [|done].
  assert (is_container n) as Hc.
  { destruct n as [| | |s| |]; try done. by apply jget_str in Hi as [c ?]. }
  unfold jset_input. rewrite Hi, Htr.
  rewrite jget_jset_eq by (done || by rewrite Hi). rewrite assoc_set_get. simpl.
  case_bool_decide as Ha; simpl.
  - destruct Hab as [?|<-]; [done|]. by rewrite Ha.
  - rewrite jset_jset_eq by (by rewrite Hi). by rewrite assoc_set_twice.
Qed.

Lemma jclass_in_no_class node cs :
  (∀ c, jget node "class_type" ≠ Some (JStr c)) → jclass_in node cs = false.
Proof.
  intros Hc. unfold jclass_in, jclass_is.
  destruct (jget node "class_type") as [[| | |s| |]|]; try by induction cs.
  by destruct (Hc s).
Qed.

Lemma patch_node_no_class rs node :
  node ≠ JNull → (∀ c, jget node "class_type" ≠ Some (JStr c)) →
  patch_node rs node = Some node.
Proof.
  intros Hnode Hc. apply patch_node_falsy; [done|].
  intros r _. by rewrite jclass_in_no_class.
Qed.

Lemma patch_node_null r rs :
  rule_classes r ≠ [] → patch_node (r :: rs) JNull = None.
Proof.
  intros Hr. rewrite patch_node_cons. unfold apply_rule.
  by destruct (rule_classes r).
Qed.

Lemma has_class_dec node :
  (∃ c, jget node "class_type" = Some (JStr c))
  ∨ (∀ c, jget node "class_type" ≠ Some (JStr c)).
Proof.
  destruct (jget node "class_type") as [[| | |s| |]|]; eauto; by right.
Qed.

(** The blocks of each variant on a node of class [c]: at most one of them
    rewrites the node. *)
Ltac eval_blocks :=
  repeat match goal with
    | |- context [bool_decide (?c ∈ ?cs)] =>
        let b := eval vm_compute in (bool_decide (c ∈ cs)) in
        match b with true => idtac | false => idtac end;
        change (bool_decide (c ∈ cs)) with b
    | |- context [bool_decide (?c = ?d)] =>
        let b := eval vm_compute in (bool_decide (c = d)) in
        match b with true => idtac | false => idtac end;
        change (bool_decide (c = d)) with b
    end.

Ltac by_class c :=
  destruct (decide (c = "LoadImage")) as [->|?];
  [|destruct (decide (c = "LoadImageMask")) as [->|?];
    [|destruct (decide (c = "ImageInput")) as [->|?];
      [|destruct (decide (c = "SaveImage")) as [->|?];
        [|destruct (decide (c = "SaveGLB")) as [->|?]]]]];
  [eval_blocks; try reflexivity..
  |rewrite ?bool_decide_eq_false_2
     by (rewrite ?elem_of_cons, ?elem_of_nil; intuition congruence);
   try reflexivity].

Lemma App_blocks A n c :
  foldl (λ n r, if bool_decide (c ∈ rule_classes r)
                then jset_input n (rule_input r) (rule_content r)
                else n) n (App.rules A)
  = if bool_decide (c ∈ ["LoadImage"; "LoadImageMask"; "ImageInput"])
    then jset_input n "image" A
    else if bool_decide (c = "SaveImage")
         then jset_input n "filename_prefix" "webcam_3d_mesh"
         else if bool_decide (c = "SaveGLB")
              then jset_input n "filename_prefix" "mesh/webcam_3d_mesh"
              else n.
Proof. unfold App.rules. simpl. by_class c. Qed.

Lemma Server_blocks A n c :
  foldl (λ n r, if bool_decide (c ∈ rule_classes r)
                then jset_input n (rule_input r) (rule_content r)
                else n) n (Server.rules A)
  = if bool_decide (c ∈ ["LoadImage"; "LoadImageMask"; "ImageInput"])
    then jset_input n "image" A
    else if bool_decide (c = "SaveGLB")
         then jset_input n "filename_prefix" "webcam_3d_mesh"
         else n.
Proof. unfold Server.rules. simpl. by_class c. Qed.

Lemma App_patch_node_class A n c :
  jget n "class_type" = Some (JStr c) →
  patch_node (App.rules A) n
  = Some (if bool_decide (c ∈ ["LoadImage"; "LoadImageMask"; "ImageInput"])
          then jset_input n "image" A
          else if bool_decide (c = "SaveImage")
               then jset_input n "filename_prefix" "webcam_3d_mesh"
               else if bool_decide (c = "SaveGLB")
                    then jset_input n "filename_prefix" "mesh/webcam_3d_mesh"
                    else n).
Proof. intros Hc. by rewrite (patch_node_class _ n c), App_blocks. Qed.

Lemma Server_patch_node_class A n c :
  jget n "class_type" = Some (JStr c) →
  patch_node (Server.rules A) n
  = Some (if bool_decide (c ∈ ["LoadImage"; "LoadImageMask"; "ImageInput"])
          then jset_input n "image" A
          else if bool_decide (c = "SaveGLB")
               then jset_input n "filename_prefix" "webcam_3d_mesh"
               else n).
Proof. intros Hc. by rewrite (patch_node_class _ n c), Server_blocks. Qed.

Lemma App_patch_node_absorb A B n n1 :
  A ≠ "" ∨ A = B →
  patch_node (App.rules A) n = Some n1 →
  patch_node (App.rules B) n1 = patch_node (App.rules B) n.
Proof.
  intros HAB Hn.
  assert (n = JNull ∨ n ≠ JNull) as [->|Hnull] by (destruct n; auto).
  { unfold App.rules in Hn. rewrite patch_node_null in Hn; done. }
  destruct (has_class_dec n) as [[c Hc]|Hc].
  2:{ rewrite patch_node_no_class in Hn by done. by injection Hn as <-. }
  rewrite (App_patch_node_class _ n c) in Hn by done. injection Hn as <-.
  rewrite (App_patch_node_class _ n c) by done.
  rewrite (App_patch_node_class _ _ c)
    by (repeat case_bool_decide; by rewrite ?jset_input_class).
  f_equal. repeat case_bool_decide; try done; apply jset_input_twice; auto.
Qed.

Lemma Server_patch_node_absorb A B n n1 :
  A ≠ "" ∨ A = B →
  patch_node (Server.rules A) n = Some n1 →
  patch_node (Server.rules B) n1 = patch_node (Server.rules B) n.
Proof.
  intros HAB Hn.
  assert (n = JNull ∨ n ≠ JNull) as [->|Hnull] by (destruct n; auto).
  { unfold Server.rules in Hn. rewrite patch_node_null in Hn; done. }
  destruct (has_class_dec n) as [[c Hc]|Hc].
  2:{ rewrite patch_node_no_class in Hn by done. by injection Hn as <-. }
  rewrite (Server_patch_node_class _ n c) in Hn by done. injection Hn as <-.
  rewrite (Server_patch_node_class _ n c) by done.
  rewrite (Server_patch_node_class _ _ c)
    by (repeat case_bool_decide; by rewrite ?jset_input_class).
  f_equal. repeat case_bool_decide; try done; apply jset_input_twice; auto.
Qed.

(** *** What a visit leaves of a node *)

Lemma rewritten_refl n : rewritten n n.
Proof. repeat split; auto. Qed.

Lemma rewritten_trans n n1 n2 : rewritten n n1 → rewritten n1 n2 → rewritten n n2.
Proof.
  intros (K1 & P1 & I1 & O1 & T1) (K2 & P2 & I2 & O2 & T2).
  split; [congruence|]. split; [intros p ?; by rewrite P2, P1|].
  split; [congruence|]. split; [intros i ??; by rewrite O2, O1|].
  intros i. destruct (T2 i) as [E2|[S2 Tr2]], (T1 i) as [E1|[S1 Tr1]].
  - left. congruence.
  - right. split; [|done]. destruct S1 as [s ?]. exists s. congruence.
  - right. split; [done|]. by rewrite <-E1.
  - right. done.
Qed.

Lemma jset_input_rewritten n k a :
  k = "image" ∨ k = "filename_prefix" → rewritten n (jset_input n k a).
Proof.
  intros Hk. unfold jset_input.
  destruct (jget n "inputs") as [[| | | | |ikvs]|] eqn:Hi;
    try apply rewritten_refl.
  destruct (jtruthy (assoc k ikvs)) eqn:Htr; [|apply rewritten_refl].
  assert (is_container n) as Hc.
  { destruct n as [| | |s| |]; try done. by apply jget_str in Hi as [c ?]. }
  assert (is_Some (assoc k ikvs)) as Hsome.
  { destruct (assoc k ikvs); [done|]. done. }
  assert (∀ i, jinput (jset n "inputs" (JObj (assoc_set k (JStr a) ikvs))) i
               = assoc i (assoc_set k (JStr a) ikvs)) as Hin.
  { intros i. unfold jinput. by rewrite jget_jset_eq by (done || by rewrite Hi). }
  assert (∀ i, jinput n i = assoc i ikvs) as Hin0.
  { intros i. unfold jinput. by rewrite Hi. }
  split; [apply jset_keys; by rewrite Hi|].
  split; [intros p ?; apply jget_jset_ne; [by rewrite Hi|done]|].
  split.
  { rewrite jget_jset_eq by (done || by rewrite Hi). rewrite Hi. simpl.
    f_equal. by apply assoc_set_keys. }
  split.
  { intros i ??. rewrite Hin, Hin0. apply assoc_set_get_ne.
    destruct Hk; congruence. }
  intros i. rewrite Hin, Hin0. destruct (decide (k = i)) as [<-|?].
  - right. rewrite assoc_set_get. eauto.
  - left. by apply assoc_set_get_ne.
Qed.

Lemma patch_node_rewritten rs : ∀ n n',
  (∀ r, r ∈ rs → rule_input r = "image" ∨ rule_input r = "filename_prefix") →
  patch_node rs n = Some n' → rewritten n n'.
Proof.
  induction rs as [|r rs IH]; intros n n' Hrs.
  { intros [= <-]. apply rewritten_refl. }
  rewrite patch_node_cons.
  destruct (apply_rule n r) as [n1|] eqn:H1; [|done]. simpl. intros Hn'.
  apply (rewritten_trans _ n1).
  - unfold apply_rule in H1.
    assert (n1 = (if jclass_in n (rule_classes r)
                  then jset_input n (rule_input r) (rule_content r) else n))
      as -> by (destruct n, (rule_classes r); congruence).
    destruct (jclass_in _ _); [|apply rewritten_refl].
    apply jset_input_rewritten, Hrs. by left.
  - apply IH; [|done]. intros; apply Hrs. by right.
Qed.

Lemma rules_inputs A r :
  r ∈ App.rules A ∨ r ∈ Server.rules A →
  rule_input r = "image" ∨ rule_input r = "filename_prefix".
Proof.
  unfold App.rules, Server.rules. intros [Hr|Hr];
    repeat (apply elem_of_cons in Hr as [->|Hr]);
    try (by apply elem_of_nil in Hr); simpl; auto.
Qed.

Lemma patched_rewritten rs T J k node :
  (∀ r, r ∈ rs → rule_input r = "image" ∨ rule_input r = "filename_prefix") →
  patched rs T = Some J → jget T k = Some node →
  ∃ node', jget J k = Some node' ∧ rewritten node node'.
Proof.
  intros Hrs HJ Hk.
  destruct (patch_node_at rs (rewritten node) (λ _, True) T J k node)
    as (node' & ? & ? & _); eauto using rewritten_refl.
  intros n n' Hn Hp. split; [|done].
  eapply rewritten_trans; [done|]. by eapply patch_node_rewritten.
Qed.

(** X1. In the patched job every node of the template is still there with
    the same properties and the same inputs; every property other than
    [inputs] and every input other than [image] and [filename_prefix] holds
    what it held; an input that differs was truthy and holds a string now.
    In both variants. *)
Theorem patch_touches_only_targets T A J :
  App.patch T A = Some J ∨ Server.patch T A = Some J →
  jkeys J = jkeys T
  ∧ ∀ k node, jget T k = Some node →
      ∃ node', jget J k = Some node'
        ∧ jkeys node' = jkeys node
        ∧ (∀ p, p ≠ "inputs" → jget node' p = jget node p)
        ∧ jkeys <$> jget node' "inputs" = jkeys <$> jget node "inputs"
        ∧ (∀ i, i ≠ "image" → i ≠ "filename_prefix" →
                jinput node' i = jinput node i)
        ∧ (∀ i, jinput node' i = jinput node i
                ∨ (∃ s, jinput node' i = Some (JStr s))
                  ∧ jtruthy (jinput node i) = true).
Proof.
  intros [HJ|HJ].
  - rewrite App_patch_patched in HJ. split; [by eapply patch_keys|].
    intros k node Hk. eapply patched_rewritten; [|done..].
    intros r ?. apply (rules_inputs A). by left.
  - rewrite Server_patch_patched in HJ. split; [by eapply patch_keys|].
    intros k node Hk. eapply patched_rewritten; [|done..].
    intros r ?. apply (rules_inputs A). by right.
Qed.

Lemma patch_touches_only_targets_witness :
  ∃ node', jget (JObj [("1", JObj [("class_type", JStr "LoadImage");
                              ("inputs", JObj [("image", JStr "webcam_input.jpg")])]);
                  ("2", JObj [("class_type", JStr "SaveGLB");
                              ("inputs", JObj [("filename_prefix", JStr "mesh/webcam_3d_mesh");
                                               ("mesh", JArr [JStr "7"; JNum 0])])])]) "2"
             = Some node'
    ∧ jinput node' "mesh" = Some (JArr [JStr "7"; JNum 0]).
Proof.
  destruct (proj2 (patch_touches_only_targets scenario_template "webcam_input.jpg" _
                     (or_introl eq_refl)) "2" _ eq_refl)
    as (node' & Hk & _ & _ & _ & Hother & _).
  exists node'. split; [exact Hk|]. by rewrite Hother.
Defined.

(** *** A [null] node *)

Lemma patched_null rs T k :
  (∃ r rs', rs = r :: rs' ∧ rule_classes r ≠ []) →
  jget T k = Some JNull → patched rs T = None.
Proof.
  intros (r & rs' & -> & Hr) Hk.
  destruct (patched (r :: rs') T) as [J|] eqn:HJ; [|done].
  destruct (patch_node_at (r :: rs') (λ n, n = JNull) (λ _, False) T J k JNull)
    as (? & _ & _ & []); try done.
  intros n n' -> Hn. by rewrite patch_node_null in Hn.
Qed.

Lemma patch_fold_None rs : ∀ ks T,
  ks ⊆ (jentries T).*1 →
  foldl (patch_step rs) (Some T) ks = None →
  ∃ k, jget T k = Some JNull.
Proof.
  induction ks as [|k ks IH]; intros T Hks; simpl; [done|].
  destruct (assoc_in_keys k (jentries T)) as [node Hk]; [apply Hks; left|].
  change (jget T k = Some node) in Hk.
  assert (node = JNull ∨ node ≠ JNull) as [->|Hnode] by (destruct node; auto).
  { eauto. }
  destruct (patch_node_not_null rs node Hnode) as (node' & Hn & Hnode').
  rewrite patch_step_unfold, Hk. simpl. rewrite Hn. simpl. intros HNone.
  destruct (IH (jset T k node')) as [k' Hk']; [|done|].
  { rewrite jset_keys by (by rewrite Hk). intros ??. apply Hks. by right. }
  exists k'. destruct (decide (k = k')) as [<-|?].
  - destruct (is_container T) eqn:Hc.
    + apply Is_true_true in Hc.
      rewrite jget_jset_eq in Hk' by (done || by rewrite Hk). congruence.
    + rewrite jset_not_container in Hk' by done. congruence.
  - by rewrite jget_jset_ne in Hk' by (done || by rewrite Hk).
Qed.

Lemma patched_None_iff rs T :
  (∃ r rs', rs = r :: rs' ∧ rule_classes r ≠ []) →
  patched rs T = None ↔ ∃ k, jget T k = Some JNull.
Proof.
  intros Hrs. split.
  - by apply patch_fold_None.
  - intros [k Hk]. by eapply patched_null.
Qed.

(** X2. The patcher fails exactly on a template that has a [null] node; the
    call then throws the [TypeError] of reading [class_type] of [null],
    having written to no object that existed before it.  In both
    variants. *)
Theorem patch_fails_on_null_node T A :
  (App.patch T A = None ↔ ∃ k, jget T k = Some JNull)
  ∧ (Server.patch T A = None ↔ ∃ k, jget T k = Some JNull)
  ∧ ∀ h0, (∃ k, jget T k = Some JNull) →
      let h := (JSON_parse T h0).1 in
      let workflow := (JSON_parse T h0).2 in
      (∃ h', App.updateWorkflowWithImage workflow A h
             = Throw (TypeError "Cannot read properties of null (reading 'class_type')") h'
             ∧ h `prefix_of` h')
      ∧ (∃ h', Server.updateWorkflowWithImage workflow A h
               = Throw (TypeError "Cannot read properties of null (reading 'class_type')") h'
               ∧ h `prefix_of` h').
Proof.
  assert (∃ r rs', App.rules A = r :: rs' ∧ rule_classes r ≠ []) as HA
    by (by eexists _, _).
  assert (∃ r rs', Server.rules A = r :: rs' ∧ rule_classes r ≠ []) as HS
    by (by eexists _, _).
  split; [rewrite App_patch_patched; by apply patched_None_iff|].
  split; [rewrite Server_patch_patched; by apply patched_None_iff|].
  intros h0 Hnull h workflow.
  assert (JSON_stringify h workflow = Some T) as HT
    by (by apply loaded_template_kept).
  split.
  - destruct (update_workflow_repr (App.rules A) workflow h T HT)
      as (h' & Hpre & Hrun).
    rewrite (proj2 (patched_None_iff _ T HA) Hnull) in Hrun.
    exists h'. by rewrite App_updateWorkflowWithImage_rules.
  - destruct (update_workflow_repr (Server.rules A) workflow h T HT)
      as (h' & Hpre & Hrun).
    rewrite (proj2 (patched_None_iff _ T HS) Hnull) in Hrun.
    exists h'. by rewrite Server_updateWorkflowWithImage_rules.
Qed.

(** *** Patching a patched job *)

(** X3. Patching is idempotent: the patched job is patched to itself by
    the same asset name.  In both variants. *)
Theorem patch_idempotent T A J :
  (App.patch T A = Some J → App.patch J A = Some J)
  ∧ (Server.patch T A = Some J → Server.patch J A = Some J).
Proof.
  split; intros HJ.
  - rewrite App_patch_patched in *. etrans; [|exact HJ].
    apply (patched_absorb (App.rules A)); [|done].
    intros n n1. apply App_patch_node_absorb. auto.
  - rewrite Server_patch_patched in *. etrans; [|exact HJ].
    apply (patched_absorb (Server.rules A)); [|done].
    intros n n1. apply Server_patch_node_absorb. auto.
Qed.

(** X4. A job patched with a non-empty asset name [A] and patched again with
    [B] is the template patched with [B]: the later name replaces the
    earlier one.  In both variants. *)
Theorem patch_later_name_wins T A B J :
  A ≠ "" →
  (App.patch T A = Some J → App.patch J B = App.patch T B)
  ∧ (Server.patch T A = Some J → Server.patch J B = Server.patch T B).
Proof.
  intros HA. split; intros HJ.
  - rewrite !App_patch_patched in *.
    apply (patched_absorb (App.rules A)); [|done].
    intros n n1. apply App_patch_node_absorb. auto.
  - rewrite !Server_patch_patched in *.
    apply (patched_absorb (Server.rules A)); [|done].
    intros n n1. apply Server_patch_node_absorb. auto.
Qed.

Lemma patch_later_name_wins_witness :
  App.patch (JObj [("3", JObj [("class_type", JStr "LoadImage");
                               ("inputs", JObj [("image", JStr "first.jpg")])]);
                   ("4", JObj [("class_type", JStr "KSampler");
                               ("inputs", JObj [("image", JStr "keep.png");
                                                ("seed", JNum 7)])])])
            "second.jpg"
  = App.patch mixed_template "second.jpg".
Proof.
  apply (proj1 (patch_later_name_wins mixed_template "first.jpg" "second.jpg" _
                  ltac:(done))).
  by vm_compute.
Defined.

(** ** The patched job, node by node *)

Lemma patched_nodewise rs (f : json → json) T J k node :
  (∀ n n', patch_node rs n = Some n' → n' = f n) →
  (∀ n n', patch_node rs n = Some n' → patch_node rs n' = Some n') →
  patched rs T = Some J → jget T k = Some node →
  jget J k = Some (f node).
Proof.
  intros Hf Hidem HJ Hk.
  destruct (patch_node_at rs (λ n, n = node ∨ patch_node rs n = Some (f node)
                                    ∧ n = f node)
              (λ n, n = f node) T J k node)
    as (node' & Hk' & _ & ->); eauto.
  intros n n' [->|[Hfix ->]] Hn.
  - pose proof (Hf _ _ Hn) as ->. split; [|done]. right. eauto.
  - rewrite Hfix in Hn. injection Hn as <-. split; [|done]. right. eauto.
Qed.

(** X5. The patched job, node by node: the node under each key is the
    node of the template with the one rewrite of its class applied, where
    the rewrite of an input is [if (node.inputs && node.inputs.k)
    node.inputs.k = a]; a node whose [class_type] is no string, or none of
    the tested ones, is the node of the template.  In both variants. *)
Theorem patch_node_by_node T A :
  (∀ J k node, App.patch T A = Some J → jget T k = Some node →
     jget J k
     = Some (match jget node "class_type" with
             | Some (JStr c) =>
                 if bool_decide (c ∈ ["LoadImage"; "LoadImageMask"; "ImageInput"])
                 then jset_input node "image" A
                 else if bool_decide (c = "SaveImage")
                      then jset_input node "filename_prefix" "webcam_3d_mesh"
                      else if bool_decide (c = "SaveGLB")
                           then jset_input node "filename_prefix"
                                           "mesh/webcam_3d_mesh"
                           else node
             | _ => node
             end))
  ∧ (∀ J k node, Server.patch T A = Some J → jget T k = Some node →
     jget J k
     = Some (match jget node "class_type" with
             | Some (JStr c) =>
                 if bool_decide (c ∈ ["LoadImage"; "LoadImageMask"; "ImageInput"])
                 then jset_input node "image" A
                 else if bool_decide (c = "SaveGLB")
                      then jset_input node "filename_prefix" "webcam_3d_mesh"
                      else node
             | _ => node
             end)).
Proof.
  split; intros J k node HJ Hk.
  - rewrite App_patch_patched in HJ.
    apply (patched_nodewise (App.rules A)
             (λ node, match jget node "class_type" with
                      | Some (JStr c) =>
                          if bool_decide (c ∈ ["LoadImage"; "LoadImageMask"; "ImageInput"])
                          then jset_input node "image" A
                          else if bool_decide (c = "SaveImage")
                               then jset_input node "filename_prefix" "webcam_3d_mesh"
                               else if bool_decide (c = "SaveGLB")
                                    then jset_input node "filename_prefix"
                                                    "mesh/webcam_3d_mesh"
                                    else node
                      | _ => node
                      end) T); [| |done..].
    + intros n n' Hn.
      assert (n ≠ JNull) as Hnull.
      { intros ->. unfold App.rules in Hn. by rewrite patch_node_null in Hn. }
      destruct (has_class_dec n) as [[c Hc]|Hc].
      * rewrite (App_patch_node_class _ n c) in Hn by done.
        injection Hn as <-. by rewrite Hc.
      * rewrite patch_node_no_class in Hn by done. injection Hn as <-.
        destruct (jget n "class_type") as [[| | |c| |]|]; try done.
        by destruct (Hc c).
    + intros n n' Hn. by rewrite (App_patch_node_absorb A A n n') by auto.
  - rewrite Server_patch_patched in HJ.
    apply (patched_nodewise (Server.rules A)
             (λ node, match jget node "class_type" with
                      | Some (JStr c) =>
                          if bool_decide (c ∈ ["LoadImage"; "LoadImageMask"; "ImageInput"])
                          then jset_input node "image" A
                          else if bool_decide (c = "SaveGLB")
                               then jset_input node "filename_prefix" "webcam_3d_mesh"
                               else node
                      | _ => node
                      end) T); [| |done..].
    + intros n n' Hn.
      assert (n ≠ JNull) as Hnull.
      { intros ->. unfold Server.rules in Hn. by rewrite patch_node_null in Hn. }
      destruct (has_class_dec n) as [[c Hc]|Hc].
      * rewrite (Server_patch_node_class _ n c) in Hn by done.
        injection Hn as <-. by rewrite Hc.
      * rewrite patch_node_no_class in Hn by done. injection Hn as <-.
        destruct (jget n "class_type") as [[| | |c| |]|]; try done.
        by destruct (Hc c).
    + intros n n' Hn. by rewrite (Server_patch_node_absorb A A n n') by auto.
Qed.

(** X6. An image output node ([SaveImage]) with a truthy [filename_prefix]
    is given the prefix ["webcam_3d_mesh"] by [src/app.js] and is left as it
    is by [src/unnamed/part_000], which has no block for it. *)
Theorem SaveImage_in_one_variant_only T A k node ikvs :
  jget T k = Some node →
  jget node "class_type" = Some (JStr "SaveImage") →
  jget node "inputs" = Some (JObj ikvs) →
  jtruthy (assoc "filename_prefix" ikvs) = true →
  (∀ J, App.patch T A = Some J →
        ∃ node', jget J k = Some node'
          ∧ jinput node' "filename_prefix" = Some (JStr "webcam_3d_mesh"))
  ∧ (∀ J, Server.patch T A = Some J → jget J k = Some node).
Proof.
  intros Hk Hc Hi Htr. split; intros J HJ.
  - rewrite App_patch_patched in HJ.
    apply (patched_rewrites (App.rules A) T J k node "SaveImage" _ _ ikvs);
      done.
  - rewrite Server_patch_patched in HJ.
    destruct (patch_node_at (Server.rules A) (λ n, n = node) (λ _, True)
                T J k node) as (node' & Hk' & -> & _); try done.
    intros n n' -> Hn. split; [|done].
    rewrite (Server_patch_node_class _ _ "SaveImage") in Hn by done.
    by injection Hn as <-.
Qed.

Lemma SaveImage_in_one_variant_only_witness :
  (∃ node', jget (JObj [("9", JObj [("class_type", JStr "SaveImage");
                     ("inputs", JObj [("filename_prefix", JStr "webcam_3d_mesh");
                                      ("images", JArr [JStr "8"; JNum 0])])])]) "9"
            = Some node'
     ∧ jinput node' "filename_prefix" = Some (JStr "webcam_3d_mesh"))
  ∧ jget save_image_template "9"
    = Some (JObj [("class_type", JStr "SaveImage");
                  ("inputs", JObj [("filename_prefix", JStr "ComfyUI");
                                   ("images", JArr [JStr "8"; JNum 0])])]).
Proof.
  destruct (SaveImage_in_one_variant_only save_image_template "webcam_input.jpg"
              "9" _ _ eq_refl eq_refl eq_refl eq_refl) as [HA HS].
  split.
  - apply HA. by vm_compute.
  - apply (HS save_image_template). by vm_compute.
Defined.

(** ** The compute client, further *)

Lemma App_update_outcome workflow A h :
  h `prefix_of` final_state (App.updateWorkflowWithImage workflow A h).
Proof. rewrite App_updateWorkflowWithImage_rules. apply update_workflow_prefix. Qed.

Lemma Server_update_outcome workflow A h :
  h `prefix_of` final_state (Server.updateWorkflowWithImage workflow A h).
Proof. rewrite Server_updateWorkflowWithImage_rules. apply update_workflow_prefix. Qed.

Lemma posts_health log : posts (log ++ [health_request]) = posts log.
Proof. rewrite posts_app. unfold posts. simpl. lia. Qed.

Lemma posts_prompt log J now :
  posts (log ++ [health_request; prompt_request J now]) = S (posts log).
Proof. rewrite posts_app. unfold posts. simpl. lia. Qed.

Ltac dispatch_done :=
  eexists _, _; (split; [reflexivity|]); simpl;
  (split; [done|]); (split; [by eauto|]);
  first [done|intros _; apply posts_prompt].

(** X7. A dispatch never throws.  However its fetches settle, it returns
    a result: it sends the health probe first and then at most one
    submission, a result of success means that the submission was sent, and
    the store is only extended.  Stated for each variant on how its own
    fetches settle; a fetch that stays pending, which [src/app.js] does not
    exclude, is outside the statement. *)
Theorem dispatch_never_throws now workflow filename w :
  (∀ service,
     ∃ r w', App.queueComfyUIPrompt service now workflow filename w = Ret r w'
       ∧ store w `prefix_of` store w'
       ∧ (calls w' = calls w ++ [health_request]
          ∨ ∃ J, calls w' = calls w ++ [health_request; prompt_request J now])
       ∧ (success r = true → posts (calls w') = S (posts (calls w))))
  ∧ (∀ service,
     ∃ r w', Server.queueComfyUIPrompt service now workflow filename w = Ret r w'
       ∧ store w `prefix_of` store w'
       ∧ (calls w' = calls w ++ [health_request]
          ∨ ∃ J, calls w' = calls w ++ [health_request; prompt_request J now])
       ∧ (success r = true → posts (calls w') = S (posts (calls w)))).
Proof.
  split; intros service.
  - pose proof (App_update_outcome workflow filename (store w)) as Hpre.
    unfold App.queueComfyUIPrompt, try_catch, bind, fetch, on_store, prompt_data.
    change (Request "GET" (App.COMFYUI_API_URL +:+ "/system_stats") None)
      with health_request.
    destruct (service (calls w) health_request) as [rh|e]; simpl;
      [|dispatch_done].
    destruct (ok rh); simpl; [|dispatch_done].
    destruct (App.updateWorkflowWithImage workflow filename (store w))
      as [v h'|e h']; simpl in *;
      [|dispatch_done].
    destruct (JSON_stringify h' v) as [J|]; simpl;
      [|dispatch_done].
    change (Request "POST" _ _) with (prompt_request J now).
    rewrite <-!app_assoc. simpl.
    destruct (service _ (prompt_request J now)) as [rp|e]; simpl;
      [|dispatch_done].
    destruct (ok rp); simpl; [|dispatch_done].
    unfold response_json.
    destruct (json_body rp) as [result|]; simpl;
      [|dispatch_done].
    destruct result; simpl; dispatch_done.
  - pose proof (Server_update_outcome workflow filename (store w)) as Hpre.
    unfold Server.queueComfyUIPrompt, try_catch, bind, fetch, on_store, prompt_data.
    change (Request "GET" (Server.COMFYUI_API_URL +:+ "/system_stats") None)
      with health_request.
    destruct (service (calls w) health_request) as [rh|e]; simpl;
      [|dispatch_done].
    destruct (ok rh); simpl; [|dispatch_done].
    destruct (Server.updateWorkflowWithImage workflow filename (store w))
      as [v h'|e h']; simpl in *;
      [|dispatch_done].
    destruct (JSON_stringify h' v) as [J|]; simpl;
      [|dispatch_done].
    change (Request "POST" _ _) with (prompt_request J now).
    rewrite <-!app_assoc. simpl.
    destruct (service _ (prompt_request J now)) as [rp|e]; simpl;
      [|dispatch_done].
    destruct (ok rp); simpl; [|dispatch_done].
    unfold response_json.
    destruct (json_body rp) as [result|]; simpl;
      [|dispatch_done].
    destruct result; simpl; dispatch_done.
Qed.

(** One call on a template that was loaded from the document [T]. *)
Lemma update_loaded rs T h0 h :
  let workflow := (JSON_parse T h0).2 in
  (JSON_parse T h0).1 `prefix_of` h →
  ∃ h', h `prefix_of` h' ∧ JSON_stringify h' workflow = Some T ∧
    match patched rs T with
    | Some J => ∃ v, update_workflow (run_rules rs) workflow h = Ret v h'
                     ∧ JSON_stringify h' v = Some J
    | None => update_workflow (run_rules rs) workflow h
              = Throw (cannot_read "class_type") h'
    end.
Proof.
  intros workflow Hpre.
  destruct (update_workflow_repr rs workflow h T) as (h' & Hpre' & Hrun).
  { by apply loaded_template_kept. }
  exists h'. split; [done|]. split.
  { apply loaded_template_kept. by etrans. }
  destruct (patched rs T) as [J|]; [|done].
  destruct Hrun as (v & ? & Hr). exists v. split; [done|].
  by eapply repr_JSON_stringify.
Qed.

Ltac refute_accepts :=
  first
    [ done
    | intros (? & ? & ? & ? & ? & ? & ? & ? & ? & ? & ?); simplify_eq; congruence
    | intros ? ? ? (? & ? & ? & ? & ? & ? & ? & ?); simplify_eq; congruence ].

(** X8. With a template loaded from the document [T], a dispatch returns
    success exactly when the service is healthy, the template has no [null]
    node, and the submission of the patched job is accepted with a JSON
    answer other than [null].  The job sent is [patch(T, filename)], the
    result carries the [prompt_id] and [number] of the answer, and the
    template still reads as [T] afterwards.  In both variants. *)
Theorem dispatch_queues_patched_job service now filename w T h0 :
  let workflow := (JSON_parse T h0).2 in
  (JSON_parse T h0).1 `prefix_of` store w →
  (∃ r w', App.queueComfyUIPrompt service now workflow filename w = Ret r w'
     ∧ JSON_stringify (store w') workflow = Some T
     ∧ (success r = true
        ↔ ∃ J result, App.patch T filename = Some J
                      ∧ accepts service (calls w) now J result)
     ∧ (∀ J result,
          App.patch T filename = Some J → accepts service (calls w) now J result →
          r = Queued (jget result "prompt_id") (jget result "number")
          ∧ calls w' = calls w ++ [health_request; prompt_request J now]))
  ∧ (∃ r w', Server.queueComfyUIPrompt service now workflow filename w = Ret r w'
     ∧ JSON_stringify (store w') workflow = Some T
     ∧ (success r = true
        ↔ ∃ J result, Server.patch T filename = Some J
                      ∧ accepts service (calls w) now J result)
     ∧ (∀ J result,
          Server.patch T filename = Some J → accepts service (calls w) now J result →
          r = Queued (jget result "prompt_id") (jget result "number")
          ∧ calls w' = calls w ++ [health_request; prompt_request J now])).
Proof.
  intros workflow Hpre.
  assert (JSON_stringify (store w) workflow = Some T) as HT
    by (by apply loaded_template_kept).
  split.
  - destruct (update_loaded (App.rules filename) T h0 (store w) Hpre)
      as (h' & Hpre' & HT' & Hrun).
    rewrite <-App_updateWorkflowWithImage_rules, <-App_patch_patched in Hrun.
    fold workflow in Hrun, HT'.
    unfold App.queueComfyUIPrompt, try_catch, bind, fetch, on_store, prompt_data,
      accepts.
    change (Request "GET" (App.COMFYUI_API_URL +:+ "/system_stats") None)
      with health_request.
    destruct (service (calls w) health_request) as [rh|e] eqn:Hh; simpl.
    2:{ eexists _, _. split; [done|]. simpl. split; [done|].
        split; [split|]; refute_accepts. }
    destruct (ok rh) eqn:Hokh; simpl.
    2:{ eexists _, _. split; [done|]. simpl. split; [done|].
        split; [split|]; refute_accepts. }
    destruct (App.patch T filename) as [J|] eqn:HJ.
    2:{ rewrite Hrun. simpl. eexists _, _. split; [done|]. simpl.
        split; [done|]. split; [split|]; refute_accepts. }
    destruct Hrun as (v & -> & Hv). simpl. rewrite Hv. simpl.
    change (Request "POST" _ _) with (prompt_request J now).
    rewrite <-!app_assoc. simpl.
    destruct (service _ (prompt_request J now)) as [rp|e] eqn:Hp; simpl.
    2:{ eexists _, _. split; [done|]. simpl. split; [done|].
        split; [split|]; refute_accepts. }
    destruct (ok rp) eqn:Hokp; simpl.
    2:{ eexists _, _. split; [done|]. simpl. split; [done|].
        split; [split|]; refute_accepts. }
    unfold response_json.
    destruct (json_body rp) as [result|] eqn:Hres; simpl.
    2:{ eexists _, _. split; [done|]. simpl. split; [done|].
        split; [split|]; refute_accepts. }
    assert (result = JNull ∨ result ≠ JNull) as [->|Hnn]
      by (destruct result; auto).
    { simpl. eexists _, _. split; [done|]. simpl. split; [done|].
      split; [split|]; refute_accepts. }
    rewrite !(jprop_not_null result) by done. simpl.
    eexists _, _. split; [done|]. simpl. split; [done|]. split; [split|].
    + intros _. exists J, result. split; [done|]. by exists rh, rp.
    + done.
    + intros J' result' [= <-] (rh' & rp' & _ & _ & Hp' & _ & Hres' & _).
      pose proof (eq_trans (eq_sym Hp) Hp') as [= <-].
      rewrite Hres in Hres'. by injection Hres' as <-.
  - destruct (update_loaded (Server.rules filename) T h0 (store w) Hpre)
      as (h' & Hpre' & HT' & Hrun).
    rewrite <-Server_updateWorkflowWithImage_rules, <-Server_patch_patched in Hrun.
    fold workflow in Hrun, HT'.
    unfold Server.queueComfyUIPrompt, try_catch, bind, fetch, on_store,
      prompt_data, accepts.
    change (Request "GET" (Server.COMFYUI_API_URL +:+ "/system_stats") None)
      with health_request.
    destruct (service (calls w) health_request) as [rh|e] eqn:Hh; simpl.
    2:{ eexists _, _. split; [done|]. simpl. split; [done|].
        split; [split|]; refute_accepts. }
    destruct (ok rh) eqn:Hokh; simpl.
    2:{ eexists _, _. split; [done|]. simpl. split; [done|].
        split; [split|]; refute_accepts. }
    destruct (Server.patch T filename) as [J|] eqn:HJ.
    2:{ rewrite Hrun. simpl. eexists _, _. split; [done|]. simpl.
        split; [done|]. split; [split|]; refute_accepts. }
    destruct Hrun as (v & -> & Hv). simpl. rewrite Hv. simpl.
    change (Request "POST" _ _) with (prompt_request J now).
    rewrite <-!app_assoc. simpl.
    destruct (service _ (prompt_request J now)) as [rp|e] eqn:Hp; simpl.
    2:{ eexists _, _. split; [done|]. simpl. split; [done|].
        split; [split|]; refute_accepts. }
    destruct (ok rp) eqn:Hokp; simpl.
    2:{ eexists _, _. split; [done|]. simpl. split; [done|].
        split; [split|]; refute_accepts. }
    unfold response_json.
    destruct (json_body rp) as [result|] eqn:Hres; simpl.
    2:{ eexists _, _. split; [done|]. simpl. split; [done|].
        split; [split|]; refute_accepts. }
    assert (result = JNull ∨ result ≠ JNull) as [->|Hnn]
      by (destruct result; auto).
    { simpl. eexists _, _. split; [done|]. simpl. split; [done|].
      split; [split|]; refute_accepts. }
    rewrite !(jprop_not_null result) by done. simpl.
    eexists _, _. split; [done|]. simpl. split; [done|]. split; [split|].
    + intros _. exists J, result. split; [done|]. by exists rh, rp.
    + done.
    + intros J' result' [= <-] (rh' & rp' & _ & _ & Hp' & _ & Hres' & _).
      pose proof (eq_trans (eq_sym Hp) Hp') as [= <-].
      rewrite Hres in Hres'. by injection Hres' as <-.
Qed.

Lemma dispatch_queues_patched_job_witness :
  ∃ r w',
    App.queueComfyUIPrompt accepting_service 0 (JSON_parse scenario_template []).2
      "webcam_input.jpg" (Net (JSON_parse scenario_template []).1 [])
    = Ret r w'
    ∧ JSON_stringify (store w') (JSON_parse scenario_template []).2
      = Some scenario_template.
Proof.
  destruct (dispatch_queues_patched_job accepting_service 0 "webcam_input.jpg"
              (Net (JSON_parse scenario_template []).1 []) scenario_template []
              ltac:(reflexivity))
    as [(r & w' & H1 & H2 & _) _].
  by exists r, w'.
Defined.

(** X9. A template with a [null] node is never submitted: with a healthy
    service the dispatch returns the failure whose detail is the message of
    the [TypeError], and the health probe is the only request sent.  In both
    variants. *)
Theorem null_node_never_submitted service now filename w T h0 k :
  let workflow := (JSON_parse T h0).2 in
  (JSON_parse T h0).1 `prefix_of` store w →
  jget T k = Some JNull →
  healthCheck service (calls w) = true →
  (∃ h', App.queueComfyUIPrompt service now workflow filename w
         = Ret (Failed "Cannot read properties of null (reading 'class_type')")
               (Net h' (calls w ++ [health_request])))
  ∧ (∃ h', Server.queueComfyUIPrompt service now workflow filename w
           = Ret (Failed "Cannot read properties of null (reading 'class_type')")
                 (Net h' (calls w ++ [health_request]))).
Proof.
  intros workflow Hpre Hk Hh. unfold healthCheck in Hh.
  destruct (service (calls w) health_request) as [rh|] eqn:Hs; [|done].
  split.
  - destruct (update_loaded (App.rules filename) T h0 (store w) Hpre)
      as (h' & _ & _ & Hrun).
    rewrite (patched_null _ T k) in Hrun by (by eauto).
    rewrite <-App_updateWorkflowWithImage_rules in Hrun. fold workflow in Hrun.
    exists h'.
    unfold App.queueComfyUIPrompt, try_catch, bind, fetch, on_store.
    change (Request "GET" (App.COMFYUI_API_URL +:+ "/system_stats") None)
      with health_request.
    rewrite Hs, Hh. simpl. by rewrite Hrun.
  - destruct (update_loaded (Server.rules filename) T h0 (store w) Hpre)
      as (h' & _ & _ & Hrun).
    rewrite (patched_null _ T k) in Hrun by (by eauto).
    rewrite <-Server_updateWorkflowWithImage_rules in Hrun. fold workflow in Hrun.
    exists h'.
    unfold Server.queueComfyUIPrompt, try_catch, bind, fetch, on_store.
    change (Request "GET" (Server.COMFYUI_API_URL +:+ "/system_stats") None)
      with health_request.
    rewrite Hs, Hh. simpl. by rewrite Hrun.
Qed.

Lemma null_node_never_submitted_witness :
  ∃ h', App.queueComfyUIPrompt accepting_service 0
          (JSON_parse null_node_template []).2 "webcam_input.jpg"
          (Net (JSON_parse null_node_template []).1 [])
        = Ret (Failed "Cannot read properties of null (reading 'class_type')")
              (Net h' [health_request]).
Proof.
  apply (null_node_never_submitted accepting_service 0 "webcam_input.jpg"
           (Net (JSON_parse null_node_template []).1 []) null_node_template [] "2");
    reflexivity.
Defined.

(** X10. A submission that the service accepts with an answer that is no
    JSON text, or is [null], is reported as a failure although the job was
    sent.  In both variants. *)
Theorem accepted_job_reported_failed service now filename w T h0 rh rp :
  let workflow := (JSON_parse T h0).2 in
  (JSON_parse T h0).1 `prefix_of` store w →
  service (calls w) health_request = Resolved rh → ok rh = true →
  ok rp = true → json_body rp = None ∨ json_body rp = Some JNull →
  (∀ J, App.patch T filename = Some J →
        service (calls w ++ [health_request]) (prompt_request J now) = Resolved rp →
        ∃ detail h',
          App.queueComfyUIPrompt service now workflow filename w
          = Ret (Failed detail)
                (Net h' (calls w ++ [health_request; prompt_request J now])))
  ∧ (∀ J, Server.patch T filename = Some J →
        service (calls w ++ [health_request]) (prompt_request J now) = Resolved rp →
        ∃ detail h',
          Server.queueComfyUIPrompt service now workflow filename w
          = Ret (Failed detail)
                (Net h' (calls w ++ [health_request; prompt_request J now]))).
Proof.
  intros workflow Hpre Hs Hokh Hokp Hbody. split; intros J HJ Hp.
  - destruct (update_loaded (App.rules filename) T h0 (store w) Hpre)
      as (h' & _ & _ & Hrun).
    rewrite <-App_updateWorkflowWithImage_rules, <-App_patch_patched, HJ in Hrun.
    fold workflow in Hrun. destruct Hrun as (v & Hrun & Hv).
    unfold App.queueComfyUIPrompt, try_catch, bind, fetch, on_store, prompt_data.
    change (Request "GET" (App.COMFYUI_API_URL +:+ "/system_stats") None)
      with health_request.
    rewrite Hs, Hokh. simpl. rewrite Hrun. simpl. rewrite Hv. simpl.
    change (Request "POST" _ _) with (prompt_request J now).
    rewrite Hp, Hokp. simpl. unfold response_json. rewrite <-app_assoc.
    destruct Hbody as [-> | ->]; simpl; eauto.
  - destruct (update_loaded (Server.rules filename) T h0 (store w) Hpre)
      as (h' & _ & _ & Hrun).
    rewrite <-Server_updateWorkflowWithImage_rules, <-Server_patch_patched, HJ
      in Hrun.
    fold workflow in Hrun. destruct Hrun as (v & Hrun & Hv).
    unfold Server.queueComfyUIPrompt, try_catch, bind, fetch, on_store, prompt_data.
    change (Request "GET" (Server.COMFYUI_API_URL +:+ "/system_stats") None)
      with health_request.
    rewrite Hs, Hokh. simpl. rewrite Hrun. simpl. rewrite Hv. simpl.
    change (Request "POST" _ _) with (prompt_request J now).
    rewrite Hp, Hokp. simpl. unfold response_json. rewrite <-app_assoc.
    destruct Hbody as [-> | ->]; simpl; eauto.
Qed.

Lemma accepted_job_reported_failed_witness :
  ∃ detail h',
    App.queueComfyUIPrompt garbled_service 0 (JSON_parse scenario_template []).2
      "webcam_input.jpg" (Net (JSON_parse scenario_template []).1 [])
    = Ret (Failed detail)
          (Net h' [health_request;
                   prompt_request
                     (JObj [("1", JObj [("class_type", JStr "LoadImage");
                                        ("inputs", JObj [("image", JStr "webcam_input.jpg")])]);
                            ("2", JObj [("class_type", JStr "SaveGLB");
                                        ("inputs", JObj [("filename_prefix", JStr "mesh/webcam_3d_mesh");
                                                         ("mesh", JArr [JStr "7"; JNum 0])])])])
                     0]).
Proof.
  apply (proj1 (accepted_job_reported_failed garbled_service 0 "webcam_input.jpg"
                  (Net (JSON_parse scenario_template []).1 []) scenario_template []
                  (Response 200 "OK" "{}" (Some (JObj [])))
                  (Response 200 "OK" "<html>" None)
                  ltac:(reflexivity) eq_refl eq_refl eq_refl (or_introl eq_refl)));
    by vm_compute.
Defined.

(** ** Start-up *)

Lemma JSON_parse_empty h :
  JSON_parse (JObj []) h = (h ++ [CObj []], VRef (length h)).
Proof. reflexivity. Qed.

Lemma JSON_parse_extends T h : h `prefix_of` (JSON_parse T h).1.
Proof. destruct (JSON_parse_repr T h) as (ext & v & -> & _). by exists ext. Qed.

Lemma loaded_repr T h0 h :
  (JSON_parse T h0).1 `prefix_of` h →
  ∃ lo hi, repr h (JSON_parse T h0).2 T lo hi.
Proof.
  destruct (JSON_parse_repr T h0) as (ext & v & -> & Hr). simpl. intros Hpre.
  eexists _, _. by eapply repr_prefix.
Qed.

(** [Object.keys] of a loaded template. *)
Lemma Object_keys_loaded T h0 h :
  (JSON_parse T h0).1 `prefix_of` h → T ≠ JNull →
  Object_keys (JSON_parse T h0).2 h = Ret (jkeys T) h.
Proof.
  intros Hpre HT. destruct (loaded_repr T h0 h Hpre) as (lo & hi & Hr).
  destruct (repr_entries _ _ _ _ _ Hr) as (mid & _ & _ & Hc).
  apply chain_keys in Hc. unfold Object_keys, jkeys. rewrite <-Hc.
  by destruct Hr.
Qed.

(** X11. Start-up never throws, whatever is at the path of the workflow
    file.  With no file, or with a file that cannot be read or parsed, the
    template is the empty object, as if the file held [{}]; with a file that
    reads as the document [T] the template is [T] loaded in the store.  Both
    variants end in the same state, and no object that existed before is
    written. *)
Theorem startup_loads_template file h0 v0 :
  let T := match file with JsonFile T => T | _ => JObj [] end in
  ∃ h1, h0 `prefix_of` h1
    ∧ App.load_template file (Globals h0 v0)
      = Ret tt (Globals (JSON_parse T h1).1 (JSON_parse T h1).2)
    ∧ Server.load_template file (Globals h0 v0)
      = Ret tt (Globals (JSON_parse T h1).1 (JSON_parse T h1).2).
Proof.
  destruct file as [|e|T]; simpl.
  - exists h0. split; [done|]. split; reflexivity.
  - exists h0. split; [done|]. split; reflexivity.
  - exists (h0 ++ [CObj []]). split; [by exists [CObj []]|].
    unfold App.load_template, Server.load_template, try_catch, bind,
      in_globals, parse_document, assign_template, new_object. simpl.
    destruct (JSON_parse T (h0 ++ [CObj []])) as [h' v] eqn:Hp. simpl.
    split; [done|].
    assert (T = JNull ∨ T ≠ JNull) as [->|HT] by (destruct T; auto).
    { by injection Hp as <- <-. }
    pose proof (Object_keys_loaded T (h0 ++ [CObj []]) h') as Hkeys.
    rewrite Hp in Hkeys. simpl in Hkeys. by rewrite Hkeys.
Qed.

(** ** The capture handler, further *)

Section capture_more.
Context {fs : Type}.
Variable writeFileSync : string → string → fs → exn + fs.
Variable path_join : string → string → string.
Variable Buffer_from_base64 : string → string.

Lemma jtruthy_frame s : s ≠ "" → jtruthy (Some (JStr s)) = true.
Proof. intros. simpl. by rewrite bool_decide_eq_false_2. Qed.

Lemma App_capture_stored workflowTemplate body s h d d1 ts keys :
  jget body "imageData" = Some (JStr s) → s ≠ "" →
  writeFileSync (path_join App.COMFYUI_INPUT_FOLDER "webcam_input.jpg")
                (Buffer_from_base64 (strip_data_url s)) d = inr d1 →
  Object_keys workflowTemplate h = Ret keys h →
  App.save_frame writeFileSync path_join Buffer_from_base64 workflowTemplate body
    (Process h d ts None)
  = Ret tt
      (Process h d1
         (if bool_decide (0 < length keys)
          then ts ++ [Timer 5000 workflowTemplate "webcam_input.jpg"] else ts)
         (Some (Reply 200 (JObj [
            ("success", JBool true);
            ("message", JStr ("Frame saved to " +:+
               path_join App.COMFYUI_INPUT_FOLDER "webcam_input.jpg"));
            ("filename", JStr "webcam_input.jpg");
            ("path", JStr (path_join App.COMFYUI_INPUT_FOLDER "webcam_input.jpg"));
            ("comfyui_enabled", JBool (bool_decide (0 < length keys)));
            ("delay_seconds", JNum 5);
            ("overwrite_mode", JBool true) ])))).
Proof.
  intros Hd Hs Hw Hkeys.
  assert (body ≠ JNull) as Hb by (by intros ->).
  unfold App.save_frame, try_catch, bind.
  rewrite (jprop_not_null body) by done. rewrite Hd, jtruthy_frame by done.
  simpl. unfold write_file. simpl.
  unfold App.INPUT_FILENAME. rewrite Hw. simpl.
  unfold in_store. simpl. rewrite Hkeys. simpl. rewrite Hkeys. simpl.
  by case_bool_decide.
Qed.

Lemma Server_capture_stored workflowTemplate body s h d d1 ts keys :
  jget body "imageData" = Some (JStr s) → s ≠ "" →
  writeFileSync (path_join Server.COMFYUI_INPUT_FOLDER "webcam_input.jpg")
                (Buffer_from_base64 (strip_data_url s)) d = inr d1 →
  Object_keys workflowTemplate h = Ret keys h →
  Server.save_frame writeFileSync path_join Buffer_from_base64 workflowTemplate body
    (Process h d ts None)
  = Ret tt
      (Process h d1
         (if bool_decide (0 < length keys)
          then ts ++ [Timer 5000 workflowTemplate "webcam_input.jpg"] else ts)
         (Some (Reply 200 (JObj [
            ("success", JBool true);
            ("message", JStr ("Frame saved to " +:+
               path_join Server.COMFYUI_INPUT_FOLDER "webcam_input.jpg"));
            ("filename", JStr "webcam_input.jpg");
            ("path", JStr (path_join Server.COMFYUI_INPUT_FOLDER "webcam_input.jpg"));
            ("comfyui_enabled", JBool (bool_decide (0 < length keys)));
            ("delay_seconds", JNum 5);
            ("mesh_folder", JStr Server.MODEL_MESH_FOLDER) ])))).
Proof.
  intros Hd Hs Hw Hkeys.
  assert (body ≠ JNull) as Hb by (by intros ->).
  unfold Server.save_frame, try_catch, bind.
  rewrite (jprop_not_null body) by done. rewrite Hd, jtruthy_frame by done.
  simpl. unfold write_file. simpl.
  unfold Server.INPUT_FILENAME. rewrite Hw. simpl.
  unfold in_store. simpl. rewrite Hkeys. simpl. rewrite Hkeys. simpl.
  by case_bool_decide.
Qed.

(** X12. A request whose body has no [imageData], or a falsy one (the empty
    string, [0], [false], [null]), is answered 400 with
    [{error: 'Missing imageData'}]: nothing is written, nothing is
    scheduled, whatever the template.  In both variants. *)
Theorem capture_refuses_missing_frame workflowTemplate body p :
  body ≠ JNull → jtruthy (jget body "imageData") = false →
  App.save_frame writeFileSync path_join Buffer_from_base64 workflowTemplate body p
  = Ret tt (Process (heap_of p) (disk p) (timers p) (Some missing_frame))
  ∧ Server.save_frame writeFileSync path_join Buffer_from_base64 workflowTemplate
      body p
    = Ret tt (Process (heap_of p) (disk p) (timers p) (Some missing_frame)).
Proof.
  intros Hb Hd. unfold App.save_frame, Server.save_frame, try_catch, bind.
  rewrite !(jprop_not_null body) by done. by rewrite Hd.
Qed.

(** X13. With a template loaded from a document [T] other than [null], a
    request that carries a frame whose write succeeds leaves the written
    disk, is answered 200 with [comfyui_enabled] telling whether [T] has a
    key, and schedules one dispatch of the template for ["webcam_input.jpg"]
    after 5000 ms exactly when it has; the store is not touched.  In both
    variants. *)
Theorem capture_stores_and_schedules T h0 body s h d ts dA dS :
  let workflowTemplate := (JSON_parse T h0).2 in
  let enabled := bool_decide (0 < length (jkeys T)) in
  (JSON_parse T h0).1 `prefix_of` h → T ≠ JNull →
  jget body "imageData" = Some (JStr s) → s ≠ "" →
  writeFileSync (path_join App.COMFYUI_INPUT_FOLDER "webcam_input.jpg")
                (Buffer_from_base64 (strip_data_url s)) d = inr dA →
  writeFileSync (path_join Server.COMFYUI_INPUT_FOLDER "webcam_input.jpg")
                (Buffer_from_base64 (strip_data_url s)) d = inr dS →
  App.save_frame writeFileSync path_join Buffer_from_base64 workflowTemplate body
    (Process h d ts None)
  = Ret tt
      (Process h dA
         (if enabled
          then ts ++ [Timer 5000 workflowTemplate "webcam_input.jpg"] else ts)
         (Some (Reply 200 (JObj [
            ("success", JBool true);
            ("message", JStr ("Frame saved to " +:+
               path_join App.COMFYUI_INPUT_FOLDER "webcam_input.jpg"));
            ("filename", JStr "webcam_input.jpg");
            ("path", JStr (path_join App.COMFYUI_INPUT_FOLDER "webcam_input.jpg"));
            ("comfyui_enabled", JBool enabled);
            ("delay_seconds", JNum 5);
            ("overwrite_mode", JBool true) ]))))
  ∧ Server.save_frame writeFileSync path_join Buffer_from_base64 workflowTemplate
      body (Process h d ts None)
    = Ret tt
        (Process h dS
           (if enabled
            then ts ++ [Timer 5000 workflowTemplate "webcam_input.jpg"] else ts)
           (Some (Reply 200 (JObj [
              ("success", JBool true);
              ("message", JStr ("Frame saved to " +:+
                 path_join Server.COMFYUI_INPUT_FOLDER "webcam_input.jpg"));
              ("filename", JStr "webcam_input.jpg");
              ("path", JStr (path_join Server.COMFYUI_INPUT_FOLDER "webcam_input.jpg"));
              ("comfyui_enabled", JBool enabled);
              ("delay_seconds", JNum 5);
              ("mesh_folder", JStr Server.MODEL_MESH_FOLDER) ])))).
Proof.
  intros wt enabled Hpre HT Hd Hs HwA HwS.
  pose proof (Object_keys_loaded T h0 h Hpre HT) as Hkeys.
  split.
  - by apply (App_capture_stored _ _ s).
  - by apply (Server_capture_stored _ _ s).
Qed.

(** X14. A request is answered 500 with [{error: 'Failed to save frame'}]
    and schedules nothing when its [imageData] is truthy but no string
    (nothing is written) and when the write of the frame fails (the disk is
    as it was), whatever the template.  In both variants. *)
Theorem capture_failures workflowTemplate body h d ts :
  (∀ x, jget body "imageData" = Some x → jtruthy (Some x) = true →
        (∀ s, x ≠ JStr s) →
        App.save_frame writeFileSync path_join Buffer_from_base64
          workflowTemplate body (Process h d ts None)
        = Ret tt (Process h d ts (Some save_failed))
        ∧ Server.save_frame writeFileSync path_join Buffer_from_base64
            workflowTemplate body (Process h d ts None)
          = Ret tt (Process h d ts (Some save_failed)))
  ∧ (∀ s e, jget body "imageData" = Some (JStr s) → s ≠ "" →
        writeFileSync (path_join App.COMFYUI_INPUT_FOLDER "webcam_input.jpg")
                      (Buffer_from_base64 (strip_data_url s)) d = inl e →
        App.save_frame writeFileSync path_join Buffer_from_base64
          workflowTemplate body (Process h d ts None)
        = Ret tt (Process h d ts (Some save_failed)))
  ∧ (∀ s e, jget body "imageData" = Some (JStr s) → s ≠ "" →
        writeFileSync (path_join Server.COMFYUI_INPUT_FOLDER "webcam_input.jpg")
                      (Buffer_from_base64 (strip_data_url s)) d = inl e →
        Server.save_frame writeFileSync path_join Buffer_from_base64
          workflowTemplate body (Process h d ts None)
        = Ret tt (Process h d ts (Some save_failed))).
Proof.
  split; [|split].
  - intros x Hd Htr Hx.
    assert (body ≠ JNull) as Hb by (by intros ->).
    unfold App.save_frame, Server.save_frame, try_catch, bind.
    rewrite !(jprop_not_null body) by done. rewrite Hd, Htr. simpl.
    destruct x as [| | |s| |]; try done. by destruct (Hx s).
  - intros s e Hd Hs Hw.
    assert (body ≠ JNull) as Hb by (by intros ->).
    unfold App.save_frame, try_catch, bind.
    rewrite (jprop_not_null body) by done. rewrite Hd, jtruthy_frame by done.
    simpl. unfold write_file. simpl. unfold App.INPUT_FILENAME. by rewrite Hw.
  - intros s e Hd Hs Hw.
    assert (body ≠ JNull) as Hb by (by intros ->).
    unfold Server.save_frame, try_catch, bind.
    rewrite (jprop_not_null body) by done. rewrite Hd, jtruthy_frame by done.
    simpl. unfold write_file. simpl. unfold Server.INPUT_FILENAME. by rewrite Hw.
Qed.
End capture_more.

Lemma capture_refuses_missing_frame_witness :
  App.save_frame write_always join_slash (λ data, data) (VRef 0)
    (JObj [("imageData", JStr "")]) (Process [CObj []] [] [] None)
  = Ret tt (Process [CObj []] [] [] (Some missing_frame)).
Proof.
  apply (capture_refuses_missing_frame write_always join_slash (λ data, data)
           (VRef 0) (JObj [("imageData", JStr "")]) (Process [CObj []] [] [] None));
    done.
Defined.

Lemma capture_stores_and_schedules_witness :
  timers (final_state
            (App.save_frame write_always join_slash (λ data, data)
               (JSON_parse scenario_template []).2 frame_request
               (Process (JSON_parse scenario_template []).1 [] [] None)))
  = [Timer 5000 (JSON_parse scenario_template []).2 "webcam_input.jpg"].
Proof.
  rewrite (proj1 (capture_stores_and_schedules write_always join_slash
                    (λ data, data) scenario_template [] frame_request
                    "data:image/jpeg;base64,AAAA"
                    (JSON_parse scenario_template []).1 [] [] _ _
                    ltac:(reflexivity) ltac:(done) eq_refl ltac:(done)
                    eq_refl eq_refl)).
  reflexivity.
Defined.

Lemma drop_prefix_app p s : drop_prefix p (p +:+ s) = Some s.
Proof.
  induction p as [|a p IH]; [done|].
  change (drop_prefix (String a p) (String a (p +:+ s)) = Some s).
  simpl. by rewrite decide_True.
Qed.

Lemma drop_prefix_Some p s b : drop_prefix p s = Some b → s = p +:+ b.
Proof.
  revert s. induction p as [|a p IH]; intros s; simpl; [by intros [= ->]|].
  destruct s as [|a' s]; [done|]. case_decide; [|done].
  intros Hb. subst. change (String a' s = String a' (p +:+ b)).
  f_equal. by apply IH.
Qed.

Lemma strip_data_url_header b :
  strip_data_url ("data:image/jpeg;base64," +:+ b) = b.
Proof. unfold strip_data_url. by rewrite drop_prefix_app. Qed.

Lemma strip_data_url_other s :
  (∀ b, s ≠ "data:image/jpeg;base64," +:+ b) → strip_data_url s = s.
Proof.
  intros Hs. unfold strip_data_url.
  destruct (drop_prefix _ s) as [b|] eqn:Hb; [|done].
  apply drop_prefix_Some in Hb. by destruct (Hs b).
Qed.

Lemma Object_keys_outcome v h :
  (∃ keys, Object_keys v h = Ret keys h) ∨ (∃ e, Object_keys v h = Throw e h).
Proof. destruct v; simpl; eauto. Qed.

Section capture_effects.
Context {fs : Type}.
Variable writeFileSync : string → string → fs → exn + fs.
Variable path_join : string → string → string.
Variable Buffer_from_base64 : string → string.

Lemma App_capture_disk workflowTemplate body s h d d1 ts :
  jget body "imageData" = Some (JStr s) → s ≠ "" →
  writeFileSync (path_join App.COMFYUI_INPUT_FOLDER "webcam_input.jpg")
                (Buffer_from_base64 (strip_data_url s)) d = inr d1 →
  disk (final_state
          (App.save_frame writeFileSync path_join Buffer_from_base64
             workflowTemplate body (Process h d ts None))) = d1.
Proof.
  intros Hd Hs Hw. assert (body ≠ JNull) as Hb by (by intros ->).
  unfold App.save_frame, try_catch, bind.
  rewrite (jprop_not_null body) by done.
  rewrite Hd, (jtruthy_frame s) by done.
  simpl. unfold write_file. simpl. unfold App.INPUT_FILENAME. rewrite Hw. simpl.
  unfold in_store. simpl.
  destruct (Object_keys_outcome workflowTemplate h) as [[keys Hk]|[e Hk]];
    rewrite Hk; simpl; [|done]. rewrite Hk. simpl. by case_bool_decide.
Qed.

Lemma Server_capture_disk workflowTemplate body s h d d1 ts :
  jget body "imageData" = Some (JStr s) → s ≠ "" →
  writeFileSync (path_join Server.COMFYUI_INPUT_FOLDER "webcam_input.jpg")
                (Buffer_from_base64 (strip_data_url s)) d = inr d1 →
  disk (final_state
          (Server.save_frame writeFileSync path_join Buffer_from_base64
             workflowTemplate body (Process h d ts None))) = d1.
Proof.
  intros Hd Hs Hw. assert (body ≠ JNull) as Hb by (by intros ->).
  unfold Server.save_frame, try_catch, bind.
  rewrite (jprop_not_null body) by done.
  rewrite Hd, (jtruthy_frame s) by done.
  simpl. unfold write_file. simpl. unfold Server.INPUT_FILENAME. rewrite Hw. simpl.
  unfold in_store. simpl.
  destruct (Object_keys_outcome workflowTemplate h) as [[keys Hk]|[e Hk]];
    rewrite Hk; simpl; [|done]. rewrite Hk. simpl. by case_bool_decide.
Qed.

(** X15. What is written is the decoded payload: for a frame sent as a
    JPEG data URL the header ["data:image/jpeg;base64,"] is removed and the
    rest is decoded; any other non-empty string, a PNG data URL for
    instance, is decoded whole, header included.  The file is always
    [webcam_input.jpg] in the input folder, whatever the template.  In both
    variants. *)
Theorem capture_writes_payload workflowTemplate body h d ts d1 :
  (∀ b, jget body "imageData" = Some (JStr ("data:image/jpeg;base64," +:+ b)) →
     (writeFileSync (path_join App.COMFYUI_INPUT_FOLDER "webcam_input.jpg")
                    (Buffer_from_base64 b) d = inr d1 →
      disk (final_state
              (App.save_frame writeFileSync path_join Buffer_from_base64
                 workflowTemplate body (Process h d ts None))) = d1)
     ∧ (writeFileSync (path_join Server.COMFYUI_INPUT_FOLDER "webcam_input.jpg")
                      (Buffer_from_base64 b) d = inr d1 →
        disk (final_state
                (Server.save_frame writeFileSync path_join Buffer_from_base64
                   workflowTemplate body (Process h d ts None))) = d1))
  ∧ (∀ s, jget body "imageData" = Some (JStr s) → s ≠ "" →
     (∀ b, s ≠ "data:image/jpeg;base64," +:+ b) →
     (writeFileSync (path_join App.COMFYUI_INPUT_FOLDER "webcam_input.jpg")
                    (Buffer_from_base64 s) d = inr d1 →
      disk (final_state
              (App.save_frame writeFileSync path_join Buffer_from_base64
                 workflowTemplate body (Process h d ts None))) = d1)
     ∧ (writeFileSync (path_join Server.COMFYUI_INPUT_FOLDER "webcam_input.jpg")
                      (Buffer_from_base64 s) d = inr d1 →
        disk (final_state
                (Server.save_frame writeFileSync path_join Buffer_from_base64
                   workflowTemplate body (Process h d ts None))) = d1)).
Proof.
  split.
  - intros b Hd. split; intros Hw.
    + eapply App_capture_disk; [done..|]. by rewrite strip_data_url_header.
    + eapply Server_capture_disk; [done..|]. by rewrite strip_data_url_header.
  - intros s Hd Hs Hother. split; intros Hw.
    + eapply App_capture_disk; [done..|]. by rewrite strip_data_url_other.
    + eapply Server_capture_disk; [done..|]. by rewrite strip_data_url_other.
Qed.

(** X16. Whatever the request, the template and the file system do, the
    handler does not throw and sends a reply; the reply is 200, 400 or 500;
    the store is not touched; and at most one dispatch is scheduled, only
    together with a reply 200 that reports [comfyui_enabled] as true.  In
    both variants. *)
Theorem capture_always_replies workflowTemplate body h d ts :
  (∃ p' r,
     App.save_frame writeFileSync path_join Buffer_from_base64 workflowTemplate
       body (Process h d ts None) = Ret tt p'
     ∧ heap_of p' = h ∧ sent p' = Some r
     ∧ (reply_status r = 200 ∨ reply_status r = 400 ∨ reply_status r = 500)%Z
     ∧ (timers p' = ts
        ∨ timers p' = ts ++ [Timer 5000 workflowTemplate "webcam_input.jpg"]
          ∧ reply_status r = 200%Z
          ∧ jget (reply_body r) "comfyui_enabled" = Some (JBool true)))
  ∧ (∃ p' r,
     Server.save_frame writeFileSync path_join Buffer_from_base64 workflowTemplate
       body (Process h d ts None) = Ret tt p'
     ∧ heap_of p' = h ∧ sent p' = Some r
     ∧ (reply_status r = 200 ∨ reply_status r = 400 ∨ reply_status r = 500)%Z
     ∧ (timers p' = ts
        ∨ timers p' = ts ++ [Timer 5000 workflowTemplate "webcam_input.jpg"]
          ∧ reply_status r = 200%Z
          ∧ jget (reply_body r) "comfyui_enabled" = Some (JBool true))).
Proof.
  assert (body = JNull ∨ body ≠ JNull) as [->|Hb] by (destruct body; auto).
  { split; eexists _, _; (split; [reflexivity|]); simpl; auto 10. }
  unfold App.save_frame, Server.save_frame, try_catch, bind.
  rewrite !(jprop_not_null body) by done.
  destruct (jtruthy (jget body "imageData")) eqn:Htr; simpl.
  2:{ split; eexists _, _; (split; [reflexivity|]); simpl; auto 10. }
  destruct (jget body "imageData") as [[| | |s| |]|]; simpl;
    try (split; eexists _, _; (split; [reflexivity|]); simpl; by auto 10).
  unfold write_file, in_store. simpl.
  split.
  - destruct (writeFileSync _ _ d) as [e|d1]; simpl.
    { eexists _, _; (split; [reflexivity|]); simpl; auto 10. }
    destruct (Object_keys_outcome workflowTemplate h) as [[keys Hk]|[e Hk]];
      rewrite Hk; simpl.
    2:{ eexists _, _; (split; [reflexivity|]); simpl; auto 10. }
    rewrite Hk. simpl. case_bool_decide; simpl;
      eexists _, _; (split; [reflexivity|]); simpl; auto 10.
  - destruct (writeFileSync _ _ d) as [e|d1]; simpl.
    { eexists _, _; (split; [reflexivity|]); simpl; auto 10. }
    destruct (Object_keys_outcome workflowTemplate h) as [[keys Hk]|[e Hk]];
      rewrite Hk; simpl.
    2:{ eexists _, _; (split; [reflexivity|]); simpl; auto 10. }
    rewrite Hk. simpl. case_bool_decide; simpl;
      eexists _, _; (split; [reflexivity|]); simpl; auto 10.
Qed.
End capture_effects.

(** ** The other routes *)

Lemma App_connection_test service w :
  ∃ r b,
    App.test_comfyui service w
    = Ret r (Net (store w) (calls w ++ [health_request]))
    ∧ reply_status r = 200%Z
    ∧ jget (reply_body r) "success" = Some (JBool b)
    ∧ (b = true ↔ ∃ rh stats, service (calls w) health_request = Resolved rh
                               ∧ ok rh = true ∧ json_body rh = Some stats
                               ∧ jget (reply_body r) "stats" = Some stats)
    ∧ (b = true → healthCheck service (calls w) = true).
Proof.
  unfold App.test_comfyui, try_catch, bind, fetch, healthCheck.
  change (Request "GET" (App.COMFYUI_API_URL +:+ "/system_stats") None)
    with health_request.
  destruct (service (calls w) health_request) as [rh|e]; simpl.
  2:{ eexists _, false. repeat (split; [reflexivity|]). split; [|done].
      split; [done|]. by intros (? & ? & ? & _). }
  destruct (ok rh) eqn:Hok; simpl.
  2:{ eexists _, false. repeat (split; [reflexivity|]). split; [|done].
      split; [done|]. intros (? & ? & [= <-] & ? & _). congruence. }
  unfold response_json. destruct (json_body rh) as [stats|] eqn:Hbody; simpl.
  - eexists _, true. repeat (split; [reflexivity|]). split; [|done].
    split; [|done]. intros _. by exists rh, stats.
  - eexists _, false. repeat (split; [reflexivity|]). split; [|done].
    split; [done|]. intros (? & ? & [= <-] & ? & ? & _). congruence.
Qed.

Lemma Server_connection_test service w :
  ∃ r b,
    Server.test_comfyui service w
    = Ret r (Net (store w) (calls w ++ [health_request]))
    ∧ reply_status r = 200%Z
    ∧ jget (reply_body r) "success" = Some (JBool b)
    ∧ (b = true ↔ ∃ rh stats, service (calls w) health_request = Resolved rh
                               ∧ ok rh = true ∧ json_body rh = Some stats
                               ∧ jget (reply_body r) "stats" = Some stats)
    ∧ (b = true → healthCheck service (calls w) = true).
Proof.
  unfold Server.test_comfyui, try_catch, bind, fetch, healthCheck.
  change (Request "GET" (Server.COMFYUI_API_URL +:+ "/system_stats") None)
    with health_request.
  destruct (service (calls w) health_request) as [rh|e]; simpl.
  2:{ eexists _, false. repeat (split; [reflexivity|]). split; [|done].
      split; [done|]. by intros (? & ? & ? & _). }
  destruct (ok rh) eqn:Hok; simpl.
  2:{ eexists _, false. repeat (split; [reflexivity|]). split; [|done].
      split; [done|]. intros (? & ? & [= <-] & ? & _). congruence. }
  unfold response_json. destruct (json_body rh) as [stats|] eqn:Hbody; simpl.
  - eexists _, true. repeat (split; [reflexivity|]). split; [|done].
    split; [|done]. intros _. by exists rh, stats.
  - eexists _, false. repeat (split; [reflexivity|]). split; [|done].
    split; [done|]. intros (? & ? & [= <-] & ? & ? & _). congruence.
Qed.

(** X17. However its probe settles, the connection test sends the health
    probe and nothing else, does not throw and answers 200.  It reports
    success exactly when the probe resolves with a success status and a body
    that is JSON, which it passes on as [stats]; the health check of a
    dispatch that settles the same way then succeeds too.  Stated for each
    variant on how its own fetch settles; a fetch that stays pending, which
    [src/app.js] does not exclude, is outside the statement. *)
Theorem connection_test_only_probes w :
  (∀ service,
     ∃ r b,
       App.test_comfyui service w
       = Ret r (Net (store w) (calls w ++ [health_request]))
       ∧ reply_status r = 200%Z
       ∧ jget (reply_body r) "success" = Some (JBool b)
       ∧ (b = true ↔ ∃ rh stats, service (calls w) health_request = Resolved rh
                                  ∧ ok rh = true ∧ json_body rh = Some stats
                                  ∧ jget (reply_body r) "stats" = Some stats)
       ∧ (b = true → healthCheck service (calls w) = true))
  ∧ (∀ service,
     ∃ r b,
       Server.test_comfyui service w
       = Ret r (Net (store w) (calls w ++ [health_request]))
       ∧ reply_status r = 200%Z
       ∧ jget (reply_body r) "success" = Some (JBool b)
       ∧ (b = true ↔ ∃ rh stats, service (calls w) health_request = Resolved rh
                                  ∧ ok rh = true ∧ json_body rh = Some stats
                                  ∧ jget (reply_body r) "stats" = Some stats)
       ∧ (b = true → healthCheck service (calls w) = true)).
Proof.
  split; intros service;
    [apply App_connection_test|apply Server_connection_test].
Qed.

(** X18. With a template loaded from a document [T] other than [null],
    [/config] answers 200, without touching the store, with [workflowLoaded]
    telling whether [T] has a key: the flag that [/save-frame] reports as
    [comfyui_enabled].  In both variants. *)
Theorem config_reports_template T h0 h fs_exists :
  let workflowTemplate := (JSON_parse T h0).2 in
  (JSON_parse T h0).1 `prefix_of` h → T ≠ JNull →
  ∃ rA rS,
    App.config fs_exists workflowTemplate h = Ret rA h
    ∧ Server.config fs_exists workflowTemplate h = Ret rS h
    ∧ reply_status rA = 200%Z ∧ reply_status rS = 200%Z
    ∧ jget (reply_body rA) "workflowLoaded"
      = Some (JBool (bool_decide (0 < length (jkeys T))))
    ∧ jget (reply_body rS) "workflowLoaded"
      = Some (JBool (bool_decide (0 < length (jkeys T))))
    ∧ jget (reply_body rA) "exists"
      = Some (JBool (fs_exists App.COMFYUI_INPUT_FOLDER))
    ∧ jget (reply_body rS) "meshFolderExists"
      = Some (JBool (fs_exists Server.MODEL_MESH_FOLDER)).
Proof.
  intros wt Hpre HT. pose proof (Object_keys_loaded T h0 h Hpre HT) as Hkeys.
  unfold App.config, Server.config, bind. fold wt in Hkeys. rewrite Hkeys.
  eexists _, _. repeat (split; [reflexivity|]). reflexivity.
Qed.

Lemma config_reports_template_witness :
  ∃ rA rS,
    App.config (λ _, true) (JSON_parse scenario_template []).2
      (JSON_parse scenario_template []).1
    = Ret rA (JSON_parse scenario_template []).1
    ∧ Server.config (λ _, true) (JSON_parse scenario_template []).2
        (JSON_parse scenario_template []).1
      = Ret rS (JSON_parse scenario_template []).1
    ∧ reply_status rA = 200%Z ∧ reply_status rS = 200%Z
    ∧ jget (reply_body rA) "workflowLoaded" = Some (JBool true)
    ∧ jget (reply_body rS) "workflowLoaded" = Some (JBool true)
    ∧ jget (reply_body rA) "exists" = Some (JBool true)
    ∧ jget (reply_body rS) "meshFolderExists" = Some (JBool true).
Proof.
  apply (config_reports_template scenario_template []
           (JSON_parse scenario_template []).1 (λ _, true)
           ltac:(reflexivity)).
  done.
Defined.

(** ** The artifact index, further *)

Lemma sort_insert_filter {A} (key : A → Z) (t : Z) x l :
  filter (λ a, key a = t) (sort_insert (by_descending key) x l)
  = filter (λ a, key a = t) (x :: l).
Proof.
  induction l as [|y l IH]; simpl; [done|].
  unfold by_descending at 1. case_bool_decide as Hxy; [done|].
  rewrite (filter_cons _ y), IH, !(filter_cons _ x), (filter_cons _ y).
  repeat case_decide; try done; lia.
Qed.

(** The sort is stable: the elements with one key stay in their order. *)
Lemma Array_sort_stable {A} (key : A → Z) (t : Z) l :
  filter (λ a, key a = t) (Array_sort (by_descending key) l)
  = filter (λ a, key a = t) l.
Proof.
  induction l as [|x l IH]; simpl; [done|].
  by rewrite sort_insert_filter, !filter_cons, IH.
Qed.

Lemma endsWith_unfold s suffix :
  endsWith s suffix
  = bool_decide (s = suffix)
    || match s with
       | EmptyString => false
       | String _ s' => endsWith s' suffix
       end.
Proof. by destruct s. Qed.

Lemma endsWith_app s suffix : endsWith (s +:+ suffix) suffix = true.
Proof.
  induction s as [|c s IH].
  - change ("" +:+ suffix) with suffix.
    rewrite endsWith_unfold, bool_decide_eq_true_2 by done. done.
  - change (String c s +:+ suffix) with (String c (s +:+ suffix)).
    rewrite endsWith_unfold, IH. apply orb_true_r.
Qed.

Lemma endsWith_inv s suffix :
  endsWith s suffix = true → ∃ stem, s = stem +:+ suffix.
Proof.
  induction s as [|c s IH]; rewrite endsWith_unfold.
  - rewrite orb_false_r. intros ->%bool_decide_eq_true. by exists "".
  - intros [->%bool_decide_eq_true|Hs]%orb_true_iff; [by exists ""|].
    destruct (IH Hs) as [stem ->]. by exists (String c stem).
Qed.

Lemma toLowerCase_app s1 s2 :
  toLowerCase (s1 +:+ s2) = toLowerCase s1 +:+ toLowerCase s2.
Proof.
  induction s1 as [|c s1 IH]; [done|].
  change (String c s1 +:+ s2) with (String c (s1 +:+ s2)). simpl.
  rewrite IH. done.
Qed.

Lemma toLowerCase_length s : String.length (toLowerCase s) = String.length s.
Proof. induction s; simpl; auto. Qed.

Lemma toLowerCase_split s x y :
  toLowerCase s = x +:+ y →
  ∃ s1 s2, s = s1 +:+ s2 ∧ toLowerCase s1 = x ∧ toLowerCase s2 = y.
Proof.
  revert s. induction x as [|c x IH]; intros s.
  - intros Hs. by exists "", s.
  - change (String c x +:+ y) with (String c (x +:+ y)).
    destruct s as [|c' s]; [done|]. simpl. intros [= Hc Hs].
    destruct (IH s Hs) as (s1 & s2 & -> & <- & <-).
    exists (String c' s1), s2. by rewrite <-Hc.
Qed.

Section index_more.
Variable path_join : string → string → string.

Lemma findGLBFiles_dir es :
  Server.findGLBFiles path_join (Directory es)
  = from_option (Array_sort (by_descending created)) []
      (mapM (λ file, stats ← statSync (Directory es) file;
                     Some (Server.model path_join file stats))
            (filter (λ file, Server.isGLB file = true) es.*1)).
Proof.
  unfold Server.findGLBFiles.
  change (existsSync (Directory es)) with true.
  change (readdirSync (Directory es)) with (Some es.*1).
  simpl. by destruct (mapM _ _).
Qed.

Lemma findGLBFiles_not_dir mesh :
  (∀ es, mesh ≠ Directory es) → Server.findGLBFiles path_join mesh = [].
Proof. destruct mesh as [| |es]; try done. intros H. by destruct (H es). Qed.

Lemma models_names mesh names files :
  mapM (λ file, stats ← statSync mesh file;
                Some (Server.model path_join file stats)) names = Some files →
  name <$> files = names
  ∧ Forall (λ a, ∃ s, statSync mesh (name a) = Some s
                      ∧ a = Server.model path_join (name a) s) files.
Proof.
  intros H%mapM_Some. induction H as [|file a names files Ha _ [IH1 IH2]];
    [done|].
  destruct (statSync mesh file) as [s|] eqn:Hs; simplify_eq/=.
  split; [by f_equal|]. constructor; [|done]. eauto.
Qed.

Lemma findLatestGLBFile_head mesh :
  Server.findLatestGLBFile path_join mesh
  = head (Server.findGLBFiles path_join mesh).
Proof.
  unfold Server.findLatestGLBFile.
  destruct (Server.findGLBFiles path_join mesh); [done|].
  by rewrite bool_decide_eq_true_2 by (simpl; lia).
Qed.

(** X19. Every model of the list stands for an entry of the mesh folder
    whose name ends in [.glb] in some letter case: it carries the name of
    the entry, the path of the entry in [MODEL_MESH_FOLDER], the URL
    [/mesh/<name>], and the size and the modification time of the entry,
    the latter both as [created] and as [modified]. *)
Theorem listed_models_are_glb_entries mesh a :
  a ∈ Server.findGLBFiles path_join mesh →
  ∃ es s, mesh = Directory es ∧ name a ∈ es.*1
    ∧ Server.isGLB (name a) = true
    ∧ statSync mesh (name a) = Some s
    ∧ a = {| name := name a;
             path := path_join Server.MODEL_MESH_FOLDER (name a);
             url := "/mesh/" +:+ name a;
             a_size := size s;
             created := mtime s;
             modified := mtime s |}.
Proof.
  destruct mesh as [| |es]; [by intros ?%elem_of_nil..|].
  rewrite findGLBFiles_dir.
  destruct (mapM _ _) as [files|] eqn:Hfiles; [|by intros ?%elem_of_nil].
  simpl. rewrite Array_sort_perm. intros Ha.
  apply models_names in Hfiles as [Hnames Hall].
  rewrite Forall_forall in Hall. destruct (Hall a Ha) as (s & Hs & Heq).
  assert (name a ∈ filter (λ file, Server.isGLB file = true) es.*1) as Hin.
  { rewrite <-Hnames. apply list_elem_of_fmap. by exists a. }
  apply list_elem_of_filter in Hin as [? ?].
  exists es, s. done.
Qed.

(** X20. When every entry of the mesh folder whose name ends in [.glb] can
    be read, the list has exactly one model for each of them, and the models
    of equal modification time come in the order in which the folder lists
    them. *)
Theorem index_is_complete_and_stable es :
  (∀ file, file ∈ es.*1 → Server.isGLB file = true →
           is_Some (statSync (Directory es) file)) →
  name <$> Server.findGLBFiles path_join (Directory es)
    ≡ₚ filter (λ file, Server.isGLB file = true) es.*1
  ∧ ∀ t, name <$> filter (λ a, modified a = t)
                    (Server.findGLBFiles path_join (Directory es))
         = filter (λ file, mtime <$> statSync (Directory es) file = Some t)
             (filter (λ file, Server.isGLB file = true) es.*1).
Proof.
  intros Hread. rewrite findGLBFiles_dir.
  destruct (mapM _ _) as [files|] eqn:Hfiles.
  2:{ apply mapM_None in Hfiles. apply Exists_exists in Hfiles
        as (file & [Hglb Hin]%list_elem_of_filter & Hnone).
      destruct (Hread file Hin Hglb) as [s Hs]. rewrite Hs in Hnone.
      simpl in Hnone. done. }
  simpl. destruct (models_names _ _ _ Hfiles) as [Hnames Hall].
  split; [by rewrite Array_sort_perm, Hnames|].
  intros t.
  assert (∀ l : list artifact, filter (λ a, modified a = t) l
            = filter (λ a, created a = t) l
          ∨ ¬ Forall (λ a, created a = modified a) l) as Hcm.
  { intros l. destruct (decide (Forall (λ a, created a = modified a) l))
      as [Hl|]; [left|by right].
    induction Hl as [|a l Ha _ IH]; [done|].
    rewrite !filter_cons, IH. rewrite Ha. done. }
  assert (Forall (λ a, created a = modified a) files) as Hfc.
  { eapply Forall_impl; [exact Hall|]. by intros a (s & _ & ->). }
  assert (Forall (λ a, created a = modified a)
            (Array_sort (by_descending created) files)) as Hsc.
  { by rewrite Array_sort_perm. }
  destruct (Hcm (Array_sort (by_descending created) files)) as [->|]; [|done].
  rewrite Array_sort_stable. rewrite <-Hnames. clear Hnames Hfiles Hsc Hcm.
  induction Hall as [|a l (s & Hs & Ha) _ IH]; [done|].
  apply Forall_cons in Hfc as [Hca Hfc].
  rewrite fmap_cons, !filter_cons. cbv beta. simpl in Hs. rewrite Hs.
  change (mtime <$> Some s) with (Some (mtime s)).
  assert (mtime s = created a) as -> by (by rewrite Ha).
  clear Ha.
  case_decide as H1; case_decide as H2; rewrite ?fmap_cons, ?IH by done;
    first [done|by destruct H2; rewrite H1|by destruct H1; injection H2].
Qed.

(** X21. One model that cannot be read hides all of them: when the mesh
    folder has an entry whose name ends in [.glb] that [fs.statSync]
    rejects, the list is empty and there is no latest model, whatever else
    the folder holds. *)
Theorem unreadable_model_hides_all es file :
  file ∈ es.*1 → Server.isGLB file = true →
  statSync (Directory es) file = None →
  Server.findGLBFiles path_join (Directory es) = []
  ∧ Server.findLatestGLBFile path_join (Directory es) = None.
Proof.
  intros Hin Hglb Hnone.
  assert (Server.findGLBFiles path_join (Directory es) = []) as Hempty.
  { rewrite findGLBFiles_dir.
    destruct (mapM _ _) as [files|] eqn:Hfiles; [|done].
    apply mapM_Some in Hfiles.
    assert (file ∈ filter (λ file, Server.isGLB file = true) es.*1) as Hf
      by (by apply list_elem_of_filter).
    apply list_elem_of_lookup in Hf as [i Hi].
    destruct (Forall2_lookup_l _ _ _ _ _ Hfiles Hi) as (a & _ & Ha).
    by rewrite Hnone in Ha. }
  split; [done|]. by rewrite findLatestGLBFile_head, Hempty.
Qed.

(** X22. The latest model is a model of the list and none of the list has
    a later modification time. *)
Theorem latest_model_is_newest mesh a :
  Server.findLatestGLBFile path_join mesh = Some a →
  a ∈ Server.findGLBFiles path_join mesh
  ∧ ∀ b, b ∈ Server.findGLBFiles path_join mesh → (modified b ≤ modified a)%Z.
Proof.
  rewrite findLatestGLBFile_head.
  pose proof (findGLBFiles_sorted path_join mesh) as Hsorted.
  destruct (Server.findGLBFiles path_join mesh) as [|a' l]; [done|].
  intros [= ->]. split; [by left|].
  intros b [->|Hb]%elem_of_cons; [done|].
  apply StronglySorted_inv in Hsorted as [_ Hall].
  rewrite Forall_forall in Hall. by apply Hall.
Qed.
End index_more.

(** X23. A name is taken for a model exactly when it ends in an extension
    that reads [.glb] once lowered: [.glb], [.GLB], [.Glb], ... *)
Theorem isGLB_iff file :
  Server.isGLB file = true
  ↔ ∃ stem ext, file = stem +:+ ext ∧ toLowerCase ext = ".glb".
Proof.
  unfold Server.isGLB. split.
  - intros [stem Hs]%endsWith_inv.
    apply toLowerCase_split in Hs as (s1 & s2 & -> & _ & ?). eauto.
  - intros (stem & ext & -> & Hext).
    rewrite toLowerCase_app, Hext. apply endsWith_app.
Qed.

Lemma listed_models_are_glb_entries_witness :
  ∃ es s, three_models = Directory es ∧ "C.GLB" ∈ es.*1
    ∧ Server.isGLB "C.GLB" = true
    ∧ statSync three_models "C.GLB" = Some s
    ∧ Server.model join_slash "C.GLB" (Stats 30 3000)
      = {| name := "C.GLB";
           path := join_slash Server.MODEL_MESH_FOLDER "C.GLB";
           url := "/mesh/" +:+ "C.GLB";
           a_size := size s;
           created := mtime s;
           modified := mtime s |}.
Proof.
  apply (listed_models_are_glb_entries join_slash three_models
           (Server.model join_slash "C.GLB" (Stats 30 3000))).
  vm_compute. by left.
Defined.

Lemma index_is_complete_and_stable_witness :
  name <$> Server.findGLBFiles join_slash three_models
  ≡ₚ ["b.glb"; "C.GLB"; "a.glb"].
Proof.
  refine (proj1 (index_is_complete_and_stable join_slash
                   [("b.glb", Some (Stats 20 2000)); ("notes.txt", Some (Stats 1 9000));
                    ("C.GLB", Some (Stats 30 3000)); ("a.glb", Some (Stats 10 1000))]
                   _)).
  intros file Hin _. simpl in Hin.
  repeat (apply elem_of_cons in Hin as [->|Hin]);
    first [by eexists|by apply elem_of_nil in Hin].
Defined.

Lemma unreadable_model_hides_all_witness :
  Server.findGLBFiles join_slash unreadable_model = []
  ∧ Server.findLatestGLBFile join_slash unreadable_model = None.
Proof.
  apply (unreadable_model_hides_all join_slash
           [("a.glb", Some (Stats 10 1000)); ("b.glb", None)] "b.glb");
    [right; left|reflexivity|reflexivity].
Defined.

Lemma latest_model_is_newest_witness :
  Server.model join_slash "C.GLB" (Stats 30 3000)
    ∈ Server.findGLBFiles join_slash three_models
  ∧ ∀ b, b ∈ Server.findGLBFiles join_slash three_models →
         (modified b ≤ 3000)%Z.
Proof.
  apply (latest_model_is_newest join_slash three_models
           (Server.model join_slash "C.GLB" (Stats 30 3000))).
  reflexivity.
Defined.

(** ** From the capture to the submission *)

Lemma App_dispatch_accepted service now filename w T h0 J result :
  (JSON_parse T h0).1 `prefix_of` store w →
  App.patch T filename = Some J → accepts service (calls w) now J result →
  ∃ h', App.queueComfyUIPrompt service now (JSON_parse T h0).2 filename w
        = Ret (Queued (jget result "prompt_id") (jget result "number"))
              (Net h' (calls w ++ [health_request; prompt_request J now])).
Proof.
  intros Hpre HJ (rh & rp & Hs & Hokh & Hp & Hokp & Hres & Hnn).
  destruct (update_loaded (App.rules filename) T h0 (store w) Hpre)
    as (h' & _ & _ & Hrun).
  rewrite <-App_updateWorkflowWithImage_rules, <-App_patch_patched, HJ in Hrun.
  destruct Hrun as (v & Hrun & Hv). exists h'.
  unfold App.queueComfyUIPrompt, try_catch, bind, fetch, on_store, prompt_data.
  change (Request "GET" (App.COMFYUI_API_URL +:+ "/system_stats") None)
    with health_request.
  rewrite Hs, Hokh. simpl. rewrite Hrun. simpl. rewrite Hv. simpl.
  change (Request "POST" _ _) with (prompt_request J now).
  rewrite Hp, Hokp. simpl. unfold response_json. rewrite Hres, <-app_assoc.
  simpl. by rewrite !(jprop_not_null result) by done.
Qed.

Lemma Server_dispatch_accepted service now filename w T h0 J result :
  (JSON_parse T h0).1 `prefix_of` store w →
  Server.patch T filename = Some J → accepts service (calls w) now J result →
  ∃ h', Server.queueComfyUIPrompt service now (JSON_parse T h0).2 filename w
        = Ret (Queued (jget result "prompt_id") (jget result "number"))
              (Net h' (calls w ++ [health_request; prompt_request J now])).
Proof.
  intros Hpre HJ (rh & rp & Hs & Hokh & Hp & Hokp & Hres & Hnn).
  destruct (update_loaded (Server.rules filename) T h0 (store w) Hpre)
    as (h' & _ & _ & Hrun).
  rewrite <-Server_updateWorkflowWithImage_rules, <-Server_patch_patched, HJ
    in Hrun.
  destruct Hrun as (v & Hrun & Hv). exists h'.
  unfold Server.queueComfyUIPrompt, try_catch, bind, fetch, on_store, prompt_data.
  change (Request "GET" (Server.COMFYUI_API_URL +:+ "/system_stats") None)
    with health_request.
  rewrite Hs, Hokh. simpl. rewrite Hrun. simpl. rewrite Hv. simpl.
  change (Request "POST" _ _) with (prompt_request J now).
  rewrite Hp, Hokp. simpl. unfold response_json. rewrite Hres, <-app_assoc.
  simpl. by rewrite !(jprop_not_null result) by done.
Qed.

Lemma load_JsonFile T h0 v0 :
  App.load_template (JsonFile T) (Globals h0 v0)
  = Ret tt (Globals (JSON_parse T (h0 ++ [CObj []])).1
                    (JSON_parse T (h0 ++ [CObj []])).2)
  ∧ Server.load_template (JsonFile T) (Globals h0 v0)
    = Ret tt (Globals (JSON_parse T (h0 ++ [CObj []])).1
                      (JSON_parse T (h0 ++ [CObj []])).2).
Proof.
  unfold App.load_template, Server.load_template, try_catch, bind,
    in_globals, parse_document, assign_template, new_object. simpl.
  destruct (JSON_parse T (h0 ++ [CObj []])) as [h' v] eqn:Hp. simpl.
  split; [done|].
  assert (T = JNull ∨ T ≠ JNull) as [->|HT] by (destruct T; auto).
  { by injection Hp as <- <-. }
  pose proof (Object_keys_loaded T (h0 ++ [CObj []]) h') as Hkeys.
  rewrite Hp in Hkeys. simpl in Hkeys. by rewrite Hkeys.
Qed.

Section pipeline.
Context {fs : Type}.
Variable writeFileSync : string → string → fs → exn + fs.
Variable path_join : string → string → string.
Variable Buffer_from_base64 : string → string.

Lemma App_pipeline T h0 v0 body s d d1 service now log J result :
  let g := final_state (App.load_template (JsonFile T) (Globals h0 v0)) in
  let p := final_state
             (App.save_frame writeFileSync path_join Buffer_from_base64
                (g_workflowTemplate g) body (Process (g_store g) d [] None)) in
  jkeys T ≠ [] →
  jget body "imageData" = Some (JStr s) → s ≠ "" →
  writeFileSync (path_join App.COMFYUI_INPUT_FOLDER "webcam_input.jpg")
                (Buffer_from_base64 (strip_data_url s)) d = inr d1 →
  App.patch T "webcam_input.jpg" = Some J →
  accepts service log now J result →
  disk p = d1
  ∧ ∃ t h',
      timers p = [t] ∧ timer_ms t = 5000%Z
      ∧ App.on_timer service now t (Net (heap_of p) log)
        = Ret (Queued (jget result "prompt_id") (jget result "number"))
              (Net h' (log ++ [health_request; prompt_request J now])).
Proof.
  intros g p Hkeys Hd Hs Hw HJ Hacc.
  assert (T ≠ JNull) as HT by (by intros ->).
  unfold p, g. rewrite (proj1 (load_JsonFile T h0 v0)). simpl.
  erewrite App_capture_stored;
    [|done|done|done|by apply Object_keys_loaded].
  simpl. split; [done|].
  rewrite bool_decide_eq_true_2.
  2:{ unfold jkeys in *. destruct (jentries T).*1; [done|simpl; lia]. }
  destruct (App_dispatch_accepted service now "webcam_input.jpg"
              (Net (JSON_parse T (h0 ++ [CObj []])).1 log) T (h0 ++ [CObj []])
              J result) as [h' Hrun]; try done.
  eexists _, h'. split; [done|]. split; [done|]. exact Hrun.
Qed.

Lemma Server_pipeline T h0 v0 body s d d1 service now log J result :
  let g := final_state (Server.load_template (JsonFile T) (Globals h0 v0)) in
  let p := final_state
             (Server.save_frame writeFileSync path_join Buffer_from_base64
                (g_workflowTemplate g) body (Process (g_store g) d [] None)) in
  jkeys T ≠ [] →
  jget body "imageData" = Some (JStr s) → s ≠ "" →
  writeFileSync (path_join Server.COMFYUI_INPUT_FOLDER "webcam_input.jpg")
                (Buffer_from_base64 (strip_data_url s)) d = inr d1 →
  Server.patch T "webcam_input.jpg" = Some J →
  accepts service log now J result →
  disk p = d1
  ∧ ∃ t h',
      timers p = [t] ∧ timer_ms t = 5000%Z
      ∧ Server.on_timer service now t (Net (heap_of p) log)
        = Ret (Queued (jget result "prompt_id") (jget result "number"))
              (Net h' (log ++ [health_request; prompt_request J now])).
Proof.
  intros g p Hkeys Hd Hs Hw HJ Hacc.
  assert (T ≠ JNull) as HT by (by intros ->).
  unfold p, g. rewrite (proj2 (load_JsonFile T h0 v0)). simpl.
  erewrite Server_capture_stored;
    [|done|done|done|by apply Object_keys_loaded].
  simpl. split; [done|].
  rewrite bool_decide_eq_true_2.
  2:{ unfold jkeys in *. destruct (jentries T).*1; [done|simpl; lia]. }
  destruct (Server_dispatch_accepted service now "webcam_input.jpg"
              (Net (JSON_parse T (h0 ++ [CObj []])).1 log) T (h0 ++ [CObj []])
              J result) as [h' Hrun]; try done.
  eexists _, h'. split; [done|]. split; [done|]. exact Hrun.
Qed.

(** X25. From start-up to the submission: with a workflow file that reads
    as a document [T] with at least one key, a capture whose write succeeds
    schedules one dispatch after 5000 ms, and when that dispatch runs against
    a service that accepts, the job the service receives is
    [patch(T, "webcam_input.jpg")], which names the file the frame was
    written to; the result carries the identifiers of the answer.  In both
    variants. *)
Theorem capture_then_dispatch T h0 v0 body s d service now log :
  jkeys T ≠ [] →
  jget body "imageData" = Some (JStr s) → s ≠ "" →
  (∀ d1 J result,
     let g := final_state (App.load_template (JsonFile T) (Globals h0 v0)) in
     let p := final_state
                (App.save_frame writeFileSync path_join Buffer_from_base64
                   (g_workflowTemplate g) body (Process (g_store g) d [] None)) in
     writeFileSync (path_join App.COMFYUI_INPUT_FOLDER "webcam_input.jpg")
                   (Buffer_from_base64 (strip_data_url s)) d = inr d1 →
     App.patch T "webcam_input.jpg" = Some J →
     accepts service log now J result →
     disk p = d1
     ∧ ∃ t h',
         timers p = [t] ∧ timer_ms t = 5000%Z
         ∧ App.on_timer service now t (Net (heap_of p) log)
           = Ret (Queued (jget result "prompt_id") (jget result "number"))
                 (Net h' (log ++ [health_request; prompt_request J now])))
  ∧ (∀ d1 J result,
     let g := final_state (Server.load_template (JsonFile T) (Globals h0 v0)) in
     let p := final_state
                (Server.save_frame writeFileSync path_join Buffer_from_base64
                   (g_workflowTemplate g) body (Process (g_store g) d [] None)) in
     writeFileSync (path_join Server.COMFYUI_INPUT_FOLDER "webcam_input.jpg")
                   (Buffer_from_base64 (strip_data_url s)) d = inr d1 →
     Server.patch T "webcam_input.jpg" = Some J →
     accepts service log now J result →
     disk p = d1
     ∧ ∃ t h',
         timers p = [t] ∧ timer_ms t = 5000%Z
         ∧ Server.on_timer service now t (Net (heap_of p) log)
           = Ret (Queued (jget result "prompt_id") (jget result "number"))
                 (Net h' (log ++ [health_request; prompt_request J now]))).
Proof.
  intros Hkeys Hd Hs. split; intros d1 J result g p Hw HJ Hacc.
  - by apply (App_pipeline T h0 v0 body s).
  - by apply (Server_pipeline T h0 v0 body s).
Qed.
End pipeline.

Lemma capture_then_dispatch_witness :
  ∃ t h',
    timers (final_state
              (App.save_frame write_always join_slash (λ data, data)
                 (g_workflowTemplate
                    (final_state (App.load_template (JsonFile scenario_template)
                                    (Globals [] VUndef))))
                 frame_request
                 (Process (g_store
                             (final_state
                                (App.load_template (JsonFile scenario_template)
                                   (Globals [] VUndef))))
                          [] [] None)))
    = [t]
    ∧ timer_ms t = 5000%Z
    ∧ App.on_timer accepting_service 0 t
        (Net (heap_of
                (final_state
                   (App.save_frame write_always join_slash (λ data, data)
                      (g_workflowTemplate
                         (final_state
                            (App.load_template (JsonFile scenario_template)
                               (Globals [] VUndef))))
                      frame_request
                      (Process (g_store
                                  (final_state
                                     (App.load_template (JsonFile scenario_template)
                                        (Globals [] VUndef))))
                               [] [] None))))
             [])
      = Ret (Queued (Some (JStr "p-1")) (Some (JNum 3)))
            (Net h' [health_request;
                     prompt_request
                       (JObj [("1", JObj [("class_type", JStr "LoadImage");
                                          ("inputs", JObj [("image", JStr "webcam_input.jpg")])]);
                              ("2", JObj [("class_type", JStr "SaveGLB");
                                          ("inputs", JObj [("filename_prefix", JStr "mesh/webcam_3d_mesh");
                                                           ("mesh", JArr [JStr "7"; JNum 0])])])])
                       0]).
Proof.
  refine (proj2 (proj1 (capture_then_dispatch write_always join_slash
                          (λ data, data) scenario_template [] VUndef
                          frame_request "data:image/jpeg;base64,AAAA" []
                          accepting_service 0 [] _ eq_refl _)
                   _ _ (JObj [("prompt_id", JStr "p-1"); ("number", JNum 3)])
                   eq_refl _ _)); try done.
  eexists _, _. repeat split; try reflexivity. done.
Defined.

(** ** The debug route *)

Section debug_facts.
Context {S : Type}.
Variable path_join : string → string → string.
Variable toISOString : Z → string.
Variable fs_error : string → string → exn.
Variable stack : exn → string.

Lemma collect_found mesh names (s : S) :
  Forall (λ file, is_Some (statSync mesh file)) names →
  ∃ found,
    collect names (λ file,
      match statSync mesh file with
      | Some stats => ret (Server.found_file path_join toISOString file stats)
      | None => throw (fs_error "stat" (path_join Server.MODEL_MESH_FOLDER file))
      end) s = Ret found s
    ∧ Forall2 (λ file j, ∃ stats, statSync mesh file = Some stats
                 ∧ j = Server.found_file path_join toISOString file stats)
              names found.
Proof.
  induction 1 as [|file names [stats Hs] _ (found & IH & Hall)]; simpl.
  { by exists []. }
  unfold bind. rewrite Hs. simpl. rewrite IH. simpl.
  eexists. split; [done|]. constructor; eauto.
Qed.

Lemma collect_unreadable mesh names file (s : S) :
  file ∈ names → statSync mesh file = None →
  ∃ file', file' ∈ names ∧ statSync mesh file' = None ∧
    collect names (λ file,
      match statSync mesh file with
      | Some stats => ret (Server.found_file path_join toISOString file stats)
      | None => throw (fs_error "stat" (path_join Server.MODEL_MESH_FOLDER file))
      end) s
    = Throw (fs_error "stat" (path_join Server.MODEL_MESH_FOLDER file')) s.
Proof.
  induction names as [|f names IH]; [by intros ?%elem_of_nil|].
  intros Hin Hnone. simpl. unfold bind.
  destruct (statSync mesh f) as [stats|] eqn:Hs; simpl.
  - apply elem_of_cons in Hin as [->|Hin]; [congruence|].
    destruct (IH Hin Hnone) as (file' & ? & ? & ->).
    exists file'. split; [by right|]. done.
  - exists f. split; [by left|]. done.
Qed.

(** X26. The debug route reads the mesh folder without the safety net of
    the model list.  It answers 200 with an empty [foundFiles] and no
    [allFiles] when the folder is missing; 200 with one entry for each entry
    of the folder, in the order of the listing and flagged [isGLB] as the
    model list selects, when every entry can be read; and 500 with the
    message and the stack of the error when the path is no folder, or when
    some entry, a model or not, cannot be read. *)
Theorem debug_route_reads_unguarded output (s : S) :
  (∃ body,
     Server.debug_models path_join toISOString fs_error stack output Missing s
     = Ret (Reply 200 body) s
     ∧ jget body "foundFiles" = Some (JArr []) ∧ jget body "allFiles" = None)
  ∧ Server.debug_models path_join toISOString fs_error stack output File s
    = Ret (Reply 500
             (JObj [("error", JStr (message (fs_error "scandir"
                                               Server.MODEL_MESH_FOLDER)));
                    ("stack", JStr (stack (fs_error "scandir"
                                             Server.MODEL_MESH_FOLDER)))])) s
  ∧ (∀ es,
       (∀ file, file ∈ es.*1 → is_Some (statSync (Directory es) file)) →
       ∃ body found,
         Server.debug_models path_join toISOString fs_error stack output
           (Directory es) s = Ret (Reply 200 body) s
         ∧ jget body "foundFiles" = Some (JArr found)
         ∧ jget body "allFiles" = Some (JArr (JStr <$> es.*1))
         ∧ Forall2 (λ file j,
                      ∃ stats, statSync (Directory es) file = Some stats
                        ∧ j = Server.found_file path_join toISOString file stats
                        ∧ jget j "isGLB" = Some (JBool (Server.isGLB file)))
                   es.*1 found)
  ∧ (∀ es file,
       file ∈ es.*1 → statSync (Directory es) file = None →
       ∃ file', file' ∈ es.*1 ∧ statSync (Directory es) file' = None ∧
         Server.debug_models path_join toISOString fs_error stack output
           (Directory es) s
         = Ret (Reply 500
                  (JObj [("error", JStr (message (fs_error "stat"
                            (path_join Server.MODEL_MESH_FOLDER file'))));
                         ("stack", JStr (stack (fs_error "stat"
                            (path_join Server.MODEL_MESH_FOLDER file'))))])) s).
Proof.
  split; [|split; [|split]].
  - eexists. split; [reflexivity|]. done.
  - reflexivity.
  - intros es Hread.
    destruct (collect_found (Directory es) es.*1 s) as (found & Hrun & Hall).
    { apply Forall_forall. intros file Hin. by apply Hread. }
    unfold Server.debug_models, try_catch, bind.
    change (existsSync (Directory es)) with true.
    change (readdirSync (Directory es)) with (Some es.*1).
    cbv iota. unfold ret at 1. cbv iota beta. rewrite Hrun. cbv iota beta.
    eexists _, found. split; [reflexivity|]. split; [done|]. split; [done|].
    eapply Forall2_impl; [exact Hall|].
    intros file j (stats & ? & ->). exists stats. done.
  - intros es file Hin Hnone.
    destruct (collect_unreadable (Directory es) es.*1 file s Hin Hnone)
      as (file' & Hin' & Hnone' & Hrun).
    exists file'. split; [done|]. split; [done|].
    unfold Server.debug_models, try_catch, bind.
    change (existsSync (Directory es)) with true.
    change (readdirSync (Directory es)) with (Some es.*1).
    cbv iota. unfold ret at 1. cbv iota beta. by rewrite Hrun.
Qed.
End debug_facts.
